(** * Quadrature mouse emulation (uni_mouse_quadrature.c)

    A shallow embedding of the quadrature generator of bluepad32: the
    per-axis state machine ([process_quadrature]), the delta-to-interval
    conversion ([process_update]), the port operations and the scale-factor
    accessors, together with the properties of the natural-language
    specification that concern them.

    - [int] and [int32_t] values are integers with 32-bit wrap-around.
    - [float] values are binary32; the operations are those of the
      Standard Library's [SpecFloat] at precision 24, the target computing
      single-precision expressions in single precision.
    - The GPIO and timer drivers are not simulated: the calls made to them
      are recorded in order, and one wake-up of a timer task is one
      application of [timer_task_step].
    - The non-volatile store is a finite map; whether it answers a request
      is an argument of the operation that makes it. *)

From Stdlib Require Import ZArith Bool Lia String.
From Stdlib Require Import Floats.SpecFloat.
From stdpp Require Import base list strings gmap.
From stdpp Require Import pretty.

Local Open Scope Z_scope.

(** ** Machine integers *)

(** [int] and [int32_t] are 32-bit two's-complement integers; they are kept
    as [Z] and every operation that can leave the range wraps around. *)
Module Int32.

Definition min_signed : Z := - 2 ^ 31.
Definition max_signed : Z := 2 ^ 31 - 1.

Definition in_range (z : Z) : Prop := min_signed <= z <= max_signed.

Definition wrap (z : Z) : Z := (z + 2 ^ 31) mod 2 ^ 32 - 2 ^ 31.

Definition neg (z : Z) : Z := wrap (- z).
Definition add (x y : Z) : Z := wrap (x + y).
Definition sub (x y : Z) : Z := wrap (x - y).

End Int32.

(** ** Single-precision floats *)

(** A C [float] is an IEEE-754 binary32 value.  In memory it is its 32-bit
    pattern; arithmetic is done on the decoded [spec_float] with the
    Standard Library's reference operations at precision 24. *)
Module F32.

Definition prec : Z := 24.
Definition emax : Z := 128.

Definition mul : spec_float -> spec_float -> spec_float := SFmul prec emax.
Definition div : spec_float -> spec_float -> spec_float := SFdiv prec emax.

(** Conversion of an integer to [float] (round to nearest, ties to even). *)
Definition of_int (z : Z) : spec_float := binary_normalize prec emax z 0 false.

(** Decoding of a bit pattern: sign (bit 31), biased exponent (bits 30-23),
    fraction (bits 22-0). *)
Definition of_bits (w : Z) : spec_float :=
  let sgn := Z.testbit w 31 in
  let ex := Z.land (Z.shiftr w 23) 255 in
  let fr := Z.land w (2 ^ 23 - 1) in
  if ex =? 0 then
    match fr with
    | Zpos m => S754_finite sgn m (-149)
    | _ => S754_zero sgn
    end
  else if ex =? 255 then
    (if fr =? 0 then S754_infinity sgn else S754_nan)
  else
    match fr + 2 ^ 23 with
    | Zpos m => S754_finite sgn m (ex - 150)
    | _ => S754_nan
    end.

(** The bit pattern of 1.0f. *)
Definition one_bits : Z := 0x3F800000.

(** Comparison of the values denoted, as IEEE-754 orders them: the two
    zeros are equal, a NaN compares with nothing.  Finite operands are
    compared exactly, as integers over their common least exponent, so the
    result does not depend on how a value is represented. *)
Definition cmp_finite (s1 : bool) (m1 : positive) (e1 : Z)
                      (s2 : bool) (m2 : positive) (e2 : Z) : comparison :=
  let e := Z.min e1 e2 in
  Z.compare (cond_Zopp s1 (Zpos m1) * 2 ^ (e1 - e))
            (cond_Zopp s2 (Zpos m2) * 2 ^ (e2 - e)).

Definition compare (x y : spec_float) : option comparison :=
  match x, y with
  | S754_nan, _ | _, S754_nan => None
  | S754_infinity s1, S754_infinity s2 =>
      Some (if s1 then (if s2 then Eq else Lt) else (if s2 then Gt else Eq))
  | S754_infinity s, _ => Some (if s then Lt else Gt)
  | _, S754_infinity s => Some (if s then Gt else Lt)
  | S754_zero _, S754_zero _ => Some Eq
  | S754_finite s _ _, S754_zero _ => Some (if s then Lt else Gt)
  | S754_zero _, S754_finite s _ _ => Some (if s then Gt else Lt)
  | S754_finite s1 m1 e1, S754_finite s2 m2 e2 =>
      Some (cmp_finite s1 m1 e1 s2 m2 e2)
  end.

Definition ltb (x y : spec_float) : bool :=
  match compare x y with
  | Some Lt => true
  | _ => false
  end.

(** The integer nearest to the magnitude [m * 2 ^ e], halfway cases away
    from zero. *)
Definition round_mag (m : positive) (e : Z) : Z :=
  if 0 <=? e then Zpos m * 2 ^ e
  else (Zpos m + 2 ^ (- e - 1)) / 2 ^ (- e).

(** [roundf]: nearest integral value, halfway cases away from zero.  A
    value with a non-negative exponent is integral already; otherwise the
    result is the integer [round_mag m e], kept with exponent 0. *)
Definition roundf (x : spec_float) : spec_float :=
  match x with
  | S754_finite s m e =>
      if 0 <=? e then x
      else
        match round_mag m e with
        | Zpos n => S754_finite s n 0
        | _ => S754_zero s
        end
  | _ => x
  end.

(** The integral part of the magnitude [m * 2 ^ e]. *)
Definition trunc_mag (m : positive) (e : Z) : Z :=
  if 0 <=? e then Zpos m * 2 ^ e else Zpos m / 2 ^ (- e).

(** Conversion of a [float] to [uint64_t]: the fractional part is
    discarded; the result is [None] where C leaves the conversion
    undefined (NaN, infinities, integral part outside [0, 2^64)). *)
Definition to_u64 (x : spec_float) : option Z :=
  match x with
  | S754_zero _ => Some 0
  | S754_finite s m e =>
      let t := trunc_mag m e in
      if s then (if t =? 0 then Some 0 else None)
      else if t <? 2 ^ 64 then Some t else None
  | _ => None
  end.

(** [s > 0]: the pattern of a positive float (possibly +infinity). *)
Definition positive (w : Z) : Prop := ltb (of_int 0) (of_bits w) = true.

(** The sign bit is clear, or the value is a NaN. *)
Definition sign_clear (x : spec_float) : bool :=
  match x with
  | S754_zero s | S754_infinity s | S754_finite s _ _ => negb s
  | S754_nan => true
  end.

End F32.


(** ** Data model *)

(** Timer configuration: one tick every 80us (option B of the source). *)
Definition TICKS_PER_80US : Z := 1.
Definition ONE_SECOND : Z := 12500.

(** Default scale factor for the mouse movement, as the [float] 1.0f. *)
Definition DETAULT_SCALE_FACTOR : Z := F32.one_bits.

(** Modelled from the spec: the header [uni_mouse_quadrature.h], which
    declares the encoder indices, is not among the sources.  A port has two
    axes, the horizontal and the vertical one; the source names the timer
    task of encoder 0 with an 'H' and the other with a 'V'. *)
Definition UNI_MOUSE_QUADRATURE_ENCODER_H : nat := 0.
Definition UNI_MOUSE_QUADRATURE_ENCODER_V : nat := 1.
Definition UNI_MOUSE_QUADRATURE_ENCODER_MAX : nat := 2.

(** The first timer group and the first timer of the timer driver. *)
Definition TIMER_GROUP_0 : Z := 0.
Definition TIMER_0 : Z := 0.

Definition STORAGE_NAMESPACE : string := "bp32".
Definition NVS_KEY_SCALE_FACTOR : string := "mouse.scale".

Inductive direction : Set :=
  | PHASE_DIRECTION_NEG
  | PHASE_DIRECTION_POS.

(** [struct uni_mouse_quadrature_encoder_gpios], of the same header: the
    two output pins, read by the source as [gpios.a] and [gpios.b]. *)
Record encoder_gpios : Set := mk_gpios { gpio_a : Z; gpio_b : Z }.

(** [struct quadrature_state]: a mouse has two encoders, each with one. *)
Record quadrature_state : Set := mk_quadrature {
  encoder : Z;
  dir : direction;
  value : Z;
  phase : Z;
  timer_group : Z;
  timer_idx : Z;
  gpios : encoder_gpios
}.

Definition set_value (v : Z) (q : quadrature_state) : quadrature_state :=
  mk_quadrature (encoder q) (dir q) v (phase q) (timer_group q) (timer_idx q) (gpios q).
Definition set_dir (d : direction) (q : quadrature_state) : quadrature_state :=
  mk_quadrature (encoder q) d (value q) (phase q) (timer_group q) (timer_idx q) (gpios q).
Definition set_phase (p : Z) (q : quadrature_state) : quadrature_state :=
  mk_quadrature (encoder q) (dir q) (value q) p (timer_group q) (timer_idx q) (gpios q).
Definition set_timer (g i : Z) (q : quadrature_state) : quadrature_state :=
  mk_quadrature (encoder q) (dir q) (value q) (phase q) g i (gpios q).
Definition set_gpios (g : encoder_gpios) (q : quadrature_state) : quadrature_state :=
  mk_quadrature (encoder q) (dir q) (value q) (phase q) (timer_group q) (timer_idx q) g.

(** The memory image [memset] leaves: every field zero. *)
Definition zero_quadrature : quadrature_state :=
  mk_quadrature 0 PHASE_DIRECTION_NEG 0 0 0 0 (mk_gpios 0 0).

(** Calls into the GPIO and timer drivers, in the order they are made.  The
    counter value is [None] where the conversion that produces it is not
    defined. *)
Inductive periph_call : Set :=
  | gpio_set_level (gpio level : Z)
  | timer_set_counter_value (group idx : Z) (units : option Z)
  | timer_start (group idx : Z)
  | timer_pause (group idx : Z).

(** A console line: the level, the format and its arguments. *)
Inductive log_arg : Set :=
  | LogStr (s : string)
  | LogInt (z : Z).

Inductive log_entry : Set :=
  | loge (fmt : string) (args : list log_arg)
  | logi (fmt : string) (args : list log_arg)
  | logd (fmt : string) (args : list log_arg).

(** The module's static variables, the contents of the [bp32] namespace of
    the non-volatile store, and the calls made so far (oldest first). *)
Record state : Type := mk_state {
  s_quadratures : list (list quadrature_state);
  timer_started : list bool;
  s_scale_factor : Z;
  nvs : gmap string Z;
  periph : list periph_call;
  console : list log_entry
}.

Definition set_quadratures (qs : list (list quadrature_state)) (st : state) : state :=
  mk_state qs (timer_started st) (s_scale_factor st) (nvs st) (periph st) (console st).
Definition set_timer_started (ts : list bool) (st : state) : state :=
  mk_state (s_quadratures st) ts (s_scale_factor st) (nvs st) (periph st) (console st).
Definition set_scale (s : Z) (st : state) : state :=
  mk_state (s_quadratures st) (timer_started st) s (nvs st) (periph st) (console st).
Definition set_nvs (m : gmap string Z) (st : state) : state :=
  mk_state (s_quadratures st) (timer_started st) (s_scale_factor st) m (periph st) (console st).
Definition call (cs : list periph_call) (st : state) : state :=
  mk_state (s_quadratures st) (timer_started st) (s_scale_factor st) (nvs st)
           (periph st ++ cs) (console st).
Definition log (ls : list log_entry) (st : state) : state :=
  mk_state (s_quadratures st) (timer_started st) (s_scale_factor st) (nvs st)
           (periph st) (console st ++ ls).

(** [s_quadratures[port][enc]]. *)
Definition get_q (st : state) (port enc : nat) : option quadrature_state :=
  s_quadratures st !! port ≫= (.!! enc).

Definition put_q (port enc : nat) (q : quadrature_state) (st : state) : state :=
  match s_quadratures st !! port with
  | Some row => set_quadratures (<[port := <[enc := q]> row]> (s_quadratures st)) st
  | None => st
  end.

(** ** The stepper *)

(** The two output levels of a phase; [None] is the [default:] branch of the
    switch, which logs and drives both levels low. *)
Definition phase_levels (p : Z) : option (Z * Z) :=
  match p with
  | 0 => Some (0, 0)
  | 1 => Some (1, 0)
  | 2 => Some (1, 1)
  | 3 => Some (0, 1)
  | _ => None
  end.

(** The phase after one step in direction [d]. *)
Definition step_phase (d : direction) (p : Z) : Z :=
  match d with
  | PHASE_DIRECTION_NEG =>
      let p' := Int32.sub p 1 in if p' <? 0 then 3 else p'
  | PHASE_DIRECTION_POS =>
      let p' := Int32.add p 1 in if 3 <? p' then 0 else p'
  end.

(** [process_quadrature]: the new axis state, the driver calls and the log
    lines of one firing. *)
Definition process_quadrature (q : quadrature_state)
  : quadrature_state * list periph_call * list log_entry :=
  if value q <=? 0 then (q, [], [])
  else
    let q := set_value (Int32.sub (value q) 1) q in
    let q := set_phase (step_phase (dir q) (phase q)) q in
    let '(a, b, err) :=
      match phase_levels (phase q) with
      | Some (a, b) => (a, b, [])
      | None => (0, 0, [loge "%s: invalid phase value: %d"
                             [LogStr "process_quadrature"; LogInt (phase q)]])
      end in
    (q,
     [gpio_set_level (gpio_a (gpios q)) a; gpio_set_level (gpio_b (gpios q)) b],
     err ++ [logd "value: %d, quadrature phase: %d, a=%d, b=%d (%d,%d)"
                  [LogInt (value q); LogInt (phase q); LogInt a; LogInt b;
                   LogInt (gpio_a (gpios q)); LogInt (gpio_b (gpios q))]]).

(** ** The rate converter *)

(** [process_update]: the new axis state and the driver call. *)
Definition process_update (scale : Z) (q : quadrature_state) (delta : Z)
  : quadrature_state * list periph_call :=
  let abs_delta := if delta <? 0 then Int32.neg delta else delta in
  let '(q, units) :=
    if negb (delta =? 0) then
      (* Don't update the phase, it should start from the previous phase *)
      let q := set_value abs_delta q in
      let q := set_dir (if delta <? 0 then PHASE_DIRECTION_NEG
                        else PHASE_DIRECTION_POS) q in
      let max_ticks := F32.of_int (128 * TICKS_PER_80US) in
      let delta_f := F32.of_int abs_delta in
      let units_f := F32.mul (F32.div max_ticks delta_f) (F32.of_bits scale) in
      let units_f := if F32.ltb units_f (F32.of_int TICKS_PER_80US)
                     then F32.of_int TICKS_PER_80US else units_f in
      (q, F32.to_u64 (F32.roundf units_f))
    else
      (* If there is no update, set timer to update less frequently *)
      (q, Some (ONE_SECOND * 60)) in
  (q, [timer_set_counter_value (timer_group q) (timer_idx q) units]).

(** The pieces of [process_update] the properties speak of. *)

(** [units_f]: the tick budget divided by the magnitude, times the scale. *)
Definition units_f (abs_delta : Z) (scale : Z) : spec_float :=
  let max_ticks := F32.of_int (128 * TICKS_PER_80US) in
  let delta_f := F32.of_int abs_delta in
  F32.mul (F32.div max_ticks delta_f) (F32.of_bits scale).

(** The clamp to one tick, then [roundf] and the conversion to [uint64_t]. *)
Definition units_of (u : spec_float) : option Z :=
  let u := if F32.ltb u (F32.of_int TICKS_PER_80US)
           then F32.of_int TICKS_PER_80US else u in
  F32.to_u64 (F32.roundf u).

Definition abs_delta (delta : Z) : Z :=
  if delta <? 0 then Int32.neg delta else delta.

(** The counter value [process_update] programs for [delta]. *)
Definition interval (scale : Z) (delta : Z) : option Z :=
  if delta =? 0 then Some (ONE_SECOND * 60)
  else units_of (units_f (abs_delta delta) scale).

(** ** The port operations *)

Section Ports.

(** The number of ports, a constant of the header that is not among the
    sources: everything below holds for any value of it. *)
Variable UNI_MOUSE_QUADRATURE_PORT_MAX : nat.

Definition invalid_port (port_idx : Z) : bool :=
  (port_idx <? 0) || (Z.of_nat UNI_MOUSE_QUADRATURE_PORT_MAX <=? port_idx).

Definition invalid_port_msg (fn : string) (port_idx : Z) : log_entry :=
  loge "%s: Invalid port idx=%d" [LogStr fn; LogInt port_idx].

(** The reads of the store by [uni_mouse_quadrature_get_scale_factor];
    [open_ok] and [get_ok] tell whether the store answers. *)
Definition uni_mouse_quadrature_get_scale_factor
    (open_ok get_ok : bool) (st : state) : Z :=
  if negb open_ok then DETAULT_SCALE_FACTOR
  else
    match (if get_ok then nvs st !! NVS_KEY_SCALE_FACTOR else None) with
    | Some w => w
    | None => DETAULT_SCALE_FACTOR
    end.

Definition init_row (i : nat) : list quadrature_state :=
  (fun j => set_timer (TIMER_GROUP_0 + Z.of_nat i) (TIMER_0 + Z.of_nat j)
                      zero_quadrature)
    <$> seq 0 UNI_MOUSE_QUADRATURE_ENCODER_MAX.

(** [uni_mouse_quadrature_init], up to the creation of the timer tasks. *)
Definition uni_mouse_quadrature_init (open_ok get_ok : bool) (st : state) : state :=
  let st := set_quadratures (init_row <$> seq 0 UNI_MOUSE_QUADRATURE_PORT_MAX) st in
  let st := set_timer_started (replicate UNI_MOUSE_QUADRATURE_PORT_MAX false) st in
  set_scale (uni_mouse_quadrature_get_scale_factor open_ok get_ok st) st.

Definition uni_mouse_quadrature_setup_port
    (port_idx : Z) (h v : encoder_gpios) (st : state) : state :=
  if invalid_port port_idx
  then log [invalid_port_msg "uni_mouse_quadrature_setup_port" port_idx] st
  else
    let p := Z.to_nat port_idx in
    let set_g (enc : nat) (g : encoder_gpios) (st : state) :=
      match get_q st p enc with
      | Some q => put_q p enc (set_gpios g q) st
      | None => st
      end in
    set_g UNI_MOUSE_QUADRATURE_ENCODER_V v
      (set_g UNI_MOUSE_QUADRATURE_ENCODER_H h st).

(** The driver calls of the loop over the encoders of a port. *)
Definition for_encoders (f : Z -> Z -> periph_call) (st : state) (p : nat)
  : list periph_call :=
  omap (fun j => q ← get_q st p j; Some (f (timer_group q) (timer_idx q)))
       (seq 0 UNI_MOUSE_QUADRATURE_ENCODER_MAX).

Definition uni_mouse_quadrature_start (port_idx : Z) (st : state) : state :=
  if invalid_port port_idx
  then log [invalid_port_msg "uni_mouse_quadrature_start" port_idx] st
  else
    let p := Z.to_nat port_idx in
    if default false (timer_started st !! p) then st
    else
      let st := call (for_encoders timer_start st p) st in
      set_timer_started (<[p := true]> (timer_started st)) st.

Definition uni_mouse_quadrature_pause (port_idx : Z) (st : state) : state :=
  if invalid_port port_idx
  then log [invalid_port_msg "uni_mouse_quadrature_pause" port_idx] st
  else
    let p := Z.to_nat port_idx in
    if negb (default false (timer_started st !! p)) then st
    else
      let st := call (for_encoders timer_pause st p) st in
      set_timer_started (<[p := false]> (timer_started st)) st.

(** [process_update] on [s_quadratures[p][enc]]. *)
Definition update_axis (p enc : nat) (delta : Z) (st : state) : state :=
  match get_q st p enc with
  | Some q =>
      let '(q', cs) := process_update (s_scale_factor st) q delta in
      call cs (put_q p enc q' st)
  | None => st
  end.

(** Should be called everytime that mouse report is received. *)
Definition uni_mouse_quadrature_update (port_idx dx dy : Z) (st : state) : state :=
  if invalid_port port_idx
  then log [invalid_port_msg "uni_mouse_quadrature_update" port_idx] st
  else
    let p := Z.to_nat port_idx in
    let st := update_axis p UNI_MOUSE_QUADRATURE_ENCODER_H dx st in
    (* Invert delta Y so that mouse goes the the right direction. *)
    update_axis p UNI_MOUSE_QUADRATURE_ENCODER_V (Int32.neg dy) st.

(** [uni_mouse_quadrature_set_scale_factor]; [open_ok], [set_ok] and
    [commit_ok] tell whether the store accepts each request. *)
Definition uni_mouse_quadrature_set_scale_factor
    (scale : Z) (open_ok set_ok commit_ok : bool) (st : state) : state :=
  (* Update runtime value *)
  let st := set_scale scale st in
  if negb open_ok then log [loge "Could not open NVS storage" []] st
  else if negb set_ok then log [loge "Could not save scale factor in NVS" []] st
  else
    let st := set_nvs (<[NVS_KEY_SCALE_FACTOR := scale]> (nvs st)) st in
    if negb commit_ok then log [loge "Could commit scale factor in NVS" []] st
    else log [logi "Ok" []] st.

(** One wake-up of the timer task of [s_quadratures[p][enc]]. *)
Definition timer_task_step (p enc : nat) (st : state) : state :=
  match get_q st p enc with
  | Some q =>
      let '(q', cs, ls) := process_quadrature q in
      log ls (call cs (put_q p enc q' st))
  | None => st
  end.

End Ports.

(** ** Runs of the module *)

(** The entry points a client or a timer task can take, with their
    arguments and, where the store is involved, its answers. *)
Inductive op : Set :=
  | OpSetupPort (port_idx : Z) (h v : encoder_gpios)
  | OpStart (port_idx : Z)
  | OpPause (port_idx : Z)
  | OpUpdate (port_idx dx dy : Z)
  | OpSetScale (scale : Z) (open_ok set_ok commit_ok : bool)
  | OpTimerTask (p enc : nat).

(** Arguments are values of their C types. *)
Definition op_typed (o : op) : Prop :=
  match o with
  | OpSetupPort port_idx _ _ | OpStart port_idx | OpPause port_idx =>
      Int32.in_range port_idx
  | OpUpdate port_idx dx dy =>
      Int32.in_range port_idx /\ Int32.in_range dx /\ Int32.in_range dy
  | OpSetScale scale _ _ _ => 0 <= scale < 2 ^ 32
  | OpTimerTask _ _ => True
  end.

(** No delta of an update is [INT32_MIN], the one value whose negation does
    not fit 32 bits. *)
Definition op_deltas_negatable (o : op) : Prop :=
  match o with
  | OpUpdate _ dx dy => dx <> Int32.min_signed /\ dy <> Int32.min_signed
  | _ => True
  end.

Section Runs.

Variable PORT_MAX : nat.

Definition run_op (o : op) (st : state) : state :=
  match o with
  | OpSetupPort port_idx h v => uni_mouse_quadrature_setup_port PORT_MAX port_idx h v st
  | OpStart port_idx => uni_mouse_quadrature_start PORT_MAX port_idx st
  | OpPause port_idx => uni_mouse_quadrature_pause PORT_MAX port_idx st
  | OpUpdate port_idx dx dy => uni_mouse_quadrature_update PORT_MAX port_idx dx dy st
  | OpSetScale scale o s c => uni_mouse_quadrature_set_scale_factor scale o s c st
  | OpTimerTask p enc => timer_task_step p enc st
  end.

(** States reached from [uni_mouse_quadrature_init] by operations that
    satisfy [ok]. *)
Inductive reachable (ok : op -> Prop) : state -> Prop :=
  | reach_init st0 open_ok get_ok :
      reachable ok (uni_mouse_quadrature_init PORT_MAX open_ok get_ok st0)
  | reach_step st o :
      reachable ok st -> op_typed o -> ok o -> reachable ok (run_op o st).

End Runs.

(** The stepper fired [n] times on one axis. *)
Fixpoint fire_n (n : nat) (q : quadrature_state) : quadrature_state :=
  match n with
  | O => q
  | S n => fire_n n (process_quadrature q).1.1
  end.

(** The quadrature table as the specification gives it. *)
Definition spec_phase_table : list (Z * Z) := [(0, 0); (1, 0); (1, 1); (0, 1)].

(** An axis whose counter is a value of its C type and whose phase is one
    of the four of the cycle. *)
Definition axis_ok (q : quadrature_state) : Prop :=
  Int32.in_range (value q) /\ 0 <= phase q <= 3.

(** Every axis of the state satisfies [P]. *)
Definition all_axes (P : quadrature_state -> Prop) (st : state) : Prop :=
  forall p enc q, get_q st p enc = Some q -> P q.

(** [R] relates every axis of [st] to the axis at the same place in [st']. *)
Definition axes_related (R : quadrature_state -> quadrature_state -> Prop)
    (st st' : state) : Prop :=
  forall p enc, option_Forall2 R (get_q st p enc) (get_q st' p enc).

(** A sample state: two ports, initialised, port 0 given the report
    (5, -3). *)
Definition sample_boot : state :=
  uni_mouse_quadrature_init 2 true true (mk_state [] [] 0 ∅ [] []).
Definition sample_state : state :=
  run_op 2 (OpUpdate 0 5 (-3)) sample_boot.

(** [st'] is [st] with one error line more on the console. *)
Definition logged_error_only (st st' : state) : Prop :=
  s_quadratures st' = s_quadratures st /\
  timer_started st' = timer_started st /\
  s_scale_factor st' = s_scale_factor st /\
  nvs st' = nvs st /\
  periph st' = periph st /\
  exists fmt args, console st' = console st ++ [loge fmt args].

(** The interval as the specification words it: [round (max_ticks / |d| * s)]
    with [max_ticks] = 128, then clamped to a minimum of one tick. *)
Definition spec_interval (scale : Z) (d : Z) : option Z :=
  let max_ticks := F32.of_int 128 in
  Z.max 1 <$>
    F32.to_u64 (F32.roundf (F32.mul (F32.div max_ticks (F32.of_int (Z.abs d)))
                                    (F32.of_bits scale))).

(** The value of the result with the exponent raised by one, unless it
    overflows. *)
Definition sf_double (x : spec_float) : spec_float :=
  match x with
  | S754_finite s m e =>
      if e + 1 <=? F32.emax - F32.prec then S754_finite s m (e + 1)
      else S754_infinity s
  | _ => x
  end.

(** ** Further notions *)

(** The arrays have the sizes they are declared with. *)
Definition arrays_sized (PORT_MAX : nat) (st : state) : Prop :=
  length (s_quadratures st) = PORT_MAX /\
  Forall (fun row => length row = UNI_MOUSE_QUADRATURE_ENCODER_MAX) (s_quadratures st) /\
  length (timer_started st) = PORT_MAX.

(** The operations applied in order. *)
Definition run_ops (PORT_MAX : nat) (ops : list op) (st : state) : state :=
  foldl (fun st o => run_op PORT_MAX o st) st ops.

(** Whether the timer [(group, idx)] counts after the calls [cs], made to
    timers that were paused: the last [timer_start] or [timer_pause] it
    received decides. *)
Definition timer_enabled (cs : list periph_call) (group idx : Z) : bool :=
  foldl (fun b c =>
           match c with
           | timer_start g i => if (g =? group) && (i =? idx) then true else b
           | timer_pause g i => if (g =? group) && (i =? idx) then false else b
           | _ => b
           end) false cs.

Definition timer_switch (c : periph_call) : bool :=
  match c with
  | timer_start _ _ | timer_pause _ _ => true
  | _ => false
  end.

(** The running flags agree with the timers: the arrays have their sizes,
    every axis has the timer it was given, and a timer counts exactly when
    the flag of its port is set. *)
Definition flags_coherent (PORT_MAX : nat) (st : state) : Prop :=
  arrays_sized PORT_MAX st /\
  (forall p enc q, get_q st p enc = Some q ->
     timer_group q = TIMER_GROUP_0 + Z.of_nat p /\
     timer_idx q = TIMER_0 + Z.of_nat enc) /\
  (forall p enc, (p < PORT_MAX)%nat -> (enc < UNI_MOUSE_QUADRATURE_ENCODER_MAX)%nat ->
     timer_enabled (periph st) (TIMER_GROUP_0 + Z.of_nat p) (TIMER_0 + Z.of_nat enc)
       = default false (timer_started st !! p)).

(** The driver calls of [n] firings of the stepper of one axis. *)
Fixpoint fire_calls (n : nat) (q : quadrature_state) : list periph_call :=
  match n with
  | O => []
  | S n => (process_quadrature q).1.2 ++ fire_calls n (process_quadrature q).1.1
  end.

Definition is_set_counter (c : periph_call) : bool :=
  match c with
  | timer_set_counter_value _ _ _ => true
  | _ => false
  end.

Definition not_set_scale (o : op) : Prop :=
  match o with
  | OpSetScale _ _ _ _ => False
  | _ => True
  end.

(** The products whose rounded value has no [uint64_t]: a NaN, +infinity,
    or a positive value that rounds to [2 ^ 64] or more. *)
Definition out_of_counter (x : spec_float) : Prop :=
  match x with
  | S754_nan => True
  | S754_infinity s => s = false
  | S754_finite s m e => s = false /\ 2 ^ 64 <= F32.round_mag m e
  | S754_zero _ => False
  end.

Definition is_logd (e : log_entry) : bool :=
  match e with
  | logd _ _ => true
  | _ => false
  end.

(** ** Timers and tasks *)

(** [uint32_t arg = (i << 16) | j]: the shift and the or are done on [int],
    the result is converted to 32 bits unsigned. *)
Definition timer_arg (i j : Z) : Z :=
  Z.lor (Int32.wrap (Z.shiftl i 16)) j mod 2 ^ 32.

(** [uint16_t port_idx = (a >> 16)] and [uint16_t encoder_idx = (a & 0xffff)]. *)
Definition port_of_arg (a : Z) : Z := Z.shiftr a 16 mod 2 ^ 16.
Definition encoder_of_arg (a : Z) : Z := Z.land a 0xffff mod 2 ^ 16.

(** One pass of the loop of [timer_task], once it has been notified. *)
Definition timer_task_body (arg : Z) (st : state) : state :=
  timer_task_step (Z.to_nat (port_of_arg arg)) (Z.to_nat (encoder_of_arg arg)) st.

Definition TIMER_DIVIDER : Z := 80 * 80.
Definition TASK_TIMER_STACK_SIZE : Z := 1536.
Definition TASK_TIMER_PRIO : Z := 10.

Inductive timer_count_dir_t : Set := TIMER_COUNT_DOWN | TIMER_COUNT_UP.
Inductive timer_start_t : Set := TIMER_PAUSE | TIMER_START.
Inductive timer_alarm_t : Set := TIMER_ALARM_DIS | TIMER_ALARM_EN.
Inductive timer_autoreload_t : Set := TIMER_AUTORELOAD_DIS | TIMER_AUTORELOAD_EN.

Record timer_config_t : Set := mk_timer_config {
  divider : Z;
  counter_dir : timer_count_dir_t;
  counter_en : timer_start_t;
  alarm_en : timer_alarm_t;
  auto_reload : timer_autoreload_t
}.

(** The configuration [init_from_cpu_task] gives every timer. *)
Definition config : timer_config_t :=
  mk_timer_config TIMER_DIVIDER TIMER_COUNT_DOWN TIMER_PAUSE TIMER_ALARM_EN
                  TIMER_AUTORELOAD_EN.

(** The calls [init_from_cpu_task] and [uni_mouse_quadrature_deinit] make,
    in order.  A task handle is a number; [None] is the [NULL] handle, which
    for [vTaskDelete] means the calling task. *)
Inductive sys_call : Set :=
  | sys_timer_init (group idx : Z) (cfg : timer_config_t)
  | sys_periph (c : periph_call)
  | sys_timer_isr_callback_add (group idx : Z) (arg : Z)
  | sys_task_create (name : string) (stack : Z) (arg : Z) (prio : Z)
                    (handle : option Z) (core : Z)
  | sys_timer_deinit (group idx : Z)
  | sys_task_delete (handle : option Z).

(** The module with its tasks: the state of the port operations, the array
    [s_timer_tasks], the live timer tasks (the argument each handle was
    created with), the number of tasks created so far, the notifications
    pending for each handle, and the calls made. *)
Record rtos : Type := mk_rtos {
  mem : state;
  s_timer_tasks : list (list (option Z));
  tasks : gmap Z Z;
  created : nat;
  notified : gmap Z nat;
  sys : list sys_call
}.

(** [s_timer_tasks[i][j]]; [None] also outside the array. *)
Definition get_task (r : rtos) (i j : nat) : option Z :=
  mjoin (s_timer_tasks r !! i ≫= (.!! j)).

Definition put_task (i j : nat) (h : option Z) (ts : list (list (option Z)))
  : list (list (option Z)) :=
  match ts !! i with
  | Some row => <[i := <[j := h]> row]> ts
  | None => ts
  end.

(** [sprintf(name, "bp.quad.timer%d%c", i, (j == 0) ? 'H' : 'V')]. *)
Definition task_name (i j : nat) : string :=
  "bp.quad.timer" +:+ pretty (Z.of_nat i) +:+ (if (j =? 0)%nat then "H" else "V").

(** The axes in the order of the two nested loops. *)
Definition axes (PORT_MAX : nat) : list (nat * nat) :=
  i ← seq 0 PORT_MAX; j ← seq 0 UNI_MOUSE_QUADRATURE_ENCODER_MAX; [(i, j)].

Section Tasks.

(** The handle the system gives to the [n]-th task created, whether
    [timer_init] succeeds on a timer, and whether the [n]-th creation of a
    task succeeds. *)
Variable new_handle : nat -> Z.
Variable timer_init_ok : Z -> Z -> bool.
Variable task_create_ok : nat -> bool.

(** The body of the loops of [init_from_cpu_task] for the axis [(i, j)];
    [None] when [ESP_ERROR_CHECK] aborts.  A creation that fails leaves
    [s_timer_tasks[i][j]] as it is, and its result is not looked at. *)
Definition init_axis (core : Z) (r : rtos) (ij : nat * nat) : option rtos :=
  let '(i, j) := ij in
  match get_q (mem r) i j with
  | None => Some r
  | Some q =>
      let arg := timer_arg (Z.of_nat i) (Z.of_nat j) in
      if negb (timer_init_ok (timer_group q) (timer_idx q)) then None
      else
        let h := new_handle (created r) in
        let calls (h : option Z) :=
          sys r ++
            [sys_timer_init (timer_group q) (timer_idx q) config;
             sys_periph (timer_set_counter_value (timer_group q) (timer_idx q)
                                                 (Some (ONE_SECOND * 60)));
             sys_timer_isr_callback_add (timer_group q) (timer_idx q) arg;
             sys_task_create (task_name i j) TASK_TIMER_STACK_SIZE arg
                             TASK_TIMER_PRIO h core] in
        if task_create_ok (created r)
        then Some (mk_rtos (mem r)
                     (put_task i j (Some h) (s_timer_tasks r))
                     (<[h := arg]> (tasks r))
                     (S (created r))
                     (notified r)
                     (calls (Some h)))
        else Some (mk_rtos (mem r) (s_timer_tasks r) (tasks r) (S (created r))
                     (notified r) (calls None))
  end.

(** [init_from_cpu_task], run on the core [core]: the loops, then the task
    deletes itself. *)
Definition init_from_cpu_task (PORT_MAX : nat) (core : Z) (r : rtos) : option rtos :=
  r ← foldl (fun acc ij => acc ≫= fun r => init_axis core r ij) (Some r)
            (axes PORT_MAX);
  Some (mk_rtos (mem r) (s_timer_tasks r) (tasks r) (created r) (notified r)
                (sys r ++ [sys_task_delete None])).

End Tasks.

(** The body of the loops of [uni_mouse_quadrature_deinit] for the axis
    [(i, j)].  The flag tells whether the caller is still alive:
    [vTaskDelete] of a [NULL] handle deletes the calling task, and nothing
    after it is executed. *)
Definition deinit_axis (ra : rtos * bool) (ij : nat * nat) : rtos * bool :=
  let '(r, alive) := ra in
  let '(i, j) := ij in
  if negb alive then ra
  else
    match get_q (mem r) i j with
    | None => ra
    | Some q =>
        let h := get_task r i j in
        let calls := sys r ++ [sys_timer_deinit (timer_group q) (timer_idx q);
                               sys_task_delete h] in
        match h with
        | None =>
            (mk_rtos (mem r) (s_timer_tasks r) (tasks r) (created r) (notified r) calls,
             false)
        | Some t =>
            (mk_rtos (mem r)
               (put_task i j None (s_timer_tasks r))
               (delete t (tasks r))
               (created r)
               (delete t (notified r))
               calls,
             true)
        end
    end.

Definition uni_mouse_quadrature_deinit (PORT_MAX : nat) (r : rtos) : rtos * bool :=
  foldl deinit_axis (r, true) (axes PORT_MAX).

(** [timer_handler]: the interrupt gives a notification to the task of the
    axis its argument names; [None] when that handle is [NULL]. *)
Definition timer_handler (arg : Z) (r : rtos) : option rtos :=
  match get_task r (Z.to_nat (port_of_arg arg)) (Z.to_nat (encoder_of_arg arg)) with
  | None => None
  | Some t =>
      Some (mk_rtos (mem r) (s_timer_tasks r) (tasks r) (created r)
                    (<[t := S (default O (notified r !! t))]> (notified r))
                    (sys r))
  end.

(** [timer_task], scheduled once: [ulTaskNotifyTake(true, portMAX_DELAY)]
    keeps the task blocked while nothing is pending and clears what is
    pending when it returns; then the axis of the argument is stepped. *)
Definition timer_task (t : Z) (r : rtos) : rtos :=
  match tasks r !! t with
  | None => r
  | Some arg =>
      match default O (notified r !! t) with
      | O => r
      | S _ =>
          mk_rtos (timer_task_body arg (mem r)) (s_timer_tasks r) (tasks r)
                  (created r) (<[t := O]> (notified r)) (sys r)
      end
  end.


(** The module before any task exists: the array of handles holds [NULL]
    only. *)
Definition boot_rtos (PORT_MAX : nat) (st : state) : rtos :=
  mk_rtos st (replicate PORT_MAX (replicate UNI_MOUSE_QUADRATURE_ENCODER_MAX None))
          ∅ 0 ∅ [].

(** Every axis has a live task, created with the argument of the axis. *)
Definition tasks_bound (PORT_MAX : nat) (r : rtos) : Prop :=
  forall i j, (i < PORT_MAX)%nat -> (j < UNI_MOUSE_QUADRATURE_ENCODER_MAX)%nat ->
    exists t, get_task r i j = Some t /\
              tasks r !! t = Some (timer_arg (Z.of_nat i) (Z.of_nat j)).

(** The array of handles has its declared size. *)
Definition tasks_sized (PORT_MAX : nat) (r : rtos) : Prop :=
  length (s_timer_tasks r) = PORT_MAX /\
  Forall (fun row => length row = UNI_MOUSE_QUADRATURE_ENCODER_MAX) (s_timer_tasks r).

(** The handles of the live tasks were given before the next one. *)
Definition handles_old (new_handle : nat -> Z) (r : rtos) : Prop :=
  forall t a, tasks r !! t = Some a ->
    exists n, (n < created r)%nat /\ t = new_handle n.

(** [n] alarms of the timer of one axis, none of them served. *)
Definition alarms (n : nat) (arg : Z) (r : rtos) : option rtos :=
  Nat.iter n (fun o => o ≫= timer_handler arg) (Some r).

(** A sample: two ports initialised, their four timer tasks created. *)
Definition sample_rtos : rtos :=
  mk_rtos sample_boot [[Some 10; Some 11]; [Some 12; Some 13]]
          {[ 10 := timer_arg 0 0; 11 := timer_arg 0 1;
             12 := timer_arg 1 0; 13 := timer_arg 1 1 ]}
          4 ∅ [].

(** * Properties *)

(** ** Machine integers *)

Lemma wrap_in_range z : Int32.in_range (Int32.wrap z).
Proof.
  unfold Int32.in_range, Int32.wrap, Int32.min_signed, Int32.max_signed.
  pose proof (Z.mod_pos_bound (z + 2 ^ 31) (2 ^ 32) ltac:(lia)). lia.
Qed.

Lemma wrap_small z : Int32.in_range z -> Int32.wrap z = z.
Proof.
  unfold Int32.in_range, Int32.wrap, Int32.min_signed, Int32.max_signed.
  intros Hz. rewrite Z.mod_small; lia.
Qed.

Lemma neg_small z :
  Int32.min_signed < z <= Int32.max_signed -> Int32.neg z = - z.
Proof.
  unfold Int32.neg, Int32.min_signed, Int32.max_signed. intros Hz.
  apply wrap_small. unfold Int32.in_range, Int32.min_signed, Int32.max_signed. lia.
Qed.

Lemma abs_delta_abs d :
  Int32.min_signed < d <= Int32.max_signed -> abs_delta d = Z.abs d.
Proof.
  intros Hd. unfold abs_delta. destruct (Z.ltb_spec d 0).
  - rewrite neg_small by done. lia.
  - lia.
Qed.

(** ** The stepper on one axis *)

Lemma step_phase_pos p :
  0 <= p <= 3 -> step_phase PHASE_DIRECTION_POS p = (p + 1) mod 4.
Proof.
  intros Hp. unfold step_phase, Int32.add.
  rewrite wrap_small by (unfold Int32.in_range, Int32.min_signed, Int32.max_signed; lia).
  assert (p = 0 \/ p = 1 \/ p = 2 \/ p = 3) as [-> | [-> | [-> | ->]]] by lia;
    reflexivity.
Qed.

Lemma step_phase_neg p :
  0 <= p <= 3 -> step_phase PHASE_DIRECTION_NEG p = (p - 1) mod 4.
Proof.
  intros Hp. unfold step_phase, Int32.sub.
  rewrite wrap_small by (unfold Int32.in_range, Int32.min_signed, Int32.max_signed; lia).
  assert (p = 0 \/ p = 1 \/ p = 2 \/ p = 3) as [-> | [-> | [-> | ->]]] by lia;
    reflexivity.
Qed.

Lemma step_phase_range d p : 0 <= p <= 3 -> 0 <= step_phase d p <= 3.
Proof.
  intros Hp. destruct d.
  - rewrite step_phase_neg by done.
    pose proof (Z.mod_pos_bound (p - 1) 4 ltac:(lia)). lia.
  - rewrite step_phase_pos by done.
    pose proof (Z.mod_pos_bound (p + 1) 4 ltac:(lia)). lia.
Qed.

Lemma phase_levels_table p :
  0 <= p <= 3 -> phase_levels p = spec_phase_table !! Z.to_nat p.
Proof.
  intros Hp.
  assert (p = 0 \/ p = 1 \/ p = 2 \/ p = 3) as [-> | [-> | [-> | ->]]] by lia;
    reflexivity.
Qed.

(** A firing with nothing left to do. *)
Lemma process_quadrature_idle q :
  value q <= 0 -> process_quadrature q = (q, [], []).
Proof.
  intros Hv. unfold process_quadrature.
  destruct (Z.leb_spec (value q) 0); [done | lia].
Qed.

(** A firing with steps left, on an axis whose phase is in range. *)
Lemma process_quadrature_step q :
  0 < value q -> axis_ok q ->
  exists a b,
    phase_levels (step_phase (dir q) (phase q)) = Some (a, b) /\
    process_quadrature q =
      (set_phase (step_phase (dir q) (phase q)) (set_value (value q - 1) q),
       [gpio_set_level (gpio_a (gpios q)) a; gpio_set_level (gpio_b (gpios q)) b],
       [logd "value: %d, quadrature phase: %d, a=%d, b=%d (%d,%d)"
             [LogInt (value q - 1); LogInt (step_phase (dir q) (phase q));
              LogInt a; LogInt b;
              LogInt (gpio_a (gpios q)); LogInt (gpio_b (gpios q))]]).
Proof.
  intros Hv [Hr Hp].
  pose proof (step_phase_range (dir q) (phase q) Hp) as Hs.
  unfold process_quadrature. destruct (Z.leb_spec (value q) 0); [lia |].
  cbn [set_value set_phase phase dir value gpios].
  unfold Int32.sub. rewrite wrap_small
    by (revert Hr; unfold Int32.in_range, Int32.min_signed, Int32.max_signed; lia).
  set (p' := step_phase (dir q) (phase q)) in *.
  assert (p' = 0 \/ p' = 1 \/ p' = 2 \/ p' = 3) as Hc by lia.
  destruct Hc as [-> | [-> | [-> | ->]]]; cbn; eauto.
Qed.

Lemma process_quadrature_ok q : axis_ok q -> axis_ok (process_quadrature q).1.1.
Proof.
  intros Hq. destruct (Z.le_gt_cases (value q) 0) as [Hv | Hv].
  - by rewrite process_quadrature_idle.
  - destruct (process_quadrature_step q ltac:(lia) Hq) as (a & b & _ & ->).
    destruct Hq as [Hr Hp]. split; cbn.
    + revert Hr. unfold Int32.in_range, Int32.min_signed, Int32.max_signed. lia.
    + by apply step_phase_range.
Qed.

Lemma fire_n_ok n q : axis_ok q -> axis_ok (fire_n n q).
Proof.
  revert q. induction n as [| n IH]; intros q Hq; cbn; [done |].
  by apply IH, process_quadrature_ok.
Qed.

(** What a firing does to the counter, whatever the phase. *)
Lemma process_quadrature_value q :
  Int32.in_range (value q) ->
  value (process_quadrature q).1.1 =
    if value q <=? 0 then value q else value q - 1.
Proof.
  intros Hr. unfold process_quadrature.
  destruct (Z.leb_spec (value q) 0); [done |].
  cbn [set_value set_phase phase dir value gpios].
  destruct (phase_levels _) as [[a b] |]; cbn;
    (apply wrap_small; revert Hr;
     unfold Int32.in_range, Int32.min_signed, Int32.max_signed; lia).
Qed.

Lemma fire_n_S n q :
  fire_n (S n) q = (process_quadrature (fire_n n q)).1.1.
Proof. revert q. induction n as [| n IH]; intros q; [done |]. cbn. apply IH. Qed.

(** The counter goes down by one per firing until it is exhausted. *)
Lemma fire_n_value n q :
  0 <= value q <= Int32.max_signed ->
  value (fire_n n q) = Z.max 0 (value q - Z.of_nat n).
Proof.
  intros Hv. induction n as [| n IH]; [cbn; lia |].
  rewrite fire_n_S, process_quadrature_value; rewrite IH.
  - destruct (Z.leb_spec (Z.max 0 (value q - Z.of_nat n)) 0); lia.
  - unfold Int32.in_range, Int32.min_signed, Int32.max_signed in *. lia.
Qed.

(** Four steps in one direction close the cycle. *)
Lemma step_phase_cycle d p :
  0 <= p <= 3 -> step_phase d (step_phase d (step_phase d (step_phase d p))) = p.
Proof.
  intros Hp.
  assert (p = 0 \/ p = 1 \/ p = 2 \/ p = 3) as [-> | [-> | [-> | ->]]] by lia;
    by destruct d.
Qed.

(** ** The array of axes *)

Lemma get_put_eq st p enc q q' :
  get_q st p enc = Some q -> get_q (put_q p enc q' st) p enc = Some q'.
Proof.
  unfold get_q, put_q. intros Hg.
  destruct (s_quadratures st !! p) as [row |] eqn:Hrow; [| done].
  cbn in Hg |- *.
  rewrite list_lookup_insert_eq by (by eapply lookup_lt_Some).
  cbn. rewrite list_lookup_insert_eq; [done |]. by eapply lookup_lt_Some.
Qed.

Lemma get_put_ne st p enc p' enc' q' :
  (p, enc) <> (p', enc') ->
  get_q (put_q p enc q' st) p' enc' = get_q st p' enc'.
Proof.
  unfold get_q, put_q. intros Hne.
  destruct (s_quadratures st !! p) as [row |] eqn:Hrow; [| done].
  cbn. destruct (decide (p = p')) as [<- | Hp].
  - rewrite list_lookup_insert_eq by (by eapply lookup_lt_Some).
    rewrite Hrow. cbn. rewrite list_lookup_insert_ne; [done | congruence].
  - by rewrite list_lookup_insert_ne.
Qed.

(** [put_q] writes the array of axes and nothing else. *)
Lemma put_q_frame p enc q st :
  timer_started (put_q p enc q st) = timer_started st /\
  s_scale_factor (put_q p enc q st) = s_scale_factor st /\
  nvs (put_q p enc q st) = nvs st /\
  periph (put_q p enc q st) = periph st /\
  console (put_q p enc q st) = console st.
Proof. unfold put_q. by destruct (s_quadratures st !! p). Qed.

Section AxesRelated.

Variable R : quadrature_state -> quadrature_state -> Prop.
Hypothesis R_refl : forall q, R q q.
Hypothesis R_trans : forall q1 q2 q3, R q1 q2 -> R q2 q3 -> R q1 q3.

Lemma axes_related_refl st : axes_related R st st.
Proof.
  intros p enc. destruct (get_q st p enc); constructor. apply R_refl.
Qed.

Lemma axes_related_trans st1 st2 st3 :
  axes_related R st1 st2 -> axes_related R st2 st3 -> axes_related R st1 st3.
Proof.
  intros H12 H23 p enc. specialize (H12 p enc). specialize (H23 p enc).
  destruct H12 as [q1 q2 H | ]; inversion H23; subst; constructor.
  by eapply R_trans.
Qed.

Lemma axes_related_same st st' :
  s_quadratures st' = s_quadratures st -> axes_related R st st'.
Proof.
  intros Heq p enc. unfold get_q. rewrite Heq.
  destruct (s_quadratures st !! p ≫= (.!! enc)); constructor. apply R_refl.
Qed.

Lemma axes_related_put st p enc q q' :
  get_q st p enc = Some q -> R q q' -> axes_related R st (put_q p enc q' st).
Proof.
  intros Hg HR p' enc'. destruct (decide ((p, enc) = (p', enc'))) as [[= <- <-] | Hne].
  - rewrite (get_put_eq _ _ _ _ _ Hg), Hg. by constructor.
  - rewrite get_put_ne by done.
    destruct (get_q st p' enc'); constructor. apply R_refl.
Qed.

(** The three ways an operation changes an axis. *)
Hypothesis R_gpios : forall q g, R q (set_gpios g q).
Hypothesis R_fire : forall q, R q (process_quadrature q).1.1.

Lemma axes_related_timer_task p enc st :
  axes_related R st (timer_task_step p enc st).
Proof.
  unfold timer_task_step. destruct (get_q st p enc) as [q |] eqn:Hg.
  - pose proof (R_fire q) as HR.
    destruct (process_quadrature q) as [[q' cs] ls]. cbn in HR.
    eapply axes_related_trans; [by eapply axes_related_put |].
    by apply axes_related_same.
  - apply axes_related_refl.
Qed.

Lemma axes_related_update_axis D p enc delta st :
  (forall scale q, D delta -> R q (process_update scale q delta).1) ->
  D delta -> axes_related R st (update_axis p enc delta st).
Proof.
  intros HR HD. unfold update_axis. destruct (get_q st p enc) as [q |] eqn:Hg.
  - specialize (HR (s_scale_factor st) q HD).
    destruct (process_update (s_scale_factor st) q delta) as [q' cs]. cbn in HR.
    eapply axes_related_trans; [by eapply axes_related_put |].
    by apply axes_related_same.
  - apply axes_related_refl.
Qed.

End AxesRelated.

(** ** Runs *)

Section RunFacts.

Variable PORT_MAX : nat.

Lemma get_q_init open_ok get_ok st0 p enc q :
  get_q (uni_mouse_quadrature_init PORT_MAX open_ok get_ok st0) p enc = Some q ->
  q = set_timer (TIMER_GROUP_0 + Z.of_nat p) (TIMER_0 + Z.of_nat enc) zero_quadrature.
Proof.
  unfold get_q, uni_mouse_quadrature_init.
  cbn [s_quadratures set_quadratures set_timer_started set_scale].
  rewrite list_lookup_fmap.
  destruct (seq 0 PORT_MAX !! p) as [i |] eqn:Hi; [| done].
  apply lookup_seq in Hi as [-> _]. rewrite Nat.add_0_l.
  cbn [fmap option_fmap option_map mbind option_bind]. unfold init_row.
  rewrite list_lookup_fmap.
  destruct (seq 0 UNI_MOUSE_QUADRATURE_ENCODER_MAX !! enc) as [j |] eqn:Hj; [| done].
  apply lookup_seq in Hj as [-> _]. cbn. congruence.
Qed.

Lemma get_q_init_valid open_ok get_ok st0 p enc :
  (p < PORT_MAX)%nat -> (enc < UNI_MOUSE_QUADRATURE_ENCODER_MAX)%nat ->
  get_q (uni_mouse_quadrature_init PORT_MAX open_ok get_ok st0) p enc =
    Some (set_timer (TIMER_GROUP_0 + Z.of_nat p) (TIMER_0 + Z.of_nat enc)
                    zero_quadrature).
Proof.
  intros Hp He. unfold get_q, uni_mouse_quadrature_init.
  cbn [s_quadratures set_quadratures set_timer_started set_scale].
  rewrite list_lookup_fmap, lookup_seq_lt by done.
  cbn [fmap option_fmap option_map mbind option_bind]. unfold init_row.
  by rewrite list_lookup_fmap, lookup_seq_lt by done.
Qed.

Variable R : quadrature_state -> quadrature_state -> Prop.
Variable D : Z -> Prop.
Hypothesis R_refl : forall q, R q q.
Hypothesis R_trans : forall q1 q2 q3, R q1 q2 -> R q2 q3 -> R q1 q3.
Hypothesis R_gpios : forall q g, R q (set_gpios g q).
Hypothesis R_fire : forall q, R q (process_quadrature q).1.1.
Hypothesis R_update :
  forall scale q delta, D delta -> R q (process_update scale q delta).1.

Lemma axes_related_setup_port port_idx h v st :
  axes_related R st (uni_mouse_quadrature_setup_port PORT_MAX port_idx h v st).
Proof.
  unfold uni_mouse_quadrature_setup_port.
  destruct (invalid_port PORT_MAX port_idx); [by apply axes_related_same |].
  set (p := Z.to_nat port_idx).
  assert (forall enc g s, axes_related R s
            match get_q s p enc with
            | Some q => put_q p enc (set_gpios g q) s
            | None => s
            end) as Hset.
  { intros enc g s. destruct (get_q s p enc) eqn:Hg.
    - by eapply axes_related_put.
    - by apply axes_related_refl. }
  eapply axes_related_trans; [done | apply Hset | apply Hset].
Qed.

Lemma axes_related_update port_idx dx dy st :
  D dx -> D (Int32.neg dy) ->
  axes_related R st (uni_mouse_quadrature_update PORT_MAX port_idx dx dy st).
Proof.
  intros Hdx Hdy. unfold uni_mouse_quadrature_update.
  destruct (invalid_port PORT_MAX port_idx); [by apply axes_related_same |].
  apply (axes_related_trans R R_trans) with
    (update_axis (Z.to_nat port_idx) UNI_MOUSE_QUADRATURE_ENCODER_H dx st);
    (apply (axes_related_update_axis R R_refl R_trans D);
     [intros scale q; apply R_update | done]).
Qed.

Lemma axes_related_run_op o st :
  match o with
  | OpUpdate _ dx dy => D dx /\ D (Int32.neg dy)
  | _ => True
  end ->
  axes_related R st (run_op PORT_MAX o st).
Proof.
  destruct o as [port_idx h v | port_idx | port_idx | port_idx dx dy
                | scale o s c | p enc]; cbn [run_op]; intros HD.
  - apply axes_related_setup_port.
  - unfold uni_mouse_quadrature_start.
    repeat case_match; by apply axes_related_same.
  - unfold uni_mouse_quadrature_pause.
    repeat case_match; by apply axes_related_same.
  - destruct HD. by apply axes_related_update.
  - unfold uni_mouse_quadrature_set_scale_factor.
    repeat case_match; by apply axes_related_same.
  - by apply axes_related_timer_task.
Qed.

End RunFacts.

(** ** Invariants of the reachable states *)

Lemma all_axes_related (P : quadrature_state -> Prop) st st' :
  axes_related (fun q q' => P q -> P q') st st' -> all_axes P st -> all_axes P st'.
Proof.
  intros Hrel Hall p enc q' Hg. specialize (Hrel p enc). rewrite Hg in Hrel.
  inversion Hrel as [q ? HP Hq |]; subst. apply HP. by apply (Hall p enc).
Qed.

Lemma reachable_all_axes PORT_MAX (ok : op -> Prop)
    (P : quadrature_state -> Prop) (D : Z -> Prop) :
  (forall g i, P (set_timer g i zero_quadrature)) ->
  (forall q g, P q -> P (set_gpios g q)) ->
  (forall q, P q -> P (process_quadrature q).1.1) ->
  (forall scale q delta, D delta -> P q -> P (process_update scale q delta).1) ->
  (forall port_idx dx dy,
     op_typed (OpUpdate port_idx dx dy) -> ok (OpUpdate port_idx dx dy) ->
     D dx /\ D (Int32.neg dy)) ->
  forall st, reachable PORT_MAX ok st -> all_axes P st.
Proof.
  intros Hinit Hgpios Hfire Hupd Hok st Hreach.
  induction Hreach as [st0 open_ok get_ok | st o Hreach IH Hty Ho].
  - intros p enc q Hg. apply get_q_init in Hg as ->. apply Hinit.
  - eapply all_axes_related; [| exact IH].
    apply (axes_related_run_op PORT_MAX _ D).
    + auto.
    + auto.
    + intros q g. apply Hgpios.
    + intros q. apply Hfire.
    + intros scale q delta HD. by apply Hupd.
    + destruct o as [| | | port_idx dx dy | |]; try done. by apply (Hok port_idx).
Qed.

Lemma process_update_ok scale q delta :
  Int32.in_range delta -> axis_ok q -> axis_ok (process_update scale q delta).1.
Proof.
  intros Hd [Hv Hp]. unfold process_update.
  destruct (Z.eqb_spec delta 0) as [-> | Hne]; cbn; [done |].
  split; cbn; [| done].
  destruct (delta <? 0); [apply wrap_in_range | done].
Qed.

(** In every reachable state the counters are C integers and the phases are
    within the cycle. *)
Lemma reachable_axis_ok PORT_MAX ok st :
  reachable PORT_MAX ok st -> all_axes axis_ok st.
Proof.
  apply (reachable_all_axes PORT_MAX ok axis_ok Int32.in_range).
  - intros g i. by split.
  - by intros q g [? ?].
  - apply process_quadrature_ok.
  - intros scale q delta. apply process_update_ok.
  - intros port_idx dx dy (_ & Hdx & _) _. split; [done | apply wrap_in_range].
Qed.

(** While steps remain, [n] firings step the phase [n] times in the
    direction of the burst and leave the direction alone. *)
Lemma fire_n_phase n q :
  axis_ok q -> Z.of_nat n <= value q ->
  phase (fire_n n q) = Nat.iter n (step_phase (dir q)) (phase q) /\
  dir (fire_n n q) = dir q.
Proof.
  revert q. induction n as [| n IH]; intros q Hq Hn; [done |].
  cbn [fire_n]. destruct (process_quadrature_step q ltac:(lia) Hq) as (a & b & _ & Heq).
  pose proof (process_quadrature_ok q Hq) as Hq'.
  rewrite Heq in Hq' |- *. cbn [fst] in Hq' |- *.
  destruct (IH _ Hq') as [-> ->]; [cbn; lia |]. cbn [dir phase set_phase set_value].
  split; [| done]. by rewrite Nat.iter_succ_r.
Qed.

Lemma sample_state_reachable ok :
  ok (OpUpdate 0 5 (-3)) -> reachable 2 ok sample_state.
Proof.
  intros Hok. apply reach_step; [apply reach_init | | done].
  unfold op_typed, Int32.in_range, Int32.min_signed, Int32.max_signed. lia.
Qed.

(** C1.  In a reachable state, a firing of the stepper of an axis that has
    steps left moves the phase by +1 modulo 4 when the direction is positive
    and by -1 modulo 4 when it is negative, and writes to the two pins of the
    axis, in this order, the levels the table 0->(0,0), 1->(1,0), 2->(1,1),
    3->(0,1) gives for the new phase; with four steps left, four firings
    bring the phase back to where it was. *)
Theorem C1_quadrature_sequence PORT_MAX ok st p enc q :
  reachable PORT_MAX ok st -> get_q st p enc = Some q -> 0 < value q ->
  let ph' := match dir q with
             | PHASE_DIRECTION_POS => (phase q + 1) mod 4
             | PHASE_DIRECTION_NEG => (phase q - 1) mod 4
             end in
  let st' := timer_task_step p enc st in
  exists a b q',
    spec_phase_table !! Z.to_nat ph' = Some (a, b) /\
    get_q st' p enc = Some q' /\ phase q' = ph' /\
    periph st' = periph st ++ [gpio_set_level (gpio_a (gpios q)) a;
                               gpio_set_level (gpio_b (gpios q)) b] /\
    (4 <= value q -> phase (fire_n 4 q) = phase q).
Proof.
  intros Hreach Hg Hv ph' st'.
  pose proof (reachable_axis_ok _ _ _ Hreach p enc q Hg) as Hq.
  destruct (process_quadrature_step q Hv Hq) as (a & b & Hlv & Heq).
  assert (step_phase (dir q) (phase q) = ph') as Hph.
  { destruct Hq as [_ Hp]. subst ph'.
    destruct (dir q); [by apply step_phase_neg | by apply step_phase_pos]. }
  rewrite Hph in Hlv, Heq.
  exists a, b, (set_phase ph' (set_value (value q - 1) q)).
  subst st'. unfold timer_task_step. rewrite Hg, Heq.
  split; [| split; [| split; [| split]]].
  - rewrite <- Hlv. symmetry. apply phase_levels_table.
    rewrite <- Hph. apply step_phase_range, Hq.
  - cbn. unfold get_q. cbn. fold (get_q (put_q p enc (set_phase ph' (set_value (value q - 1) q)) st) p enc).
    by eapply get_put_eq.
  - done.
  - cbn. by rewrite (proj1 (proj2 (proj2 (proj2 (put_q_frame _ _ _ _))))).
  - intros H4. destruct (fire_n_phase 4 q Hq ltac:(lia)) as [-> _].
    cbn. apply step_phase_cycle, Hq.
Qed.

Lemma C1_quadrature_sequence_witness :
  exists a b q',
    spec_phase_table !! Z.to_nat 1 = Some (a, b) /\
    get_q (timer_task_step 0 0 sample_state) 0 0 = Some q' /\ phase q' = 1 /\
    periph (timer_task_step 0 0 sample_state) =
      periph sample_state ++ [gpio_set_level 0 a; gpio_set_level 0 b] /\
    (4 <= 5 -> phase (fire_n 4 (mk_quadrature 0 PHASE_DIRECTION_POS 5 0 0 0 (mk_gpios 0 0))) = 0).
Proof.
  apply (C1_quadrature_sequence 2 (fun _ => True) sample_state 0 0
           (mk_quadrature 0 PHASE_DIRECTION_POS 5 0 0 0 (mk_gpios 0 0))).
  - by apply sample_state_reachable.
  - reflexivity.
  - cbn. lia.
Defined.

(** ** Bursts *)

Lemma process_update_fields scale q delta :
  delta <> 0 ->
  (process_update scale q delta).1 =
    set_dir (if delta <? 0 then PHASE_DIRECTION_NEG else PHASE_DIRECTION_POS)
            (set_value (abs_delta delta) q).
Proof.
  intros Hne. unfold process_update.
  by destruct (Z.eqb_spec delta 0).
Qed.

Lemma process_update_call scale q delta :
  (process_update scale q delta).2 =
    [timer_set_counter_value (timer_group q) (timer_idx q) (interval scale delta)].
Proof.
  unfold process_update, interval. by destruct (Z.eqb_spec delta 0).
Qed.

Lemma process_update_zero scale q :
  process_update scale q 0 =
    (q, [timer_set_counter_value (timer_group q) (timer_idx q)
                                 (Some (60 * ONE_SECOND))]).
Proof. reflexivity. Qed.

Lemma process_update_phase scale q delta :
  phase (process_update scale q delta).1 = phase q.
Proof. unfold process_update. by destruct (Z.eqb_spec delta 0). Qed.

(** C2, the failing input.  For the delta [INT32_MIN] the negation wraps
    around to [INT32_MIN] itself: after the report (INT32_MIN, 0) the counter
    of the horizontal axis is -2147483648, which is not [|d|], the direction
    is negative, and a firing finds nothing to do. *)
Theorem C2_int32_min_delta :
  get_q (uni_mouse_quadrature_update 2 0 (-2147483648) 0 sample_boot) 0 0
    = Some (mk_quadrature 0 PHASE_DIRECTION_NEG (-2147483648) 0 0 0 (mk_gpios 0 0)) /\
  -2147483648 <> Z.abs (-2147483648) /\
  process_quadrature
    (mk_quadrature 0 PHASE_DIRECTION_NEG (-2147483648) 0 0 0 (mk_gpios 0 0))
    = (mk_quadrature 0 PHASE_DIRECTION_NEG (-2147483648) 0 0 0 (mk_gpios 0 0), [], []).
Proof. split; [vm_compute; reflexivity | split; [lia | reflexivity]]. Qed.

(** C2 for every other delta.  For every non-zero delta [d] other than
    [INT32_MIN],
    right after the update the counter of the axis is [|d|] and its
    direction is negative exactly when [d < 0]; every later firing that
    finds the counter positive lowers it by exactly 1, after [n] firings it
    is [max 0 (|d| - n)], and once it is 0 a firing changes nothing of the
    axis and calls no driver. *)
Theorem C2_burst_countdown scale q d :
  Int32.min_signed < d <= Int32.max_signed -> d <> 0 ->
  let q1 := (process_update scale q d).1 in
  value q1 = Z.abs d /\
  (dir q1 = PHASE_DIRECTION_NEG <-> d < 0) /\
  (forall n, value (fire_n n q1) = Z.max 0 (Z.abs d - Z.of_nat n)) /\
  (forall n, 0 < value (fire_n n q1) ->
             value (fire_n (S n) q1) = value (fire_n n q1) - 1) /\
  (forall n, value (fire_n n q1) = 0 ->
             process_quadrature (fire_n n q1) = (fire_n n q1, [], [])).
Proof.
  intros Hd Hne q1.
  assert (value q1 = Z.abs d) as Hv.
  { subst q1. rewrite process_update_fields by done. cbn.
    by apply abs_delta_abs. }
  assert (0 <= value q1 <= Int32.max_signed) as Hr.
  { rewrite Hv. revert Hd. unfold Int32.min_signed, Int32.max_signed. lia. }
  assert (forall n, value (fire_n n q1) = Z.max 0 (Z.abs d - Z.of_nat n)) as Hn.
  { intros n. by rewrite fire_n_value, Hv. }
  split; [done |]. split; [| split; [done | split]].
  - subst q1. rewrite process_update_fields by done. cbn.
    destruct (Z.ltb_spec d 0); split; (done || lia).
  - intros n Hpos. rewrite fire_n_S, process_quadrature_value.
    + destruct (Z.leb_spec (value (fire_n n q1)) 0); [lia | done].
    + rewrite Hn. revert Hr. rewrite Hv.
      unfold Int32.in_range, Int32.min_signed, Int32.max_signed. lia.
  - intros n H0. apply process_quadrature_idle. lia.
Qed.

Lemma C2_burst_countdown_witness :
  let q1 := (process_update F32.one_bits zero_quadrature (-3)).1 in
  value q1 = Z.abs (-3) /\
  (dir q1 = PHASE_DIRECTION_NEG <-> -3 < 0) /\
  (forall n, value (fire_n n q1) = Z.max 0 (Z.abs (-3) - Z.of_nat n)) /\
  (forall n, 0 < value (fire_n n q1) ->
             value (fire_n (S n) q1) = value (fire_n n q1) - 1) /\
  (forall n, value (fire_n n q1) = 0 ->
             process_quadrature (fire_n n q1) = (fire_n n q1, [], [])).
Proof.
  apply (C2_burst_countdown F32.one_bits zero_quadrature (-3)).
  - unfold Int32.min_signed, Int32.max_signed. lia.
  - lia.
Defined.

(** ** The rate converter *)

Lemma binary_round_aux_sign_clear m e l :
  F32.sign_clear (binary_round_aux F32.prec F32.emax false m e l) = true.
Proof.
  unfold binary_round_aux.
  destruct (shr_fexp _ _ m e l) as [mrs' e'].
  destruct (shr_fexp _ _ _ e' loc_Exact) as [mrs'' e''].
  destruct (shr_m mrs'') as [| p | p]; [done | | done].
  by destruct (e'' <=? F32.emax - F32.prec).
Qed.

Lemma of_int_sign_clear z : 0 <= z -> F32.sign_clear (F32.of_int z) = true.
Proof.
  intros Hz. unfold F32.of_int, binary_normalize.
  destruct z as [| p | p]; [done | | lia].
  unfold binary_round. destruct (shl_align _ _ _) as [mz ez].
  apply binary_round_aux_sign_clear.
Qed.

Lemma div_sign_clear x y :
  F32.sign_clear x = true -> F32.sign_clear y = true ->
  F32.sign_clear (F32.div x y) = true.
Proof.
  destruct x as [[] | [] | | [] mx ex], y as [[] | [] | | [] my ey]; try done.
  intros _ _. unfold F32.div, SFdiv.
  destruct (SFdiv_core_binary _ _ _ _ _ _) as [[mz ez] lz].
  apply binary_round_aux_sign_clear.
Qed.

Lemma mul_sign_clear x y :
  F32.sign_clear x = true -> F32.sign_clear y = true ->
  F32.sign_clear (F32.mul x y) = true.
Proof.
  destruct x as [[] | [] | | [] mx ex], y as [[] | [] | | [] my ey]; try done.
  intros _ _. apply binary_round_aux_sign_clear.
Qed.

Lemma positive_sign_clear w : F32.positive w -> F32.sign_clear (F32.of_bits w) = true.
Proof.
  unfold F32.positive, F32.ltb. destruct (F32.of_bits w) as [[] | [] | | [] m e]; try done.
Qed.

Lemma of_int_one : F32.of_int TICKS_PER_80US = S754_finite false 8388608 (-23).
Proof. reflexivity. Qed.

Lemma ltb_one_finite m e :
  F32.ltb (S754_finite false m e) (F32.of_int TICKS_PER_80US) = true <->
  e < 0 /\ Zpos m < 2 ^ (- e).
Proof.
  rewrite of_int_one. unfold F32.ltb, F32.compare, F32.cmp_finite.
  cbn [cond_Zopp].
  destruct (Z.compare_spec (Z.pos m * 2 ^ (e - Z.min e (-23)))
                           (8388608 * 2 ^ (-23 - Z.min e (-23)))) as [Heq | Hlt | Hgt].
  all: change 8388608 with (2 ^ 23) in *.
  all: destruct (Z.le_gt_cases e (-23)) as [Hle | Hgt'].
  all: try (rewrite Z.min_l in * by lia).
  all: try (rewrite Z.min_r in * by lia).
  all: try rewrite Z.sub_diag in *; try rewrite Z.pow_0_r in *.
  all: try rewrite <- Z.pow_add_r in * by lia.
  all: try replace (23 + (-23 - e)) with (- e) in * by lia.
  all: try replace (-23 - -23) with 0 in * by lia.
  all: try rewrite Z.pow_0_r in *.
  all: split; try done; try lia.
  - intros [He Hm].
    assert (2 ^ 23 = 2 ^ (e - -23) * 2 ^ (- e)) as Hp
      by (rewrite <- Z.pow_add_r by lia; f_equal; lia).
    pose proof (Z.pow_pos_nonneg 2 (e - -23) ltac:(lia) ltac:(lia)). nia.
  - intros _. destruct (Z.le_gt_cases 0 e) as [H0 | H0].
    + exfalso.
      assert (2 ^ 23 <= 2 ^ (e - -23)) by (apply Z.pow_le_mono_r; lia). nia.
    + split; [done |].
      assert (2 ^ 23 = 2 ^ (e - -23) * 2 ^ (- e)) as Hp
        by (rewrite <- Z.pow_add_r by lia; f_equal; lia).
      pose proof (Z.pow_pos_nonneg 2 (e - -23) ltac:(lia) ltac:(lia)). nia.
  - intros [He Hm].
    assert (2 ^ 23 = 2 ^ (e - -23) * 2 ^ (- e)) as Hp
      by (rewrite <- Z.pow_add_r by lia; f_equal; lia).
    pose proof (Z.pow_pos_nonneg 2 (e - -23) ltac:(lia) ltac:(lia)). nia.
Qed.

Lemma round_mag_nonneg m e : 0 <= F32.round_mag m e.
Proof.
  unfold F32.round_mag. destruct (0 <=? e) eqn:He.
  - apply Z.leb_le in He. pose proof (Z.pow_pos_nonneg 2 e ltac:(lia) He). lia.
  - apply Z.leb_gt in He. apply Z.div_pos.
    + pose proof (Z.pow_nonneg 2 (- e - 1) ltac:(lia)). lia.
    + apply Z.pow_pos_nonneg; lia.
Qed.

(** [roundf] followed by the conversion, on a positive finite value. *)
Lemma to_u64_roundf_finite m e :
  F32.to_u64 (F32.roundf (S754_finite false m e)) =
    if F32.round_mag m e <? 2 ^ 64 then Some (F32.round_mag m e) else None.
Proof.
  pose proof (round_mag_nonneg m e) as Hnn. revert Hnn.
  unfold F32.roundf, F32.round_mag. destruct (0 <=? e) eqn:He.
  - intros _. cbn. unfold F32.trunc_mag. by rewrite He.
  - intros Hnn. destruct ((Z.pos m + 2 ^ (- e - 1)) / 2 ^ (- e)) as [| n | n];
      [done | | lia].
    cbn. unfold F32.trunc_mag. cbn [Z.leb Z.compare]. by rewrite Z.mul_1_r.
Qed.

Lemma round_mag_below_one m e :
  e < 0 -> Zpos m < 2 ^ (- e) -> 0 <= F32.round_mag m e <= 1.
Proof.
  intros He Hm. unfold F32.round_mag.
  destruct (Z.leb_spec 0 e); [lia |].
  assert (2 ^ (- e) = 2 * 2 ^ (- e - 1)) as Hp.
  { rewrite <- Z.pow_succ_r by lia. f_equal. lia. }
  pose proof (Z.pow_pos_nonneg 2 (- e - 1) ltac:(lia) ltac:(lia)).
  split.
  - apply Z.div_pos; lia.
  - apply Z.lt_succ_r. apply Z.div_lt_upper_bound; lia.
Qed.

Lemma round_mag_above_one m e :
  ~ (e < 0 /\ Zpos m < 2 ^ (- e)) -> 1 <= F32.round_mag m e.
Proof.
  intros Hn. unfold F32.round_mag. destruct (Z.leb_spec 0 e).
  - pose proof (Z.pow_pos_nonneg 2 e ltac:(lia) ltac:(lia)). nia.
  - pose proof (Z.pow_pos_nonneg 2 (- e) ltac:(lia) ltac:(lia)).
    pose proof (Z.pow_nonneg 2 (- e - 1) ltac:(lia)).
    apply Z.div_le_lower_bound; lia.
Qed.

(** Clamping before rounding is rounding and then clamping. *)
Lemma units_of_clamp_round x :
  F32.sign_clear x = true ->
  units_of x = Z.max 1 <$> F32.to_u64 (F32.roundf x).
Proof.
  unfold units_of. destruct x as [[] | [] | | [] m e]; try done. intros _.
  destruct (F32.ltb (S754_finite false m e) (F32.of_int TICKS_PER_80US)) eqn:Hlt.
  - apply ltb_one_finite in Hlt as [He Hm].
    pose proof (round_mag_below_one m e He Hm) as Hr.
    rewrite to_u64_roundf_finite.
    destruct (Z.ltb_spec (F32.round_mag m e) (2 ^ 64)); [| lia].
    rewrite of_int_one. change (F32.to_u64 (F32.roundf (S754_finite false 8388608 (-23)))) with (Some 1).
    cbn. f_equal. lia.
  - assert (~ (e < 0 /\ Zpos m < 2 ^ (- e))) as Hn.
    { rewrite <- ltb_one_finite. by rewrite Hlt. }
    pose proof (round_mag_above_one m e Hn) as Hr.
    rewrite to_u64_roundf_finite.
    destruct (F32.round_mag m e <? 2 ^ 64); [| done]. cbn. f_equal. lia.
Qed.

Lemma units_f_sign_clear a scale :
  0 <= a -> F32.positive scale -> F32.sign_clear (units_f a scale) = true.
Proof.
  intros Ha Hs. unfold units_f. apply mul_sign_clear.
  - apply div_sign_clear; by apply of_int_sign_clear.
  - by apply positive_sign_clear.
Qed.

(** With the default scale 1.0 and a delta of the normalized range the
    interval is 128 / |d| rounded to the nearest tick. *)
Lemma interval_normalized d :
  1 <= Z.abs d <= 127 ->
  interval F32.one_bits d = Some ((256 + Z.abs d) / (2 * Z.abs d)).
Proof.
  intros Hd.
  assert (forallb (fun n =>
            let a := Z.of_nat n in
            bool_decide (interval F32.one_bits a = Some ((256 + a) / (2 * a))) &&
            bool_decide (interval F32.one_bits (- a) = Some ((256 + a) / (2 * a))))
            (seq 1 127) = true) as Hall by (vm_compute; reflexivity).
  rewrite forallb_forall in Hall.
  specialize (Hall (Z.to_nat (Z.abs d))). cbv zeta in Hall.
  rewrite Z2Nat.id in Hall by lia.
  apply andb_true_iff in Hall as [Hpos Hneg]; [| apply in_seq; lia].
  apply bool_decide_eq_true in Hpos, Hneg.
  destruct (Z.abs_spec d) as [[_ Heq] | [_ Heq]]; rewrite Heq in *; [done |].
  by rewrite Z.opp_involutive in Hneg.
Qed.

(** The claim fails as stated.  With the largest finite scale the product
    128 / 1 * s overflows to infinity, and no counter value is defined, let
    alone one of at least a tick; and for the delta [INT32_MIN] with the
    scale 2^25 the magnitude the code divides by is negative, the product is
    clamped to one tick, and the formula gives two. *)
Lemma C3_counterexample :
  (F32.positive 0x7F7FFFFF /\ interval 0x7F7FFFFF 1 = None) /\
  (F32.positive 0x4C000000 /\
   interval 0x4C000000 (-2147483648) = Some 1 /\
   spec_interval 0x4C000000 (-2147483648) = Some 2).
Proof. by vm_compute. Qed.

(** C3 (amended).  For every delta [d] other than 0 and [INT32_MIN] and
    every scale [s > 0], the counter value programmed is the one the
    formula [round (128 / |d| * s)], clamped to a minimum of one tick,
    gives, both computed in single precision; it is defined, and then at
    least one tick, exactly when the rounded product fits the 64-bit
    counter.  With the scale 1.0 the report (64, 0) programs 2 ticks on the
    horizontal timer (and the idle interval on the vertical one) and leaves
    64 steps in the positive direction. *)
Theorem C3_interval_formula scale d :
  Int32.min_signed < d <= Int32.max_signed -> d <> 0 -> F32.positive scale ->
  interval scale d = spec_interval scale d /\
  (forall q, (process_update scale q d).2 =
     [timer_set_counter_value (timer_group q) (timer_idx q) (spec_interval scale d)]) /\
  (forall u, interval scale d = Some u -> 1 <= u) /\
  (forall r, F32.to_u64 (F32.roundf (units_f (Z.abs d) scale)) = Some r ->
             interval scale d = Some (Z.max 1 r)) /\
  interval F32.one_bits 64 = Some 2 /\
  periph (uni_mouse_quadrature_update 2 0 64 0 sample_boot) =
    [timer_set_counter_value 0 0 (Some 2); timer_set_counter_value 0 1 (Some 750000)] /\
  get_q (uni_mouse_quadrature_update 2 0 64 0 sample_boot) 0 0 =
    Some (mk_quadrature 0 PHASE_DIRECTION_POS 64 0 0 0 (mk_gpios 0 0)).
Proof.
  intros Hd Hne Hs.
  assert (interval scale d = spec_interval scale d) as Heq.
  { unfold interval, spec_interval. destruct (Z.eqb_spec d 0); [done |].
    rewrite abs_delta_abs by done.
    rewrite units_of_clamp_round by (apply units_f_sign_clear; [lia | done]).
    reflexivity. }
  split; [done |]. split; [| split; [| split; [| split; [| split]]]].
  - intros q. by rewrite process_update_call, Heq.
  - rewrite Heq. unfold spec_interval. intros u Hu.
    apply fmap_Some in Hu as (r & _ & ->). lia.
  - intros r Hr. rewrite Heq. unfold spec_interval.
    change (F32.mul _ _) with (units_f (Z.abs d) scale). by rewrite Hr.
  - by vm_compute.
  - by vm_compute.
  - by vm_compute.
Qed.

Lemma C3_interval_formula_witness :
  interval F32.one_bits (-3) = spec_interval F32.one_bits (-3) /\
  (forall q, (process_update F32.one_bits q (-3)).2 =
     [timer_set_counter_value (timer_group q) (timer_idx q)
                              (spec_interval F32.one_bits (-3))]) /\
  (forall u, interval F32.one_bits (-3) = Some u -> 1 <= u) /\
  (forall r, F32.to_u64 (F32.roundf (units_f (Z.abs (-3)) F32.one_bits)) = Some r ->
             interval F32.one_bits (-3) = Some (Z.max 1 r)) /\
  interval F32.one_bits 64 = Some 2 /\
  periph (uni_mouse_quadrature_update 2 0 64 0 sample_boot) =
    [timer_set_counter_value 0 0 (Some 2); timer_set_counter_value 0 1 (Some 750000)] /\
  get_q (uni_mouse_quadrature_update 2 0 64 0 sample_boot) 0 0 =
    Some (mk_quadrature 0 PHASE_DIRECTION_POS 64 0 0 0 (mk_gpios 0 0)).
Proof.
  apply (C3_interval_formula F32.one_bits (-3)).
  - unfold Int32.min_signed, Int32.max_signed. lia.
  - lia.
  - reflexivity.
Defined.

(** ** Doubling the scale *)

(** *** Digits *)

Lemma digits2_pos_size p : digits2_pos p = Pos.size p.
Proof. induction p as [p IH | p IH |]; cbn; by rewrite ?IH. Qed.

Lemma digits2_bounds p :
  2 ^ (Zpos (digits2_pos p) - 1) <= Zpos p < 2 ^ Zpos (digits2_pos p).
Proof.
  rewrite digits2_pos_size. split.
  - pose proof (Pos.size_le p) as H.
    apply Pos2Z.pos_le_pos in H. rewrite Pos2Z.inj_pow in H.
    change (Z.pos p~0) with (2 * Z.pos p) in H.
    replace (Z.pos (Pos.size p)) with (Z.succ (Z.pos (Pos.size p) - 1)) in H by lia.
    rewrite Z.pow_succ_r in H by lia. lia.
  - pose proof (Pos.size_gt p) as H.
    apply Pos2Z.pos_lt_pos in H. by rewrite Pos2Z.inj_pow in H.
Qed.

Lemma digits2_le p k : Zpos p < 2 ^ k -> Zpos (digits2_pos p) <= k.
Proof.
  intros Hp. destruct (digits2_bounds p) as [Hlo _].
  destruct (Z.le_gt_cases (Zpos (digits2_pos p)) k) as [| Hgt]; [done |].
  assert (2 ^ k <= 2 ^ (Z.pos (digits2_pos p) - 1)); [| lia].
  apply Z.pow_le_mono_r; lia.
Qed.

Lemma digits2_unique p k :
  2 ^ (k - 1) <= Zpos p < 2 ^ k -> Zpos (digits2_pos p) = k.
Proof.
  intros [Hlo Hhi]. pose proof (digits2_le p k Hhi).
  destruct (digits2_bounds p) as [_ Hup].
  destruct (Z.le_gt_cases k (Zpos (digits2_pos p))) as [| Hgt]; [lia |].
  assert (2 ^ Z.pos (digits2_pos p) <= 2 ^ (k - 1)); [| lia].
  apply Z.pow_le_mono_r; lia.
Qed.

(** *** Right shifts *)

Lemma iter_pos_ind {A} (f : A -> A) (P : Z -> A -> Prop) :
  (forall k x, 0 <= k -> P k x -> P (k + 1) (f x)) ->
  forall p k x, 0 <= k -> P k x -> P (k + Zpos p) (SpecFloat.iter_pos f p x).
Proof.
  intros Hstep. induction p as [p IH | p IH |]; intros k x Hk HP; cbn [SpecFloat.iter_pos].
  - replace (k + Z.pos p~1) with (k + 1 + Z.pos p + Z.pos p) by lia.
    apply IH; [lia |]. apply IH; [lia |]. by apply Hstep.
  - replace (k + Z.pos p~0) with (k + Z.pos p + Z.pos p) by lia.
    apply IH; [lia |]. by apply IH.
  - by apply Hstep.
Qed.

Lemma shr_1_m mrs : 0 <= shr_m mrs -> shr_m (shr_1 mrs) = shr_m mrs / 2.
Proof.
  destruct mrs as [m r s]. cbn [shr_m]. intros Hm.
  destruct m as [| [p | p |] | p]; cbn [shr_1 shr_m]; try done; try lia.
  - rewrite Pos2Z.inj_xI. apply (Z.div_unique _ _ _ 1); lia.
  - rewrite Pos2Z.inj_xO. apply (Z.div_unique _ _ _ 0); lia.
Qed.

(** The mantissa after [n] shifts is the quotient by [2 ^ n]. *)
Lemma iter_shr_m n mrs :
  0 <= shr_m mrs ->
  shr_m (SpecFloat.iter_pos shr_1 n mrs) = shr_m mrs / 2 ^ Zpos n.
Proof.
  intros Hm.
  pose proof (iter_pos_ind shr_1
                (fun k x => shr_m x = shr_m mrs / 2 ^ k)) as Hind.
  cbn beta in Hind. rewrite <- (Z.add_0_l (Z.pos n)). apply Hind; [| done |].
  - intros k x Hk Hx. rewrite shr_1_m.
    + rewrite Hx, Z.pow_add_r, Z.pow_1_r by lia.
      rewrite Z.div_div; [done | | lia]. apply Z.pow_nonzero; lia.
    + rewrite Hx. apply Z.div_pos; [done |]. apply Z.pow_pos_nonneg; lia.
  - by rewrite Z.pow_0_r, Z.div_1_r.
Qed.

(** Shifting out [n] zero bits is exact. *)
Lemma iter_shr_exact n m :
  0 < m ->
  SpecFloat.iter_pos shr_1 n (Build_shr_record (m * 2 ^ Zpos n) false false)
    = Build_shr_record m false false.
Proof.
  intros Hm.
  pose proof (iter_pos_ind shr_1
                (fun k x => k <= Zpos n ->
                            x = Build_shr_record (m * 2 ^ (Zpos n - k)) false false))
    as Hind.
  cbn beta in Hind.
  assert (forall k x, 0 <= k ->
            (k <= Z.pos n ->
             x = Build_shr_record (m * 2 ^ (Z.pos n - k)) false false) ->
            k + 1 <= Z.pos n ->
            shr_1 x = Build_shr_record (m * 2 ^ (Z.pos n - (k + 1))) false false)
    as Hstep.
  { intros k x Hk Hx Hle. rewrite Hx by lia.
    replace (Z.pos n - k) with (Z.succ (Z.pos n - (k + 1))) by lia.
    rewrite Z.pow_succ_r by lia.
    pose proof (Z.pow_pos_nonneg 2 (Z.pos n - (k + 1)) ltac:(lia) ltac:(lia)) as Hp.
    destruct (m * 2 ^ (Z.pos n - (k + 1))) as [| q | q] eqn:Hq; [nia | | nia].
    replace (m * (2 * 2 ^ (Z.pos n - (k + 1)))) with (Zpos (xO q)) by lia.
    reflexivity. }
  specialize (Hind Hstep n 0 (Build_shr_record (m * 2 ^ Zpos n) false false)
                   ltac:(lia)).
  rewrite Z.add_0_l, Z.sub_diag, Z.pow_0_r, Z.mul_1_r in Hind.
  apply Hind; [| lia]. intros _. by rewrite Z.sub_0_r.
Qed.

(** *** Rounding to single precision *)

Lemma fexp32 e : fexp F32.prec F32.emax e = Z.max (e - 24) (-149).
Proof. reflexivity. Qed.

(** The exponent a shift leaves is never below the least exponent. *)
Lemma shr_fexp_exponent m e l :
  -149 <= e \/ 0 < fexp F32.prec F32.emax (Zdigits2 m + e) - e ->
  -149 <= (shr_fexp F32.prec F32.emax m e l).2.
Proof.
  unfold shr_fexp, shr. rewrite fexp32. intros H.
  destruct (Z.max (Zdigits2 m + e - 24) (-149) - e) as [| p | p] eqn:Hn; cbn; lia.
Qed.

(** Away from the subnormal range, the shift does not depend on the
    exponent. *)
Lemma shr_fexp_succ m e l :
  -149 <= Zdigits2 m + e - 24 \/ -149 <= e ->
  shr_fexp F32.prec F32.emax m (e + 1) l =
    ((shr_fexp F32.prec F32.emax m e l).1, (shr_fexp F32.prec F32.emax m e l).2 + 1).
Proof.
  intros H. unfold shr_fexp, shr. rewrite !fexp32.
  destruct (Z.le_gt_cases (-149) (Zdigits2 m + e - 24)) as [Hn | Hs].
  - replace (Z.max (Zdigits2 m + (e + 1) - 24) (-149) - (e + 1))
      with (Zdigits2 m - 24) by lia.
    replace (Z.max (Zdigits2 m + e - 24) (-149) - e) with (Zdigits2 m - 24) by lia.
    destruct (Zdigits2 m - 24); cbn; f_equal; lia.
  - destruct (Z.max (Zdigits2 m + (e + 1) - 24) (-149) - (e + 1)) eqn:H1; try lia;
    destruct (Z.max (Zdigits2 m + e - 24) (-149) - e) eqn:H2; try lia; done.
Qed.

Lemma binary_round_aux_succ sx m e :
  -149 <= Zdigits2 m + e - 24 \/ -149 <= e ->
  binary_round_aux F32.prec F32.emax sx m (e + 1) loc_Exact =
    sf_double (binary_round_aux F32.prec F32.emax sx m e loc_Exact).
Proof.
  intros H. unfold binary_round_aux. rewrite shr_fexp_succ by done.
  assert (-149 <= (shr_fexp F32.prec F32.emax m e loc_Exact).2) as He'.
  { apply shr_fexp_exponent. rewrite fexp32. lia. }
  destruct (shr_fexp F32.prec F32.emax m e loc_Exact) as [mrs' e'].
  cbn [fst snd] in *. rewrite shr_fexp_succ by (by right).
  destruct (shr_fexp F32.prec F32.emax
              (round_nearest_even (shr_m mrs') (loc_of_shr_record mrs')) e' loc_Exact)
    as [mrs'' e''].
  cbn [fst snd]. destruct (shr_m mrs'') as [| p | p]; [done | | done].
  unfold sf_double.
  destruct (Z.leb_spec e'' (F32.emax - F32.prec)); [done |].
  destruct (Z.leb_spec (e'' + 1) (F32.emax - F32.prec)); [lia | done].
Qed.

Lemma round_nearest_even_bounds m l :
  m <= round_nearest_even m l <= m + 1.
Proof.
  unfold round_nearest_even. destruct l as [| []]; try lia.
  destruct (Z.even m); lia.
Qed.

Lemma shr_fexp_tiny m e :
  Zdigits2 (Zpos m) + e - 24 < -149 -> e < -149 ->
  exists mrs',
    shr_fexp F32.prec F32.emax (Zpos m) e loc_Exact = (mrs', -149) /\
    0 <= shr_m mrs' < 2 ^ 23.
Proof.
  intros HD He. unfold shr_fexp, shr. rewrite fexp32. cbn [shr_record_of_loc].
  destruct (Z.max (Zdigits2 (Z.pos m) + e - 24) (-149) - e) as [| n | n] eqn:Hn;
    [lia | | lia].
  eexists. split; [f_equal; lia |].
  rewrite iter_shr_m by (cbn; lia). cbn [shr_m].
  pose proof (Z.pow_pos_nonneg 2 (Zpos n) ltac:(lia) ltac:(lia)).
  split; [apply Z.div_pos; lia |].
  apply Z.div_lt_upper_bound; [lia |].
  rewrite <- Z.pow_add_r by lia.
  destruct (digits2_bounds m) as [_ Hup]. cbn [Zdigits2] in HD.
  eapply Z.lt_le_trans; [exact Hup |]. apply Z.pow_le_mono_r; lia.
Qed.

Lemma shr_fexp_small m2 :
  0 <= m2 < 2 ^ 24 ->
  shr_fexp F32.prec F32.emax m2 (-149) loc_Exact
    = (Build_shr_record m2 false false, -149).
Proof.
  intros Hm. assert (Zdigits2 m2 <= 24) as HD2.
  { destruct m2 as [| p | p]; cbn [Zdigits2]; [lia | | lia].
    apply digits2_le. lia. }
  unfold shr_fexp, shr. rewrite fexp32. cbn [shr_record_of_loc].
  destruct (Z.max (Zdigits2 m2 + -149 - 24) (-149) - -149) eqn:Hn2; try lia; done.
Qed.

(** A product that lands in the subnormal range is below one. *)
Lemma binary_round_aux_tiny m e :
  Zdigits2 (Zpos m) + e - 24 < -149 -> e < -149 ->
  F32.ltb (binary_round_aux F32.prec F32.emax false (Zpos m) e loc_Exact)
          (F32.of_int TICKS_PER_80US) = true.
Proof.
  intros HD He. unfold binary_round_aux.
  destruct (shr_fexp_tiny m e HD He) as (mrs' & -> & Hb1).
  pose proof (round_nearest_even_bounds (shr_m mrs') (loc_of_shr_record mrs')) as Hb2.
  rewrite shr_fexp_small by lia. cbn [shr_m].
  destruct (round_nearest_even (shr_m mrs') (loc_of_shr_record mrs')) as [| p | p];
    [done | | lia].
  change (-149 <=? F32.emax - F32.prec) with true. cbn match.
  apply ltb_one_finite. split; [lia |].
  eapply Z.le_lt_trans; [apply Hb2 |]. cbn. lia.
Qed.

(** *** Bit patterns *)

(** The pattern of a positive normal number. *)
Lemma of_bits_normal w :
  2 ^ 23 <= w < 255 * 2 ^ 23 ->
  exists m,
    F32.of_bits w = S754_finite false m (w / 2 ^ 23 - 150) /\
    Zpos m = w mod 2 ^ 23 + 2 ^ 23.
Proof.
  intros Hw.
  assert (Z.testbit w 31 = false) as Hsgn.
  { apply Z.bits_above_log2; [lia |]. apply Z.log2_lt_pow2; lia. }
  assert (1 <= w / 2 ^ 23 < 255) as Hex.
  { split; [apply Z.div_le_lower_bound; lia | apply Z.div_lt_upper_bound; lia]. }
  assert (Z.land (Z.shiftr w 23) 255 = w / 2 ^ 23) as Hexp.
  { rewrite Z.shiftr_div_pow2 by lia.
    change 255 with (Z.ones 8). rewrite Z.land_ones by lia.
    apply Z.mod_small. lia. }
  assert (Z.land w (2 ^ 23 - 1) = w mod 2 ^ 23) as Hfr.
  { change (2 ^ 23 - 1) with (Z.ones 23). by rewrite Z.land_ones by lia. }
  unfold F32.of_bits. cbv zeta. rewrite Hsgn, Hexp, Hfr.
  destruct (Z.eqb_spec (w / 2 ^ 23) 0); [lia |].
  destruct (Z.eqb_spec (w / 2 ^ 23) 255); [lia |].
  pose proof (Z.mod_pos_bound w (2 ^ 23) ltac:(lia)).
  destruct (w mod 2 ^ 23 + 2 ^ 23) as [| m | m] eqn:Hm; [lia | | lia].
  by exists m.
Qed.

Lemma mul_two m e :
  2 ^ 23 <= Zpos m < 2 ^ 24 -> -149 <= e -> e + 1 <= 104 ->
  F32.mul (F32.of_int 2) (S754_finite false m e) = S754_finite false m (e + 1).
Proof.
  intros Hm He He'.
  change (F32.of_int 2) with (S754_finite false 8388608 (-22)).
  unfold F32.mul, SFmul. cbn [xorb].
  assert (Zdigits2 (Z.pos (8388608 * m)) = 47) as HD.
  { cbn [Zdigits2]. apply digits2_unique. lia. }
  assert (Zdigits2 (Z.pos m) = 24) as HDm.
  { cbn [Zdigits2]. apply digits2_unique. lia. }
  unfold binary_round_aux.
  assert (shr_fexp F32.prec F32.emax (Z.pos (8388608 * m)) (-22 + e) loc_Exact
          = (Build_shr_record (Zpos m) false false, e + 1)) as ->.
  { unfold shr_fexp, shr. rewrite fexp32, HD. cbn [shr_record_of_loc].
    replace (Z.max (47 + (-22 + e) - 24) (-149) - (-22 + e)) with 23 by lia.
    rewrite Pos2Z.inj_mul, Z.mul_comm. change (Z.pos 8388608) with (2 ^ 23).
    rewrite iter_shr_exact by lia. f_equal. lia. }
  cbn [shr_m loc_of_shr_record round_nearest_even].
  assert (shr_fexp F32.prec F32.emax (Z.pos m) (e + 1) loc_Exact
          = (Build_shr_record (Zpos m) false false, e + 1)) as ->.
  { unfold shr_fexp, shr. rewrite fexp32, HDm. cbn [shr_record_of_loc].
    by replace (Z.max (24 + (e + 1) - 24) (-149) - (e + 1)) with 0 by lia. }
  cbn [shr_m]. change (F32.emax - F32.prec) with 104.
  by destruct (Z.leb_spec (e + 1) 104); [| lia].
Qed.

(** Adding one to the exponent field is multiplying by 2.0f. *)
Lemma of_bits_double w :
  2 ^ 23 <= w < 254 * 2 ^ 23 ->
  exists m e,
    F32.of_bits w = S754_finite false m e /\
    F32.of_bits (w + 2 ^ 23) = S754_finite false m (e + 1) /\
    F32.mul (F32.of_int 2) (F32.of_bits w) = F32.of_bits (w + 2 ^ 23).
Proof.
  intros Hw.
  destruct (of_bits_normal w ltac:(lia)) as (m & Hb & Hm).
  destruct (of_bits_normal (w + 2 ^ 23) ltac:(lia)) as (m2 & Hb2 & Hm2).
  replace (w + 2 ^ 23) with (w + 1 * 2 ^ 23) in Hm2, Hb2 at 2 by lia.
  rewrite Z.mod_add in Hm2 by lia. rewrite Z.div_add in Hb2 by lia.
  assert (m2 = m) as -> by lia.
  assert (1 <= w / 2 ^ 23 < 254) as Hex.
  { split; [apply Z.div_le_lower_bound; lia | apply Z.div_lt_upper_bound; lia]. }
  pose proof (Z.mod_pos_bound w (2 ^ 23) ltac:(lia)).
  exists m, (w / 2 ^ 23 - 150). split; [done |].
  replace (w / 2 ^ 23 + 1 - 150) with (w / 2 ^ 23 - 150 + 1) in Hb2 by lia.
  split; [done |]. rewrite Hb, Hb2. apply mul_two; lia.
Qed.

(** *** Intervals *)

Lemma round_mag_double m e :
  2 * F32.round_mag m e - 1 <= F32.round_mag m (e + 1) <= 2 * F32.round_mag m e + 1.
Proof.
  unfold F32.round_mag.
  destruct (Z.leb_spec 0 e) as [He | He]; destruct (Z.leb_spec 0 (e + 1)) as [He' | He'];
    try lia.
  - rewrite Z.pow_add_r, Z.pow_1_r by lia. lia.
  - assert (e = -1) as -> by lia. cbn [Z.opp Z.sub Z.add Z.pow Z.pow_pos Pos.iter Z.mul Pos.mul].
    change (-1 + 1) with 0. rewrite Z.pow_0_r, Z.mul_1_r.
    change (2 ^ (- -1 - 1)) with 1. change (2 ^ (- -1)) with 2.
    pose proof (Z.div_mod (Z.pos m + 1) 2 ltac:(lia)).
    pose proof (Z.mod_pos_bound (Z.pos m + 1) 2 ltac:(lia)). lia.
  - set (A := 2 ^ (- (e + 1) - 1)).
    assert (0 < A) as HA by (apply Z.pow_pos_nonneg; lia).
    assert (2 ^ (- (e + 1)) = 2 * A) as ->.
    { subst A. rewrite <- Z.pow_succ_r by lia. f_equal. lia. }
    assert (2 ^ (- e - 1) = 2 * A) as ->.
    { subst A. rewrite <- Z.pow_succ_r by lia. f_equal. lia. }
    assert (2 ^ (- e) = 4 * A) as ->.
    { subst A. replace (- e) with (Z.succ (Z.succ (- (e + 1) - 1))) by lia.
      rewrite !Z.pow_succ_r by lia. lia. }
    pose proof (Z.div_mod (Z.pos m + 2 * A) (4 * A) ltac:(lia)).
    pose proof (Z.mod_pos_bound (Z.pos m + 2 * A) (4 * A) ltac:(lia)).
    pose proof (Z.div_mod (Z.pos m + A) (2 * A) ltac:(lia)).
    pose proof (Z.mod_pos_bound (Z.pos m + A) (2 * A) ltac:(lia)).
    nia.
Qed.

(** Unless the product is below one tick, doubling the scale raises the
    exponent of the product and keeps its mantissa. *)
Lemma units_f_double a scale :
  0 <= a -> 2 ^ 23 <= scale < 254 * 2 ^ 23 ->
  F32.ltb (units_f a scale) (F32.of_int TICKS_PER_80US) = false ->
  units_f a (scale + 2 ^ 23) = sf_double (units_f a scale).
Proof.
  intros Ha Hs. destruct (of_bits_double scale Hs) as (m & e & Hb & Hb2 & _).
  unfold units_f. rewrite Hb, Hb2.
  pose proof (div_sign_clear (F32.of_int (128 * TICKS_PER_80US)) (F32.of_int a)
                (of_int_sign_clear 128 ltac:(lia)) (of_int_sign_clear _ Ha)) as Hq.
  destruct (F32.div _ _) as [sq | sq | | sq mq eq]; try done.
  destruct sq; [done |]. unfold F32.mul, SFmul. cbn [xorb]. intros Hlt.
  rewrite Z.add_assoc. apply binary_round_aux_succ.
  destruct (Z.le_gt_cases (-149) (Zdigits2 (Z.pos (mq * m)) + (eq + e) - 24));
    [by left |].
  destruct (Z.le_gt_cases (-149) (eq + e)); [by right |].
  rewrite binary_round_aux_tiny in Hlt by lia. done.
Qed.

Lemma normal_positive scale : 2 ^ 23 <= scale < 255 * 2 ^ 23 -> F32.positive scale.
Proof.
  intros Hs. destruct (of_bits_normal scale Hs) as (m & Hb & _).
  unfold F32.positive. by rewrite Hb.
Qed.

(** The claim fails for the delta 3 and the scale 1.0: neither interval is
    clamped, and the interval for the scale 2.0 is 85, not 2 * 43. *)
Lemma C4_counterexample :
  F32.mul (F32.of_int 2) (F32.of_bits 0x3F800000) = F32.of_bits 0x40000000 /\
  F32.ltb (units_f (abs_delta 3) 0x3F800000) (F32.of_int TICKS_PER_80US) = false /\
  F32.ltb (units_f (abs_delta 3) 0x40000000) (F32.of_int TICKS_PER_80US) = false /\
  interval 0x3F800000 3 = Some 43 /\
  interval 0x40000000 3 = Some 85 /\
  85 <> 2 * 43.
Proof. by vm_compute. Qed.

(** C4 (amended).  For every delta [d] other than 0 and [INT32_MIN] and
    every normal scale [s > 0] whose double is finite, if the interval for
    [s] is not clamped and is [u], then the product computed with the scale
    [2 * s] is exactly the double of the product computed with [s], and the
    interval for [2 * s], being that double rounded to a whole tick, is
    within one tick of [2 * u] (it is undefined only when it does not fit
    the 64-bit counter). *)
Theorem C4_double_scale scale d u :
  Int32.min_signed < d <= Int32.max_signed -> d <> 0 ->
  0x00800000 <= scale < 0x7F000000 ->
  F32.ltb (units_f (Z.abs d) scale) (F32.of_int TICKS_PER_80US) = false ->
  interval scale d = Some u ->
  let scale2 := scale + 0x00800000 in
  F32.of_bits scale2 = F32.mul (F32.of_int 2) (F32.of_bits scale) /\
  units_f (Z.abs d) scale2 = sf_double (units_f (Z.abs d) scale) /\
  exists r2,
    2 * u - 1 <= r2 <= 2 * u + 1 /\
    interval scale2 d = if r2 <? 2 ^ 64 then Some r2 else None.
Proof.
  intros Hd Hne Hs Hnc Hu scale2. subst scale2.
  change 0x00800000 with (2 ^ 23) in *. change 0x7F000000 with (254 * 2 ^ 23) in *.
  destruct (of_bits_double scale Hs) as (_ & _ & _ & _ & Hdbl).
  split; [done |].
  pose proof (units_f_double (Z.abs d) scale ltac:(lia) Hs Hnc) as Hx2.
  split; [done |].
  unfold interval in *. destruct (Z.eqb_spec d 0); [done |].
  rewrite abs_delta_abs in * by done. rewrite Hx2.
  pose proof (units_f_sign_clear (Z.abs d) scale ltac:(lia)
                (normal_positive scale ltac:(lia))) as Hsc.
  unfold units_of in Hu. rewrite Hnc in Hu.
  destruct (units_f (Z.abs d) scale) as [sx | sx | | sx m e]; try done.
  destruct sx; [done |]. rewrite to_u64_roundf_finite in Hu.
  destruct (Z.ltb_spec (F32.round_mag m e) (2 ^ 64)) as [Hfit |]; [| done].
  injection Hu as <-.
  assert (e + 1 <= 104) as He.
  { destruct (Z.le_gt_cases 0 e) as [H0 | H0]; [| lia].
    unfold F32.round_mag in Hfit. destruct (Z.leb_spec 0 e); [| lia].
    destruct (Z.le_gt_cases e 63) as [| Hbig]; [lia |].
    assert (2 ^ 64 <= 2 ^ e) by (apply Z.pow_le_mono_r; lia). nia. }
  unfold sf_double. change (F32.emax - F32.prec) with 104.
  destruct (Z.leb_spec (e + 1) 104); [| lia].
  exists (F32.round_mag m (e + 1)). split; [apply round_mag_double |].
  unfold units_of.
  assert (F32.ltb (S754_finite false m (e + 1)) (F32.of_int TICKS_PER_80US) = false) as ->.
  { apply not_true_is_false. rewrite ltb_one_finite. intros [He1 Hm1].
    apply not_true_iff_false in Hnc. apply Hnc. apply ltb_one_finite.
    split; [lia |]. eapply Z.lt_le_trans; [exact Hm1 |].
    apply Z.pow_le_mono_r; lia. }
  apply to_u64_roundf_finite.
Qed.

Lemma C4_double_scale_witness :
  F32.of_bits (0x3F800000 + 0x00800000)
    = F32.mul (F32.of_int 2) (F32.of_bits 0x3F800000) /\
  units_f (Z.abs 3) (0x3F800000 + 0x00800000)
    = sf_double (units_f (Z.abs 3) 0x3F800000) /\
  exists r2,
    2 * 43 - 1 <= r2 <= 2 * 43 + 1 /\
    interval (0x3F800000 + 0x00800000) 3 = if r2 <? 2 ^ 64 then Some r2 else None.
Proof.
  apply (C4_double_scale 0x3F800000 3 43).
  - unfold Int32.min_signed, Int32.max_signed. lia.
  - lia.
  - lia.
  - reflexivity.
  - reflexivity.
Defined.

(** ** Updates *)

Lemma put_q_same st p enc q : get_q st p enc = Some q -> put_q p enc q st = st.
Proof.
  unfold get_q, put_q. intros Hg.
  destruct (s_quadratures st !! p) as [row |] eqn:Hrow; [| done].
  cbn in Hg. rewrite (list_insert_id row enc q Hg).
  rewrite (list_insert_id _ p row Hrow). by destruct st.
Qed.

(** What [update_axis] does to an axis that exists. *)
Lemma update_axis_spec p enc delta st q :
  get_q st p enc = Some q ->
  let st' := update_axis p enc delta st in
  get_q st' p enc = Some (process_update (s_scale_factor st) q delta).1 /\
  (forall p' enc', (p, enc) <> (p', enc') -> get_q st' p' enc' = get_q st p' enc') /\
  periph st' = periph st ++
    [timer_set_counter_value (timer_group q) (timer_idx q)
                             (interval (s_scale_factor st) delta)] /\
  timer_started st' = timer_started st /\
  s_scale_factor st' = s_scale_factor st /\
  nvs st' = nvs st /\
  console st' = console st.
Proof.
  intros Hg st'. subst st'. unfold update_axis. rewrite Hg.
  pose proof (process_update_call (s_scale_factor st) q delta) as Hc.
  destruct (process_update (s_scale_factor st) q delta) as [q' cs]. cbn in Hc.
  subst cs. destruct (put_q_frame p enc q' st) as (Ht & Hs & Hn & Hp & Hl).
  repeat split; cbn; try done.
  - by apply (get_put_eq _ _ _ q).
  - intros p' enc' Hne. by apply get_put_ne.
  - by rewrite Hp.
Qed.

(** ** The scale factor *)

(** The second half of the claim fails: [get_scale_factor] reads the store,
    not the variable, so after a [set_scale_factor (2.0f)] that could not
    open the store it still answers the default 1.0f. *)
Lemma C5_counterexample :
  let st' := uni_mouse_quadrature_set_scale_factor 0x40000000 false true true sample_boot in
  s_scale_factor st' = 0x40000000 /\
  uni_mouse_quadrature_get_scale_factor true true st' = 0x3F800000 /\
  0x3F800000 <> 0x40000000.
Proof. vm_compute. repeat split; congruence. Qed.

(** C5 (amended).  [set_scale_factor v] stores [v] in the variable the rate
    converter reads, whatever the store answers, so that the next update of
    an axis programs the interval computed with [v]; [get_scale_factor],
    which reads the store, returns [v] afterwards when the store opened,
    took the value and committed it, and returns what it returned before
    when the store could not be opened or refused the value. *)
Theorem C5_set_scale_in_memory v open_ok set_ok commit_ok st p enc q :
  get_q st p enc = Some q ->
  let st' := uni_mouse_quadrature_set_scale_factor v open_ok set_ok commit_ok st in
  s_scale_factor st' = v /\
  (forall delta,
     periph (update_axis p enc delta st') = periph st ++
       [timer_set_counter_value (timer_group q) (timer_idx q) (interval v delta)]) /\
  (open_ok = true -> set_ok = true -> commit_ok = true ->
   uni_mouse_quadrature_get_scale_factor true true st' = v) /\
  (open_ok = false \/ set_ok = false ->
   forall o g, uni_mouse_quadrature_get_scale_factor o g st'
               = uni_mouse_quadrature_get_scale_factor o g st).
Proof.
  intros Hg st'.
  assert (s_scale_factor st' = v /\ s_quadratures st' = s_quadratures st /\
          periph st' = periph st) as (Hs & Hq & Hp).
  { subst st'. unfold uni_mouse_quadrature_set_scale_factor.
    by destruct open_ok, set_ok, commit_ok. }
  split; [done |]. split; [| split].
  - intros delta. assert (get_q st' p enc = Some q) as Hg'
      by (unfold get_q; by rewrite Hq).
    destruct (update_axis_spec p enc delta st' q Hg') as (_ & _ & -> & _).
    by rewrite Hs, Hp.
  - intros -> -> ->. subst st'.
    unfold uni_mouse_quadrature_set_scale_factor, uni_mouse_quadrature_get_scale_factor.
    cbn. by rewrite lookup_insert_eq.
  - intros Hfail o g. subst st'.
    unfold uni_mouse_quadrature_set_scale_factor, uni_mouse_quadrature_get_scale_factor.
    destruct Hfail as [-> | ->]; [done |]. by destruct open_ok.
Qed.

Lemma C5_set_scale_in_memory_witness :
  let q := mk_quadrature 0 PHASE_DIRECTION_POS 5 0 0 0 (mk_gpios 0 0) in
  let st' := uni_mouse_quadrature_set_scale_factor 0x40000000 true false true sample_state in
  s_scale_factor st' = 0x40000000 /\
  (forall delta,
     periph (update_axis 0 0 delta st') = periph sample_state ++
       [timer_set_counter_value (timer_group q) (timer_idx q) (interval 0x40000000 delta)]) /\
  (true = true -> false = true -> true = true ->
   uni_mouse_quadrature_get_scale_factor true true st' = 0x40000000) /\
  (true = false \/ false = false ->
   forall o g, uni_mouse_quadrature_get_scale_factor o g st'
               = uni_mouse_quadrature_get_scale_factor o g sample_state).
Proof.
  apply (C5_set_scale_in_memory 0x40000000 true false true sample_state 0 0).
  reflexivity.
Defined.

(** ** What an update writes *)

(** C6.  An update never writes the phase: whatever the deltas, every axis
    has after [uni_mouse_quadrature_update] the phase it had before, and so
    has the axis [process_update] is applied to; for the delta 0 the axis is
    left as it is, counter included, and the timer is programmed with the
    idle interval of 60 * 12500 = 750000 ticks. *)
Theorem C6_update_keeps_phase PORT_MAX port_idx dx dy st p enc q :
  get_q st p enc = Some q ->
  (exists q', get_q (uni_mouse_quadrature_update PORT_MAX port_idx dx dy st) p enc
                = Some q' /\ phase q' = phase q) /\
  (forall scale delta, phase (process_update scale q delta).1 = phase q) /\
  (forall scale,
     process_update scale q 0 =
       (q, [timer_set_counter_value (timer_group q) (timer_idx q) (Some 750000)])) /\
  (update_axis p enc 0 st).(s_quadratures) = st.(s_quadratures) /\
  (update_axis p enc 0 st).(periph) =
     st.(periph) ++ [timer_set_counter_value (timer_group q) (timer_idx q) (Some 750000)].
Proof.
  intros Hg. split; [| split; [| split; [| split]]].
  - pose proof (axes_related_update PORT_MAX
                  (fun q q' => phase q' = phase q) (fun _ => True)
                  ltac:(done) ltac:(congruence)
                  ltac:(intros; apply process_update_phase)
                  port_idx dx dy st I I p enc) as Hrel.
    rewrite Hg in Hrel. inversion Hrel; subst. eauto.
  - intros scale delta. apply process_update_phase.
  - intros scale. apply process_update_zero.
  - unfold update_axis. rewrite Hg, process_update_zero. cbn.
    by rewrite put_q_same.
  - by destruct (update_axis_spec p enc 0 st q Hg) as (_ & _ & -> & _).
Qed.

Lemma C6_update_keeps_phase_witness :
  let q := mk_quadrature 0 PHASE_DIRECTION_POS 5 0 0 0 (mk_gpios 0 0) in
  (exists q', get_q (uni_mouse_quadrature_update 2 0 7 (-2) sample_state) 0 0
                = Some q' /\ phase q' = phase q) /\
  (forall scale delta, phase (process_update scale q delta).1 = phase q) /\
  (forall scale,
     process_update scale q 0 =
       (q, [timer_set_counter_value (timer_group q) (timer_idx q) (Some 750000)])) /\
  (update_axis 0 0 0 sample_state).(s_quadratures) = sample_state.(s_quadratures) /\
  (update_axis 0 0 0 sample_state).(periph) =
     sample_state.(periph) ++
       [timer_set_counter_value (timer_group q) (timer_idx q) (Some 750000)].
Proof.
  apply (C6_update_keeps_phase 2 0 7 (-2) sample_state 0 0). reflexivity.
Defined.

(** C7, the failing input.  For [dy = INT32_MIN] the negation [-dy] wraps
    around to [INT32_MIN] itself: after the report (0, INT32_MIN) the
    vertical axis is what [process_update] makes of [dy], not of its
    negation; its direction is negative, the direction of [dy] and not the
    inverted one, and its counter is -2147483648.  The next value,
    [dy = INT32_MIN + 1], is inverted: direction positive, 2147483647
    steps. *)
Theorem C7_int32_min_dy :
  let qv := mk_quadrature 0 PHASE_DIRECTION_NEG 0 0 0 1 (mk_gpios 0 0) in
  let st' := uni_mouse_quadrature_update 2 0 0 (-2147483648) sample_boot in
  get_q sample_boot 0 UNI_MOUSE_QUADRATURE_ENCODER_V = Some qv /\
  Int32.neg (-2147483648) = -2147483648 /\
  get_q st' 0 UNI_MOUSE_QUADRATURE_ENCODER_V
    = Some (process_update (s_scale_factor sample_boot) qv (-2147483648)).1 /\
  get_q st' 0 UNI_MOUSE_QUADRATURE_ENCODER_V
    = Some (mk_quadrature 0 PHASE_DIRECTION_NEG (-2147483648) 0 0 1 (mk_gpios 0 0)) /\
  get_q (uni_mouse_quadrature_update 2 0 0 (-2147483647) sample_boot)
        0 UNI_MOUSE_QUADRATURE_ENCODER_V
    = Some (mk_quadrature 0 PHASE_DIRECTION_POS 2147483647 0 0 1 (mk_gpios 0 0)).
Proof. repeat split; vm_compute; reflexivity. Qed.

(** C7 for every other [dy].  For a valid port whose two axes are [qh] and
    [qv], [uni_mouse_quadrature_update] applies [process_update] with [dx]
    to the horizontal axis and with [-dy] (the 32-bit negation, equal to the
    integer [- dy] unless [dy] is [INT32_MIN]) to the vertical one, and
    programs the two timers, in this order, with the intervals of [dx] and
    of [-dy]; the report (0, -10) leaves the horizontal axis as it was and
    sets the vertical one to direction positive with 10 steps. *)
Theorem C7_update_feeds_axes PORT_MAX port_idx dx dy st qh qv :
  0 <= port_idx < Z.of_nat PORT_MAX ->
  get_q st (Z.to_nat port_idx) UNI_MOUSE_QUADRATURE_ENCODER_H = Some qh ->
  get_q st (Z.to_nat port_idx) UNI_MOUSE_QUADRATURE_ENCODER_V = Some qv ->
  let st' := uni_mouse_quadrature_update PORT_MAX port_idx dx dy st in
  let scale := s_scale_factor st in
  get_q st' (Z.to_nat port_idx) UNI_MOUSE_QUADRATURE_ENCODER_H
    = Some (process_update scale qh dx).1 /\
  get_q st' (Z.to_nat port_idx) UNI_MOUSE_QUADRATURE_ENCODER_V
    = Some (process_update scale qv (Int32.neg dy)).1 /\
  periph st' = periph st ++
    [timer_set_counter_value (timer_group qh) (timer_idx qh) (interval scale dx);
     timer_set_counter_value (timer_group qv) (timer_idx qv)
                             (interval scale (Int32.neg dy))] /\
  (Int32.min_signed < dy <= Int32.max_signed -> Int32.neg dy = - dy) /\
  (dx = 0 -> dy = -10 ->
   exists qv',
     get_q st' (Z.to_nat port_idx) UNI_MOUSE_QUADRATURE_ENCODER_H = Some qh /\
     get_q st' (Z.to_nat port_idx) UNI_MOUSE_QUADRATURE_ENCODER_V = Some qv' /\
     dir qv' = PHASE_DIRECTION_POS /\ value qv' = 10 /\ phase qv' = phase qv).
Proof.
  intros Hport Hh Hv st' scale.
  set (p := Z.to_nat port_idx) in *.
  assert (st' = update_axis p UNI_MOUSE_QUADRATURE_ENCODER_V (Int32.neg dy)
                  (update_axis p UNI_MOUSE_QUADRATURE_ENCODER_H dx st)) as Hst'.
  { subst st'. unfold uni_mouse_quadrature_update, invalid_port.
    destruct (Z.ltb_spec port_idx 0); [lia |].
    destruct (Z.leb_spec (Z.of_nat PORT_MAX) port_idx); [lia | done]. }
  destruct (update_axis_spec p UNI_MOUSE_QUADRATURE_ENCODER_H dx st qh Hh)
    as (Hh1 & Hoth1 & Hper1 & _ & Hsc1 & _).
  set (st1 := update_axis p UNI_MOUSE_QUADRATURE_ENCODER_H dx st) in *.
  assert (get_q st1 p UNI_MOUSE_QUADRATURE_ENCODER_V = Some qv) as Hv1.
  { rewrite Hoth1; [done |]. by intros [= ?]. }
  destruct (update_axis_spec p UNI_MOUSE_QUADRATURE_ENCODER_V (Int32.neg dy) st1 qv Hv1)
    as (Hv2 & Hoth2 & Hper2 & _).
  rewrite Hsc1 in Hv2, Hper2. fold scale in Hh1, Hper1, Hv2, Hper2.
  assert (get_q st' p UNI_MOUSE_QUADRATURE_ENCODER_H
          = Some (process_update scale qh dx).1) as Hh2.
  { rewrite Hst', Hoth2; [done |]. by intros [= ?]. }
  split; [done |]. split; [by rewrite Hst' |].
  split; [by rewrite Hst', Hper2, Hper1, <- app_assoc |].
  split; [apply neg_small |].
  intros -> ->. eexists. split; [by rewrite Hh2, process_update_zero |].
  split; [by rewrite Hst', Hv2 |]. done.
Qed.

Lemma C7_update_feeds_axes_witness :
  let qh := mk_quadrature 0 PHASE_DIRECTION_POS 5 0 0 0 (mk_gpios 0 0) in
  let qv := mk_quadrature 0 PHASE_DIRECTION_POS 3 0 0 1 (mk_gpios 0 0) in
  let st' := uni_mouse_quadrature_update 2 0 0 (-10) sample_state in
  let scale := s_scale_factor sample_state in
  get_q st' 0%nat UNI_MOUSE_QUADRATURE_ENCODER_H = Some (process_update scale qh 0).1 /\
  get_q st' 0%nat UNI_MOUSE_QUADRATURE_ENCODER_V
    = Some (process_update scale qv (Int32.neg (-10))).1 /\
  periph st' = periph sample_state ++
    [timer_set_counter_value (timer_group qh) (timer_idx qh) (interval scale 0);
     timer_set_counter_value (timer_group qv) (timer_idx qv)
                             (interval scale (Int32.neg (-10)))] /\
  (Int32.min_signed < -10 <= Int32.max_signed -> Int32.neg (-10) = - -10) /\
  (0 = 0 -> -10 = -10 ->
   exists qv',
     get_q st' 0%nat UNI_MOUSE_QUADRATURE_ENCODER_H = Some qh /\
     get_q st' 0%nat UNI_MOUSE_QUADRATURE_ENCODER_V = Some qv' /\
     dir qv' = PHASE_DIRECTION_POS /\ value qv' = 10 /\ phase qv' = phase qv).
Proof.
  apply (C7_update_feeds_axes 2 0 0 (-10) sample_state).
  - lia.
  - reflexivity.
  - reflexivity.
Defined.

(** ** Port guards *)

Lemma invalid_port_spec PORT_MAX port_idx :
  invalid_port PORT_MAX port_idx = true <->
  port_idx < 0 \/ Z.of_nat PORT_MAX <= port_idx.
Proof.
  unfold invalid_port. rewrite orb_true_iff, Z.ltb_lt, Z.leb_le. tauto.
Qed.

Lemma log_error_only fmt args st :
  logged_error_only st (log [loge fmt args] st).
Proof. unfold logged_error_only. cbn. eauto 10. Qed.

(** C8.  With a port index that is negative or not below the number of
    ports, [setup_port], [start], [pause] and [update] each return the state
    they were given with one error line added to the console: the axes, the
    running flags, the scale factor, the store and the list of driver calls
    are unchanged. *)
Theorem C8_invalid_port_noop PORT_MAX port_idx st :
  port_idx < 0 \/ Z.of_nat PORT_MAX <= port_idx ->
  (forall h v,
     logged_error_only st (uni_mouse_quadrature_setup_port PORT_MAX port_idx h v st)) /\
  logged_error_only st (uni_mouse_quadrature_start PORT_MAX port_idx st) /\
  logged_error_only st (uni_mouse_quadrature_pause PORT_MAX port_idx st) /\
  (forall dx dy,
     logged_error_only st (uni_mouse_quadrature_update PORT_MAX port_idx dx dy st)).
Proof.
  intros Hbad. apply invalid_port_spec in Hbad.
  unfold uni_mouse_quadrature_setup_port, uni_mouse_quadrature_start,
    uni_mouse_quadrature_pause, uni_mouse_quadrature_update.
  rewrite Hbad. repeat split; intros; apply log_error_only.
Qed.

Lemma C8_invalid_port_noop_witness :
  (forall h v,
     logged_error_only sample_state (uni_mouse_quadrature_setup_port 2 2 h v sample_state)) /\
  logged_error_only sample_state (uni_mouse_quadrature_start 2 2 sample_state) /\
  logged_error_only sample_state (uni_mouse_quadrature_pause 2 2 sample_state) /\
  (forall dx dy,
     logged_error_only sample_state (uni_mouse_quadrature_update 2 2 dx dy sample_state)).
Proof.
  apply (C8_invalid_port_noop 2 2 sample_state). right. cbn. lia.
Defined.

(** C9.  For a valid port, [start] on a port whose running flag is set and
    [pause] on a port whose running flag is clear return the state they
    were given: no flag, no axis and no driver call is added or changed. *)
Theorem C9_start_pause_idempotent PORT_MAX port_idx st :
  0 <= port_idx < Z.of_nat PORT_MAX ->
  (timer_started st !! Z.to_nat port_idx = Some true ->
   uni_mouse_quadrature_start PORT_MAX port_idx st = st) /\
  (timer_started st !! Z.to_nat port_idx = Some false ->
   uni_mouse_quadrature_pause PORT_MAX port_idx st = st).
Proof.
  intros Hport.
  assert (invalid_port PORT_MAX port_idx = false) as Hv.
  { apply not_true_is_false. rewrite invalid_port_spec. lia. }
  unfold uni_mouse_quadrature_start, uni_mouse_quadrature_pause. rewrite Hv.
  split; intros ->; reflexivity.
Qed.

Lemma C9_start_pause_idempotent_witness :
  uni_mouse_quadrature_start 2 0 (uni_mouse_quadrature_start 2 0 sample_state)
    = uni_mouse_quadrature_start 2 0 sample_state /\
  uni_mouse_quadrature_pause 2 0 sample_state = sample_state.
Proof.
  split.
  - apply (C9_start_pause_idempotent 2 0 (uni_mouse_quadrature_start 2 0 sample_state));
      [lia | reflexivity].
  - apply (C9_start_pause_idempotent 2 0 sample_state); [lia | reflexivity].
Defined.

(** ** The counter is never negative *)

Lemma process_update_nonneg scale q delta :
  Int32.min_signed < delta <= Int32.max_signed ->
  0 <= value q <= Int32.max_signed ->
  0 <= value (process_update scale q delta).1 <= Int32.max_signed.
Proof.
  intros Hd Hq. destruct (Z.eq_dec delta 0) as [-> | Hne]; [done |].
  rewrite process_update_fields by done. cbn.
  rewrite abs_delta_abs by done.
  revert Hd. unfold Int32.min_signed, Int32.max_signed. lia.
Qed.

Lemma process_quadrature_nonneg q :
  0 <= value q <= Int32.max_signed ->
  0 <= value (process_quadrature q).1.1 <= Int32.max_signed.
Proof.
  intros Hq. rewrite process_quadrature_value.
  - destruct (Z.leb_spec (value q) 0); lia.
  - revert Hq. unfold Int32.in_range, Int32.min_signed, Int32.max_signed. lia.
Qed.

Lemma neg_eq_min_signed dy :
  Int32.in_range dy -> Int32.neg dy = Int32.min_signed -> dy = Int32.min_signed.
Proof.
  intros Hr Hneg. destruct (Z.eq_dec dy Int32.min_signed) as [| Hne]; [done |].
  rewrite neg_small in Hneg;
    revert Hr Hne Hneg; unfold Int32.in_range, Int32.min_signed, Int32.max_signed; lia.
Qed.

(** When no delta is [INT32_MIN], every counter of a reachable state is
    between 0 and [INT32_MAX]. *)
Lemma reachable_nonneg PORT_MAX st :
  reachable PORT_MAX op_deltas_negatable st ->
  all_axes (fun q => 0 <= value q <= Int32.max_signed) st.
Proof.
  apply (reachable_all_axes PORT_MAX op_deltas_negatable _
           (fun d => Int32.min_signed < d <= Int32.max_signed)).
  - intros g i. cbn. unfold Int32.max_signed. lia.
  - done.
  - apply process_quadrature_nonneg.
  - intros scale q delta. apply process_update_nonneg.
  - intros port_idx dx dy (_ & Hdx & Hdy) [Hx Hy]. split.
    + revert Hdx Hx. unfold Int32.in_range. lia.
    + pose proof (wrap_in_range (- dy)) as Hr. fold (Int32.neg dy) in Hr.
      pose proof (neg_eq_min_signed dy Hdy).
      revert Hr. unfold Int32.in_range. lia.
Qed.

(** A firing on an axis with nothing left changes nothing at all. *)
Lemma timer_task_step_idle p enc st q :
  get_q st p enc = Some q -> value q <= 0 -> timer_task_step p enc st = st.
Proof.
  intros Hg Hv. unfold timer_task_step.
  rewrite Hg, process_quadrature_idle by done.
  rewrite put_q_same by done. unfold log, call. rewrite !app_nil_r.
  by destruct st.
Qed.

(** C10, the failing input.  The state after initialisation and the report
    (INT32_MIN, 0) is reachable, and the counter of its horizontal axis is
    -2147483648. *)
Theorem C10_int32_min_delta :
  reachable 2 (fun _ => True) (run_op 2 (OpUpdate 0 (-2147483648) 0) sample_boot) /\
  value <$> get_q (run_op 2 (OpUpdate 0 (-2147483648) 0) sample_boot) 0 0
    = Some (-2147483648).
Proof.
  split; [| vm_compute; reflexivity].
  apply reach_step; [apply reach_init | | done].
  unfold op_typed, Int32.in_range, Int32.min_signed, Int32.max_signed. lia.
Qed.

(** C10 for every other delta.  In every state reached from initialisation by
    operations none of whose deltas is [INT32_MIN], the counter of every
    axis is non-negative; and in any state a firing on an axis whose counter
    is zero or negative leaves the whole state, driver calls included, as it
    was, so that the counter is never lowered below zero. *)
Theorem C10_counter_nonnegative PORT_MAX st p enc q :
  reachable PORT_MAX op_deltas_negatable st ->
  get_q st p enc = Some q ->
  0 <= value q /\
  (value q <= 0 -> timer_task_step p enc st = st) /\
  (forall q0, value q0 <= 0 -> process_quadrature q0 = (q0, [], [])) /\
  (exists q', get_q (timer_task_step p enc st) p enc = Some q' /\ 0 <= value q').
Proof.
  intros Hreach Hg. pose proof (reachable_nonneg _ _ Hreach p enc q Hg) as Hq.
  cbn beta in Hq. split; [lia |]. split; [by apply timer_task_step_idle |].
  split; [apply process_quadrature_idle |].
  assert (reachable PORT_MAX op_deltas_negatable
            (run_op PORT_MAX (OpTimerTask p enc) st)) as Hreach'
    by (by apply reach_step).
  cbn in Hreach'. unfold timer_task_step in *. rewrite Hg in *.
  destruct (process_quadrature q) as [[q' cs] ls].
  exists q'. assert (get_q (log ls (call cs (put_q p enc q' st))) p enc = Some q') as Hg'.
  { unfold get_q. cbn. by apply (get_put_eq _ _ _ q). }
  split; [done |]. apply (reachable_nonneg _ _ Hreach' p enc q' Hg').
Qed.

Lemma C10_counter_nonnegative_witness :
  let q := mk_quadrature 0 PHASE_DIRECTION_POS 5 0 0 0 (mk_gpios 0 0) in
  0 <= value q /\
  (value q <= 0 -> timer_task_step 0 0 sample_state = sample_state) /\
  (forall q0, value q0 <= 0 -> process_quadrature q0 = (q0, [], [])) /\
  (exists q', get_q (timer_task_step 0 0 sample_state) 0 0 = Some q' /\ 0 <= value q').
Proof.
  apply (C10_counter_nonnegative 2 sample_state 0 0).
  - apply sample_state_reachable. cbn. unfold Int32.min_signed. lia.
  - reflexivity.
Defined.

(** * Further properties *)

(** ** Shapes, timers and pins *)

Lemma put_q_sized PORT_MAX p enc q st :
  arrays_sized PORT_MAX st -> arrays_sized PORT_MAX (put_q p enc q st).
Proof.
  intros (Hl & Hr & Ht). unfold put_q.
  destruct (s_quadratures st !! p) as [row |] eqn:Hrow; [| done].
  split; [| split]; cbn; [by rewrite length_insert | | done].
  apply Forall_insert; [done |]. rewrite length_insert.
  by eapply (Forall_lookup_1 _ _ _ _ Hr).
Qed.

Lemma arrays_sized_same PORT_MAX st st' :
  s_quadratures st' = s_quadratures st ->
  length (timer_started st') = length (timer_started st) ->
  arrays_sized PORT_MAX st -> arrays_sized PORT_MAX st'.
Proof. unfold arrays_sized. by intros -> ->. Qed.

Lemma init_sized PORT_MAX open_ok get_ok st0 :
  arrays_sized PORT_MAX (uni_mouse_quadrature_init PORT_MAX open_ok get_ok st0).
Proof.
  unfold arrays_sized, uni_mouse_quadrature_init.
  cbn [s_quadratures timer_started set_quadratures set_timer_started set_scale].
  rewrite length_fmap, length_seq, length_replicate. repeat split.
  apply Forall_fmap, Forall_forall. intros i _. unfold compose, init_row.
  by rewrite length_fmap, length_seq.
Qed.

Lemma call_log_sized PORT_MAX cs ls st :
  arrays_sized PORT_MAX st -> arrays_sized PORT_MAX (log ls (call cs st)).
Proof. by apply arrays_sized_same. Qed.

Lemma update_axis_sized PORT_MAX p enc delta st :
  arrays_sized PORT_MAX st -> arrays_sized PORT_MAX (update_axis p enc delta st).
Proof.
  intros Hs. unfold update_axis. destruct (get_q st p enc) as [q |]; [| done].
  destruct (process_update _ _ _) as [q' cs].
  eapply arrays_sized_same; [| | by apply (put_q_sized _ p enc q')]; done.
Qed.

Lemma timer_task_step_sized PORT_MAX p enc st :
  arrays_sized PORT_MAX st -> arrays_sized PORT_MAX (timer_task_step p enc st).
Proof.
  intros Hs. unfold timer_task_step. destruct (get_q st p enc) as [q |]; [| done].
  destruct (process_quadrature q) as [[q' cs] ls].
  eapply arrays_sized_same; [| | by apply (put_q_sized _ p enc q')]; done.
Qed.

Lemma run_op_sized PORT_MAX o st :
  arrays_sized PORT_MAX st -> arrays_sized PORT_MAX (run_op PORT_MAX o st).
Proof.
  intros Hs. destruct o as [port_idx h v | port_idx | port_idx | port_idx dx dy
                           | scale o s c | p enc]; cbn [run_op].
  - unfold uni_mouse_quadrature_setup_port.
    destruct (invalid_port _ _); [by eapply arrays_sized_same |].
    assert (forall enc g s0, arrays_sized PORT_MAX s0 ->
              arrays_sized PORT_MAX
                match get_q s0 (Z.to_nat port_idx) enc with
                | Some q => put_q (Z.to_nat port_idx) enc (set_gpios g q) s0
                | None => s0
                end) as Hset.
    { intros enc g s0 H0. destruct (get_q s0 _ enc); [by apply put_q_sized | done]. }
    by apply Hset, Hset.
  - unfold uni_mouse_quadrature_start.
    destruct (invalid_port _ _); [by eapply arrays_sized_same |].
    destruct (default false _); [done |].
    eapply arrays_sized_same; [| | exact Hs]; cbn; [done | by rewrite length_insert].
  - unfold uni_mouse_quadrature_pause.
    destruct (invalid_port _ _); [by eapply arrays_sized_same |].
    destruct (negb _); [done |].
    eapply arrays_sized_same; [| | exact Hs]; cbn; [done | by rewrite length_insert].
  - unfold uni_mouse_quadrature_update.
    destruct (invalid_port _ _); [by eapply arrays_sized_same |].
    by apply update_axis_sized, update_axis_sized.
  - unfold uni_mouse_quadrature_set_scale_factor.
    repeat case_match; by eapply arrays_sized_same.
  - by apply timer_task_step_sized.
Qed.

Lemma reachable_sized PORT_MAX ok st :
  reachable PORT_MAX ok st -> arrays_sized PORT_MAX st.
Proof.
  induction 1; [apply init_sized | by apply run_op_sized].
Qed.

Lemma sized_get_q PORT_MAX st p enc :
  arrays_sized PORT_MAX st ->
  (p < PORT_MAX)%nat -> (enc < UNI_MOUSE_QUADRATURE_ENCODER_MAX)%nat ->
  is_Some (get_q st p enc) /\ is_Some (timer_started st !! p).
Proof.
  intros (Hl & Hr & Ht) Hp He. split.
  - unfold get_q. destruct (lookup_lt_is_Some_2 (s_quadratures st) p) as [row Hrow];
      [lia |].
    rewrite Hrow. cbn. apply lookup_lt_is_Some_2.
    by rewrite (Forall_lookup_1 _ _ _ _ Hr Hrow).
  - apply lookup_lt_is_Some_2. lia.
Qed.

(** X1.  In every reachable state every valid port has its two axes and its
    running flag: the indices the guarded operations use are in bounds. *)
Theorem X1_axes_present PORT_MAX ok st port_idx enc :
  reachable PORT_MAX ok st ->
  0 <= port_idx < Z.of_nat PORT_MAX ->
  (enc < UNI_MOUSE_QUADRATURE_ENCODER_MAX)%nat ->
  (exists q, get_q st (Z.to_nat port_idx) enc = Some q) /\
  (exists flag, timer_started st !! Z.to_nat port_idx = Some flag) /\
  length (s_quadratures st) = PORT_MAX /\ length (timer_started st) = PORT_MAX.
Proof.
  intros Hreach Hport He. pose proof (reachable_sized _ _ _ Hreach) as Hs.
  destruct (sized_get_q PORT_MAX st (Z.to_nat port_idx) enc Hs ltac:(lia) He)
    as [Hq Hf].
  destruct Hs as (Hl & _ & Ht). done.
Qed.

Lemma X1_axes_present_witness :
  (exists q, get_q sample_state (Z.to_nat 1) 1 = Some q) /\
  (exists flag, timer_started sample_state !! Z.to_nat 1 = Some flag) /\
  length (s_quadratures sample_state) = 2%nat /\
  length (timer_started sample_state) = 2%nat.
Proof.
  apply (X1_axes_present 2 (fun _ => True) sample_state 1 1).
  - by apply sample_state_reachable.
  - lia.
  - cbv. lia.
Defined.

(** What every operation keeps of an axis since initialisation. *)
Lemma reachable_axes_init PORT_MAX ok
    (R : quadrature_state -> quadrature_state -> Prop) :
  (forall q, R q q) ->
  (forall q1 q2 q3, R q1 q2 -> R q2 q3 -> R q1 q3) ->
  (forall q g, R q (set_gpios g q)) ->
  (forall q, R q (process_quadrature q).1.1) ->
  (forall scale q delta, R q (process_update scale q delta).1) ->
  forall st, reachable PORT_MAX ok st ->
  forall p enc q, get_q st p enc = Some q ->
    R (set_timer (TIMER_GROUP_0 + Z.of_nat p) (TIMER_0 + Z.of_nat enc) zero_quadrature) q.
Proof.
  intros Hrefl Htrans Hg Hf Hu st Hreach.
  induction Hreach as [st0 open_ok get_ok | st o Hreach IH Hty Ho]; intros p enc q Hq.
  - apply get_q_init in Hq as ->. apply Hrefl.
  - pose proof (axes_related_run_op PORT_MAX R (fun _ => True) Hrefl Htrans Hg Hf
                  ltac:(intros; apply Hu) o st ltac:(by destruct o) p enc) as Hrel.
    rewrite Hq in Hrel. inversion Hrel as [q0 ? HR Hq0 |]; subst.
    eapply Htrans; [| exact HR]. by apply IH.
Qed.

(** A firing writes the counter and the phase only. *)
Lemma process_quadrature_keeps q :
  let q' := (process_quadrature q).1.1 in
  encoder q' = encoder q /\ dir q' = dir q /\
  timer_group q' = timer_group q /\ timer_idx q' = timer_idx q /\
  gpios q' = gpios q.
Proof.
  unfold process_quadrature. destruct (value q <=? 0); [done |].
  cbn [set_value set_phase phase dir value gpios].
  by destruct (phase_levels _) as [[a b] |].
Qed.

(** An update writes the counter and the direction only. *)
Lemma process_update_keeps scale q delta :
  let q' := (process_update scale q delta).1 in
  encoder q' = encoder q /\ phase q' = phase q /\
  timer_group q' = timer_group q /\ timer_idx q' = timer_idx q /\
  gpios q' = gpios q.
Proof. unfold process_update. by destruct (delta =? 0). Qed.

(** X2.  In every reachable state the axis [enc] of port [p] still has the
    timer it was given at initialisation, group [TIMER_GROUP_0 + p] and
    index [TIMER_0 + enc], so no two axes share a timer. *)
Theorem X2_timer_identity PORT_MAX ok st p enc q :
  reachable PORT_MAX ok st -> get_q st p enc = Some q ->
  timer_group q = TIMER_GROUP_0 + Z.of_nat p /\
  timer_idx q = TIMER_0 + Z.of_nat enc /\
  encoder q = 0 /\
  (forall p' enc' q', get_q st p' enc' = Some q' ->
     timer_group q' = timer_group q -> timer_idx q' = timer_idx q ->
     p' = p /\ enc' = enc).
Proof.
  intros Hreach Hq.
  assert (forall p enc q, get_q st p enc = Some q ->
            timer_group q = TIMER_GROUP_0 + Z.of_nat p /\
            timer_idx q = TIMER_0 + Z.of_nat enc /\ encoder q = 0) as Hid.
  { intros p0 enc0 q0 Hq0.
    apply (reachable_axes_init PORT_MAX ok
             (fun q1 q2 => timer_group q2 = timer_group q1 /\
                           timer_idx q2 = timer_idx q1 /\
                           encoder q2 = encoder q1)) with (st := st); try done.
    - intros ??? (-> & -> & ->) (-> & -> & ->); done.
    - intros q1. by destruct (process_quadrature_keeps q1) as (-> & _ & -> & -> & _).
    - intros s1 q1 d1.
      by destruct (process_update_keeps s1 q1 d1) as (-> & _ & -> & -> & _). }
  destruct (Hid p enc q Hq) as (Hg & Hi & He). repeat split; try done.
  - destruct (Hid p' enc' q' H) as (Hg' & _). unfold TIMER_GROUP_0 in *. lia.
  - destruct (Hid p' enc' q' H) as (_ & Hi' & _). unfold TIMER_0 in *. lia.
Qed.

Lemma X2_timer_identity_witness :
  let q := mk_quadrature 0 PHASE_DIRECTION_POS 3 0 0 1 (mk_gpios 0 0) in
  timer_group q = TIMER_GROUP_0 + Z.of_nat 0 /\
  timer_idx q = TIMER_0 + Z.of_nat 1 /\
  encoder q = 0 /\
  (forall p' enc' q', get_q sample_state p' enc' = Some q' ->
     timer_group q' = timer_group q -> timer_idx q' = timer_idx q ->
     p' = 0%nat /\ enc' = 1%nat).
Proof.
  apply (X2_timer_identity 2 (fun _ => True) sample_state 0 1).
  - by apply sample_state_reachable.
  - reflexivity.
Defined.

Lemma valid_port_spec PORT_MAX port_idx :
  0 <= port_idx < Z.of_nat PORT_MAX -> invalid_port PORT_MAX port_idx = false.
Proof. intros H. apply not_true_is_false. rewrite invalid_port_spec. lia. Qed.

(** X3.  On a valid port [setup_port] stores [h] as the pins of the
    horizontal axis and [v] as those of the vertical one, and touches
    nothing else: not the counters, directions, phases or timers of the
    port, not the other ports, flags, scale, store, driver or console. *)
Theorem X3_setup_port_sets_pins PORT_MAX port_idx h v st qh qv :
  0 <= port_idx < Z.of_nat PORT_MAX ->
  get_q st (Z.to_nat port_idx) UNI_MOUSE_QUADRATURE_ENCODER_H = Some qh ->
  get_q st (Z.to_nat port_idx) UNI_MOUSE_QUADRATURE_ENCODER_V = Some qv ->
  let st' := uni_mouse_quadrature_setup_port PORT_MAX port_idx h v st in
  get_q st' (Z.to_nat port_idx) UNI_MOUSE_QUADRATURE_ENCODER_H = Some (set_gpios h qh) /\
  get_q st' (Z.to_nat port_idx) UNI_MOUSE_QUADRATURE_ENCODER_V = Some (set_gpios v qv) /\
  (forall p' enc', p' <> Z.to_nat port_idx -> get_q st' p' enc' = get_q st p' enc') /\
  timer_started st' = timer_started st /\
  s_scale_factor st' = s_scale_factor st /\
  nvs st' = nvs st /\ periph st' = periph st /\ console st' = console st.
Proof.
  intros Hport Hh Hv st'. subst st'. unfold uni_mouse_quadrature_setup_port.
  rewrite valid_port_spec by done. set (p := Z.to_nat port_idx) in *.
  rewrite Hh.
  assert (get_q (put_q p UNI_MOUSE_QUADRATURE_ENCODER_H (set_gpios h qh) st)
                p UNI_MOUSE_QUADRATURE_ENCODER_V = Some qv) as Hv1.
  { rewrite get_put_ne; [done |]. by intros [= ?]. }
  rewrite Hv1.
  destruct (put_q_frame p UNI_MOUSE_QUADRATURE_ENCODER_H (set_gpios h qh) st)
    as (Ht & Hs & Hn & Hp & Hl).
  destruct (put_q_frame p UNI_MOUSE_QUADRATURE_ENCODER_V (set_gpios v qv)
              (put_q p UNI_MOUSE_QUADRATURE_ENCODER_H (set_gpios h qh) st))
    as (Ht' & Hs' & Hn' & Hp' & Hl').
  split; [| split; [| split]].
  - rewrite get_put_ne by (by intros [= ?]). by eapply get_put_eq.
  - by eapply get_put_eq.
  - intros p' enc' Hne. rewrite !get_put_ne by (intros [= ? ?]; congruence). done.
  - by rewrite Ht', Hs', Hn', Hp', Hl'.
Qed.

Lemma X3_setup_port_sets_pins_witness :
  let qh := mk_quadrature 0 PHASE_DIRECTION_POS 5 0 0 0 (mk_gpios 0 0) in
  let qv := mk_quadrature 0 PHASE_DIRECTION_POS 3 0 0 1 (mk_gpios 0 0) in
  let h := mk_gpios 13 14 in
  let v := mk_gpios 26 27 in
  let st' := uni_mouse_quadrature_setup_port 2 0 h v sample_state in
  get_q st' (Z.to_nat 0) UNI_MOUSE_QUADRATURE_ENCODER_H = Some (set_gpios h qh) /\
  get_q st' (Z.to_nat 0) UNI_MOUSE_QUADRATURE_ENCODER_V = Some (set_gpios v qv) /\
  (forall p' enc', p' <> Z.to_nat 0 -> get_q st' p' enc' = get_q sample_state p' enc') /\
  timer_started st' = timer_started sample_state /\
  s_scale_factor st' = s_scale_factor sample_state /\
  nvs st' = nvs sample_state /\ periph st' = periph sample_state /\
  console st' = console sample_state.
Proof.
  apply (X3_setup_port_sets_pins 2 0 (mk_gpios 13 14) (mk_gpios 26 27) sample_state).
  - lia.
  - reflexivity.
  - reflexivity.
Defined.

(** X4.  No operation other than [setup_port] changes the pins or the timer
    of any axis. *)
Theorem X4_pins_only_by_setup PORT_MAX o st p enc q :
  (forall port_idx h v, o <> OpSetupPort port_idx h v) ->
  get_q st p enc = Some q ->
  exists q', get_q (run_op PORT_MAX o st) p enc = Some q' /\
             gpios q' = gpios q /\
             timer_group q' = timer_group q /\ timer_idx q' = timer_idx q.
Proof.
  intros Hno Hq.
  set (R := fun q1 q2 : quadrature_state =>
              gpios q2 = gpios q1 /\ timer_group q2 = timer_group q1 /\
              timer_idx q2 = timer_idx q1).
  assert (forall q, R q q) as Hrefl by done.
  assert (forall q1 q2 q3, R q1 q2 -> R q2 q3 -> R q1 q3) as Htrans
    by (unfold R; intros ??? (? & ? & ?) (? & ? & ?); repeat split; congruence).
  assert (axes_related R st (run_op PORT_MAX o st)) as Hrel.
  { destruct o as [port_idx h v | port_idx | port_idx | port_idx dx dy
                  | scale o s c | p0 enc0]; cbn [run_op].
    - by destruct (Hno port_idx h v).
    - unfold uni_mouse_quadrature_start.
      repeat case_match; by apply axes_related_same.
    - unfold uni_mouse_quadrature_pause.
      repeat case_match; by apply axes_related_same.
    - apply (axes_related_update PORT_MAX R (fun _ => True)); try done.
      intros s1 q1 d1 _. unfold R.
      by destruct (process_update_keeps s1 q1 d1) as (_ & _ & -> & -> & ->).
    - unfold uni_mouse_quadrature_set_scale_factor.
      repeat case_match; by apply axes_related_same.
    - apply axes_related_timer_task; try done.
      intros q1. unfold R.
      by destruct (process_quadrature_keeps q1) as (_ & _ & -> & -> & ->). }
  specialize (Hrel p enc). rewrite Hq in Hrel.
  inversion Hrel as [? q' (Hg & Ht & Hi) |]; subst. by exists q'.
Qed.

Lemma X4_pins_only_by_setup_witness :
  let q := mk_quadrature 0 PHASE_DIRECTION_POS 5 0 0 0 (mk_gpios 0 0) in
  exists q', get_q (run_op 2 (OpTimerTask 0 0) sample_state) 0 0 = Some q' /\
             gpios q' = gpios q /\
             timer_group q' = timer_group q /\ timer_idx q' = timer_idx q.
Proof.
  apply (X4_pins_only_by_setup 2 (OpTimerTask 0 0) sample_state 0 0).
  - done.
  - reflexivity.
Defined.

Lemma timer_enabled_app_other cs cs' group idx :
  forallb (fun c => negb (timer_switch c)) cs' = true ->
  timer_enabled (cs ++ cs') group idx = timer_enabled cs group idx.
Proof.
  unfold timer_enabled. rewrite foldl_app. generalize (foldl
    (fun b c => match c with
                | timer_start g i => if (g =? group) && (i =? idx) then true else b
                | timer_pause g i => if (g =? group) && (i =? idx) then false else b
                | _ => b
                end) false cs).
  induction cs' as [| c cs' IH]; intros b Hall; [done |].
  cbn in Hall. apply andb_true_iff in Hall as [Hc Hall].
  cbn [foldl]. rewrite IH by done. by destruct c.
Qed.

Lemma timer_enabled_snoc cs c group idx :
  timer_enabled (cs ++ [c]) group idx =
    match c with
    | timer_start g i =>
        if (g =? group) && (i =? idx) then true else timer_enabled cs group idx
    | timer_pause g i =>
        if (g =? group) && (i =? idx) then false else timer_enabled cs group idx
    | _ => timer_enabled cs group idx
    end.
Proof. unfold timer_enabled. by rewrite foldl_app. Qed.

Lemma for_encoders_spec f st p qh qv :
  get_q st p UNI_MOUSE_QUADRATURE_ENCODER_H = Some qh ->
  get_q st p UNI_MOUSE_QUADRATURE_ENCODER_V = Some qv ->
  for_encoders f st p =
    [f (timer_group qh) (timer_idx qh); f (timer_group qv) (timer_idx qv)].
Proof.
  unfold UNI_MOUSE_QUADRATURE_ENCODER_H, UNI_MOUSE_QUADRATURE_ENCODER_V.
  intros Hh Hv. unfold for_encoders. cbn -[get_q]. by rewrite Hh, Hv.
Qed.

Lemma start_effect PORT_MAX port_idx st qh qv :
  0 <= port_idx < Z.of_nat PORT_MAX ->
  get_q st (Z.to_nat port_idx) UNI_MOUSE_QUADRATURE_ENCODER_H = Some qh ->
  get_q st (Z.to_nat port_idx) UNI_MOUSE_QUADRATURE_ENCODER_V = Some qv ->
  timer_started st !! Z.to_nat port_idx = Some false ->
  uni_mouse_quadrature_start PORT_MAX port_idx st =
    set_timer_started (<[Z.to_nat port_idx := true]> (timer_started st))
      (call [timer_start (timer_group qh) (timer_idx qh);
             timer_start (timer_group qv) (timer_idx qv)] st).
Proof.
  intros Hport Hh Hv Hf. unfold uni_mouse_quadrature_start.
  rewrite valid_port_spec by done. rewrite Hf. cbn [default negb].
  by rewrite (for_encoders_spec _ _ _ qh qv).
Qed.

Lemma pause_effect PORT_MAX port_idx st qh qv :
  0 <= port_idx < Z.of_nat PORT_MAX ->
  get_q st (Z.to_nat port_idx) UNI_MOUSE_QUADRATURE_ENCODER_H = Some qh ->
  get_q st (Z.to_nat port_idx) UNI_MOUSE_QUADRATURE_ENCODER_V = Some qv ->
  timer_started st !! Z.to_nat port_idx = Some true ->
  uni_mouse_quadrature_pause PORT_MAX port_idx st =
    set_timer_started (<[Z.to_nat port_idx := false]> (timer_started st))
      (call [timer_pause (timer_group qh) (timer_idx qh);
             timer_pause (timer_group qv) (timer_idx qv)] st).
Proof.
  intros Hport Hh Hv Hf. unfold uni_mouse_quadrature_pause.
  rewrite valid_port_spec by done. rewrite Hf. cbn [default negb].
  by rewrite (for_encoders_spec _ _ _ qh qv).
Qed.

(** X5.  On a valid port that is not running, [start] calls [timer_start]
    on the timer of the horizontal axis and then on that of the vertical
    axis and sets the running flag of the port, and changes nothing else; on
    a running port [pause] does the same with [timer_pause] and clears the
    flag; [start] followed by [pause] brings the flags back to what they
    were. *)
Theorem X5_start_pause_switch PORT_MAX port_idx st qh qv :
  0 <= port_idx < Z.of_nat PORT_MAX ->
  get_q st (Z.to_nat port_idx) UNI_MOUSE_QUADRATURE_ENCODER_H = Some qh ->
  get_q st (Z.to_nat port_idx) UNI_MOUSE_QUADRATURE_ENCODER_V = Some qv ->
  (timer_started st !! Z.to_nat port_idx = Some false ->
   uni_mouse_quadrature_start PORT_MAX port_idx st =
     set_timer_started (<[Z.to_nat port_idx := true]> (timer_started st))
       (call [timer_start (timer_group qh) (timer_idx qh);
              timer_start (timer_group qv) (timer_idx qv)] st)) /\
  (timer_started st !! Z.to_nat port_idx = Some true ->
   uni_mouse_quadrature_pause PORT_MAX port_idx st =
     set_timer_started (<[Z.to_nat port_idx := false]> (timer_started st))
       (call [timer_pause (timer_group qh) (timer_idx qh);
              timer_pause (timer_group qv) (timer_idx qv)] st)) /\
  (timer_started st !! Z.to_nat port_idx = Some false ->
   let st' := uni_mouse_quadrature_pause PORT_MAX port_idx
                (uni_mouse_quadrature_start PORT_MAX port_idx st) in
   timer_started st' = timer_started st /\
   s_quadratures st' = s_quadratures st /\
   periph st' = periph st ++
     [timer_start (timer_group qh) (timer_idx qh);
      timer_start (timer_group qv) (timer_idx qv);
      timer_pause (timer_group qh) (timer_idx qh);
      timer_pause (timer_group qv) (timer_idx qv)]).
Proof.
  intros Hport Hh Hv. set (p := Z.to_nat port_idx) in *.
  split; [by apply start_effect |]. split; [by apply pause_effect |].
  intros Hf st'. subst st'. rewrite (start_effect _ _ _ qh qv) by done.
  rewrite (pause_effect _ _ _ qh qv); try done.
  - cbn. fold p. rewrite list_insert_insert_eq, <- app_assoc.
    by rewrite (list_insert_id _ _ _ Hf).
  - cbn. fold p. apply list_lookup_insert_eq. by eapply lookup_lt_Some.
Qed.

Lemma X5_start_pause_switch_witness :
  let qh := mk_quadrature 0 PHASE_DIRECTION_POS 5 0 0 0 (mk_gpios 0 0) in
  let qv := mk_quadrature 0 PHASE_DIRECTION_POS 3 0 0 1 (mk_gpios 0 0) in
  uni_mouse_quadrature_start 2 0 sample_state =
    set_timer_started (<[Z.to_nat 0 := true]> (timer_started sample_state))
      (call [timer_start (timer_group qh) (timer_idx qh);
             timer_start (timer_group qv) (timer_idx qv)] sample_state).
Proof.
  apply (X5_start_pause_switch 2 0 sample_state); [lia | reflexivity ..].
Defined.

Lemma run_op_timer_identity PORT_MAX o st :
  (forall p enc q, get_q st p enc = Some q ->
     timer_group q = TIMER_GROUP_0 + Z.of_nat p /\
     timer_idx q = TIMER_0 + Z.of_nat enc) ->
  forall p enc q, get_q (run_op PORT_MAX o st) p enc = Some q ->
     timer_group q = TIMER_GROUP_0 + Z.of_nat p /\
     timer_idx q = TIMER_0 + Z.of_nat enc.
Proof.
  intros Hid p enc q' Hq'.
  pose proof (axes_related_run_op PORT_MAX
                (fun q1 q2 => timer_group q2 = timer_group q1 /\
                              timer_idx q2 = timer_idx q1) (fun _ => True)) as Hrel.
  cbn beta in Hrel.
  specialize (Hrel ltac:(done)
                   ltac:(intros ??? [? ?] [? ?]; split; congruence)
                   ltac:(done)).
  specialize (Hrel ltac:(intros q1;
                           by destruct (process_quadrature_keeps q1) as (_ & _ & -> & -> & _))
                   ltac:(intros s1 q1 d1 _;
                           by destruct (process_update_keeps s1 q1 d1) as (_ & _ & -> & -> & _))
                   o st ltac:(by destruct o) p enc).
  rewrite Hq' in Hrel. inversion Hrel as [q ? [Hg Hi] Hq |]; subst.
  symmetry in Hq. destruct (Hid p enc q Hq). split; congruence.
Qed.

(** What the operations other than [start] and [pause] do to the flags and
    to the timers: nothing. *)
Lemma run_op_no_switch PORT_MAX o st :
  (forall port_idx, o <> OpStart port_idx /\ o <> OpPause port_idx) ->
  timer_started (run_op PORT_MAX o st) = timer_started st /\
  exists cs, periph (run_op PORT_MAX o st) = periph st ++ cs /\
             forallb (fun c => negb (timer_switch c)) cs = true.
Proof.
  intros Hno.
  assert (forall p enc delta s0,
            timer_started (update_axis p enc delta s0) = timer_started s0 /\
            exists cs, periph (update_axis p enc delta s0) = periph s0 ++ cs /\
                       forallb (fun c => negb (timer_switch c)) cs = true) as Hupd.
  { intros p enc delta s0. unfold update_axis.
    destruct (get_q s0 p enc) as [q |] eqn:Hq;
      [| split; [done | exists []; by rewrite app_nil_r]].
    pose proof (process_update_call (s_scale_factor s0) q delta) as Hc.
    destruct (process_update _ _ _) as [q' cs]. cbn in Hc. subst cs.
    destruct (put_q_frame p enc q' s0) as (Ht & _ & _ & Hp & _).
    split; [done |]. eexists. cbn. by rewrite Hp. }
  destruct o as [port_idx h v | port_idx | port_idx | port_idx dx dy
                | scale o s c | p enc]; cbn [run_op].
  - split.
    + unfold uni_mouse_quadrature_setup_port.
      repeat case_match; rewrite ?(proj1 (put_q_frame _ _ _ _)); done.
    + exists []. rewrite app_nil_r. split; [| done].
      unfold uni_mouse_quadrature_setup_port.
      repeat case_match;
        rewrite ?(proj1 (proj2 (proj2 (proj2 (put_q_frame _ _ _ _))))); done.
  - by destruct (Hno port_idx) as [? _].
  - by destruct (Hno port_idx) as [_ ?].
  - unfold uni_mouse_quadrature_update.
    destruct (invalid_port _ _);
      [split; [done | exists []; by rewrite app_nil_r] |].
    destruct (Hupd (Z.to_nat port_idx) UNI_MOUSE_QUADRATURE_ENCODER_H dx st)
      as (Ht1 & cs1 & Hp1 & Hc1).
    destruct (Hupd (Z.to_nat port_idx) UNI_MOUSE_QUADRATURE_ENCODER_V (Int32.neg dy)
                (update_axis (Z.to_nat port_idx) UNI_MOUSE_QUADRATURE_ENCODER_H dx st))
      as (Ht2 & cs2 & Hp2 & Hc2).
    split; [congruence |]. exists (cs1 ++ cs2).
    rewrite Hp2, Hp1, <- app_assoc. split; [done |].
    by rewrite forallb_app, Hc1, Hc2.
  - split; [| exists []; rewrite app_nil_r; split; [| done]];
      unfold uni_mouse_quadrature_set_scale_factor; repeat case_match; done.
  - unfold timer_task_step. destruct (get_q st p enc) as [q |] eqn:Hq;
      [| split; [done | exists []; by rewrite app_nil_r]].
    destruct (put_q_frame p enc (process_quadrature q).1.1 st) as (Ht & _ & _ & Hp & _).
    assert (forallb (fun c => negb (timer_switch c)) (process_quadrature q).1.2 = true)
      as Hcs.
    { unfold process_quadrature. destruct (value q <=? 0); [done |].
      cbn [set_value set_phase phase dir value gpios].
      by destruct (phase_levels _) as [[a b] |]. }
    destruct (process_quadrature q) as [[q' cs] ls]. cbn in *.
    split; [done |]. exists cs. by rewrite Hp.
Qed.

(** Switching the two timers of port [p0] to [b]. *)
Lemma switch_coherent PORT_MAX (b : bool) p0 st qh qv f :
  (f = timer_start /\ b = true) \/ (f = timer_pause /\ b = false) ->
  flags_coherent PORT_MAX st -> (p0 < PORT_MAX)%nat ->
  get_q st p0 UNI_MOUSE_QUADRATURE_ENCODER_H = Some qh ->
  get_q st p0 UNI_MOUSE_QUADRATURE_ENCODER_V = Some qv ->
  flags_coherent PORT_MAX
    (set_timer_started (<[p0 := b]> (timer_started st))
       (call [f (timer_group qh) (timer_idx qh);
              f (timer_group qv) (timer_idx qv)] st)).
Proof.
  intros Hf (Hs & Hid & Hco) Hp0 Hh Hv. split; [| split].
  - eapply arrays_sized_same; [| | exact Hs]; cbn; [done | by rewrite length_insert].
  - intros p enc q Hq. by apply (Hid p enc q).
  - intros p enc Hp He. cbn [periph timer_started set_timer_started call].
    destruct (Hid _ _ _ Hh) as [Hgh Hih]. destruct (Hid _ _ _ Hv) as [Hgv Hiv].
    change [f (timer_group qh) (timer_idx qh); f (timer_group qv) (timer_idx qv)]
      with ([f (timer_group qh) (timer_idx qh)] ++ [f (timer_group qv) (timer_idx qv)]).
    rewrite app_assoc, !timer_enabled_snoc, Hgh, Hih, Hgv, Hiv, Hco by done.
    destruct Hs as (_ & _ & Hlen).
    unfold UNI_MOUSE_QUADRATURE_ENCODER_H, UNI_MOUSE_QUADRATURE_ENCODER_V,
      UNI_MOUSE_QUADRATURE_ENCODER_MAX, TIMER_GROUP_0, TIMER_0 in *.
    destruct (decide (p = p0)) as [-> | Hne].
    + rewrite list_lookup_insert_eq by lia. cbn [default].
      assert (enc = 0 \/ enc = 1)%nat as [-> | ->] by lia;
        destruct Hf as [[-> ->] | [-> ->]]; cbn;
        rewrite !Z.eqb_refl; cbn; done.
    + rewrite list_lookup_insert_ne by done.
      assert ((0 + Z.of_nat p0 =? 0 + Z.of_nat p) = false) as Hg
        by (apply Z.eqb_neq; lia).
      destruct Hf as [[-> ->] | [-> ->]]; by rewrite Hg.
Qed.

Lemma run_op_coherent PORT_MAX o st :
  flags_coherent PORT_MAX st -> flags_coherent PORT_MAX (run_op PORT_MAX o st).
Proof.
  intros Hco.
  assert (forall port_idx,
            invalid_port PORT_MAX port_idx = false ->
            exists qh qv flag,
              0 <= port_idx < Z.of_nat PORT_MAX /\
              (Z.to_nat port_idx < PORT_MAX)%nat /\
              get_q st (Z.to_nat port_idx) UNI_MOUSE_QUADRATURE_ENCODER_H = Some qh /\
              get_q st (Z.to_nat port_idx) UNI_MOUSE_QUADRATURE_ENCODER_V = Some qv /\
              timer_started st !! Z.to_nat port_idx = Some flag) as Hvalid.
  { intros port_idx Hv. apply not_true_iff_false in Hv.
    rewrite invalid_port_spec in Hv.
    assert (Z.to_nat port_idx < PORT_MAX)%nat as Hp by lia.
    destruct Hco as (Hs & _).
    destruct (sized_get_q _ _ _ UNI_MOUSE_QUADRATURE_ENCODER_H Hs Hp ltac:(cbv; lia))
      as [[qh Hh] [flag Hf]].
    destruct (sized_get_q _ _ _ UNI_MOUSE_QUADRATURE_ENCODER_V Hs Hp ltac:(cbv; lia))
      as [[qv Hv'] _].
    exists qh, qv, flag. repeat split; (done || lia). }
  assert (forall st', timer_started st' = timer_started st ->
            (exists cs, periph st' = periph st ++ cs /\
                        forallb (fun c => negb (timer_switch c)) cs = true) ->
            arrays_sized PORT_MAX st' ->
            (forall p enc q, get_q st' p enc = Some q ->
               timer_group q = TIMER_GROUP_0 + Z.of_nat p /\
               timer_idx q = TIMER_0 + Z.of_nat enc) ->
            flags_coherent PORT_MAX st') as Hother.
  { intros st' Ht (cs & Hp & Hcs) Hs' Hid'. split; [done | split; [done |]].
    intros p enc Hlt He. rewrite Hp, timer_enabled_app_other, Ht by done.
    by apply Hco. }
  assert ((exists port_idx, o = OpStart port_idx) \/
          (exists port_idx, o = OpPause port_idx) \/
          (forall port_idx, o <> OpStart port_idx /\ o <> OpPause port_idx))
    as [[port_idx ->] | [[port_idx ->] | Hno]]
    by (destruct o; eauto; right; right; done).
  { cbn [run_op]. destruct (invalid_port PORT_MAX port_idx) eqn:Hinv.
    - unfold uni_mouse_quadrature_start. rewrite Hinv.
      apply Hother; try done; [exists []; by rewrite app_nil_r | apply Hco | apply Hco].
    - destruct (Hvalid port_idx Hinv) as (qh & qv & flag & Hport & Hlt & Hh & Hv & Hf).
      destruct flag.
      + unfold uni_mouse_quadrature_start. by rewrite Hinv, Hf.
      + rewrite (start_effect _ _ _ qh qv) by done.
        by apply (switch_coherent _ true _ _ _ _ timer_start); [left | ..]. }
  { cbn [run_op]. destruct (invalid_port PORT_MAX port_idx) eqn:Hinv.
    - unfold uni_mouse_quadrature_pause. rewrite Hinv.
      apply Hother; try done; [exists []; by rewrite app_nil_r | apply Hco | apply Hco].
    - destruct (Hvalid port_idx Hinv) as (qh & qv & flag & Hport & Hlt & Hh & Hv & Hf).
      destruct flag.
      + rewrite (pause_effect _ _ _ qh qv) by done.
        by apply (switch_coherent _ false _ _ _ _ timer_pause); [right | ..].
      + unfold uni_mouse_quadrature_pause. by rewrite Hinv, Hf. }
  destruct (run_op_no_switch PORT_MAX o st Hno) as (Ht & Hcs).
  apply Hother; try done.
  - apply run_op_sized, Hco.
  - apply run_op_timer_identity, Hco.
Qed.

Lemma init_coherent PORT_MAX open_ok get_ok st0 :
  periph st0 = [] ->
  flags_coherent PORT_MAX (uni_mouse_quadrature_init PORT_MAX open_ok get_ok st0).
Proof.
  intros Hp. split; [apply init_sized | split].
  - intros p enc q Hq. by apply get_q_init in Hq as ->.
  - intros p enc Hlt He. cbn. rewrite Hp. cbn.
    by rewrite lookup_replicate_2.
Qed.

Lemma run_ops_coherent PORT_MAX ops st :
  flags_coherent PORT_MAX st -> flags_coherent PORT_MAX (run_ops PORT_MAX ops st).
Proof.
  revert st. induction ops as [| o ops IH]; intros st Hco; [done |].
  cbn. by apply IH, run_op_coherent.
Qed.

(** X6.  After initialisation with all timers paused and any sequence of
    operations, the timer of every axis of a valid port counts exactly when
    the running flag of the port is set: the flag never disagrees with the
    [timer_start] and [timer_pause] calls made. *)
Theorem X6_running_flag_coherent PORT_MAX ops open_ok get_ok st0 p enc :
  periph st0 = [] ->
  (p < PORT_MAX)%nat -> (enc < UNI_MOUSE_QUADRATURE_ENCODER_MAX)%nat ->
  let st := run_ops PORT_MAX ops
              (uni_mouse_quadrature_init PORT_MAX open_ok get_ok st0) in
  timer_enabled (periph st) (TIMER_GROUP_0 + Z.of_nat p) (TIMER_0 + Z.of_nat enc)
    = default false (timer_started st !! p).
Proof.
  intros Hp Hlt He st.
  assert (flags_coherent PORT_MAX st) as (_ & _ & Hco)
    by (apply run_ops_coherent; by apply init_coherent).
  by apply Hco.
Qed.

Lemma X6_running_flag_coherent_witness :
  let st := run_ops 2 [OpStart 1; OpUpdate 1 4 0; OpStart 0; OpPause 0; OpStart 1]
              (uni_mouse_quadrature_init 2 true true (mk_state [] [] 0 ∅ [] [])) in
  timer_enabled (periph st) (TIMER_GROUP_0 + Z.of_nat 1) (TIMER_0 + Z.of_nat 1)
    = default false (timer_started st !! 1%nat).
Proof.
  apply (X6_running_flag_coherent 2
           [OpStart 1; OpUpdate 1 4 0; OpStart 0; OpPause 0; OpStart 1]
           true true (mk_state [] [] 0 ∅ [] []) 1 1).
  - reflexivity.
  - lia.
  - cbv. lia.
Defined.

(** ** Bursts, footprints and the scale *)

Lemma iter_step_phase_pos n p :
  0 <= p <= 3 ->
  Nat.iter n (step_phase PHASE_DIRECTION_POS) p = (p + Z.of_nat n) mod 4.
Proof.
  intros Hp. induction n as [| n IH].
  - cbn. rewrite Z.add_0_r, Z.mod_small; lia.
  - rewrite Nat.iter_succ, IH, step_phase_pos.
    + rewrite Zplus_mod_idemp_l. f_equal. lia.
    + pose proof (Z.mod_pos_bound (p + Z.of_nat n) 4 ltac:(lia)). lia.
Qed.

Lemma iter_step_phase_neg n p :
  0 <= p <= 3 ->
  Nat.iter n (step_phase PHASE_DIRECTION_NEG) p = (p - Z.of_nat n) mod 4.
Proof.
  intros Hp. induction n as [| n IH].
  - cbn. rewrite Z.sub_0_r, Z.mod_small; lia.
  - rewrite Nat.iter_succ, IH, step_phase_neg.
    + rewrite Zminus_mod_idemp_l. f_equal. lia.
    + pose proof (Z.mod_pos_bound (p - Z.of_nat n) 4 ltac:(lia)). lia.
Qed.

Lemma fire_n_add a b q : fire_n (a + b) q = fire_n b (fire_n a q).
Proof. revert q. induction a as [| a IH]; intros q; [done |]. cbn. apply IH. Qed.

Lemma fire_n_idle n q : value q <= 0 -> fire_n n q = q.
Proof.
  intros Hv. induction n as [| n IH]; [done |].
  cbn. by rewrite process_quadrature_idle.
Qed.

Lemma fire_calls_idle n q : value q <= 0 -> fire_calls n q = [].
Proof.
  intros Hv. induction n as [| n IH]; [done |].
  cbn. by rewrite process_quadrature_idle.
Qed.

(** Two pin writes per step, for as many steps as are left. *)
Lemma fire_calls_length n q :
  axis_ok q -> 0 <= value q ->
  Z.of_nat (length (fire_calls n q)) = 2 * Z.min (Z.of_nat n) (value q).
Proof.
  revert q. induction n as [| n IH]; intros q Hq Hv; [cbn; lia |].
  cbn [fire_calls]. destruct (Z.le_gt_cases (value q) 0) as [H0 | H0].
  - rewrite process_quadrature_idle by done. cbn.
    rewrite fire_calls_idle by done. cbn. lia.
  - destruct (process_quadrature_step q H0 Hq) as (a & b & _ & Heq).
    pose proof (process_quadrature_ok q Hq) as Hq'.
    rewrite Heq in Hq' |- *. cbn [fst snd] in *.
    rewrite length_app, Nat2Z.inj_add, IH by (done || cbn; lia). cbn. lia.
Qed.

Lemma fire_n_gpios n q : gpios (fire_n n q) = gpios q.
Proof.
  revert q. induction n as [| n IH]; intros q; [done |].
  cbn. rewrite IH. by destruct (process_quadrature_keeps q) as (_ & _ & _ & _ & ->).
Qed.

Lemma burst_displacement scale q d n :
  axis_ok q -> Int32.min_signed < d <= Int32.max_signed -> d <> 0 ->
  Z.abs d <= Z.of_nat n ->
  let q1 := (process_update scale q d).1 in
  phase (fire_n n q1) = (phase q + d) mod 4 /\
  value (fire_n n q1) = 0 /\
  Z.of_nat (length (fire_calls n q1)) = 2 * Z.abs d /\
  gpios (fire_n n q1) = gpios q.
Proof.
  intros Hq Hd Hne Hn q1.
  assert (axis_ok q1) as Hq1.
  { apply process_update_ok; [| done].
    revert Hd. unfold Int32.in_range. lia. }
  assert (value q1 = Z.abs d /\ phase q1 = phase q /\ gpios q1 = gpios q /\
          dir q1 = if d <? 0 then PHASE_DIRECTION_NEG else PHASE_DIRECTION_POS)
    as (Hv & Hp & Hg & Hdir).
  { subst q1. rewrite process_update_fields by done. cbn.
    by rewrite abs_delta_abs. }
  set (k := Z.to_nat (Z.abs d)).
  assert (n = (k + (n - k))%nat) as Hsplit by lia.
  destruct (fire_n_phase k q1 Hq1 ltac:(lia)) as [Hph _].
  assert (value (fire_n k q1) = 0) as Hv0.
  { rewrite fire_n_value by (revert Hd; unfold Int32.min_signed, Int32.max_signed; lia).
    lia. }
  assert (fire_n n q1 = fire_n k q1) as Hfin.
  { rewrite Hsplit, fire_n_add. apply fire_n_idle. lia. }
  rewrite Hfin. split; [| split; [done | split]].
  - rewrite Hph, Hdir, Hp. destruct Hq as [_ Hr].
    destruct (Z.ltb_spec d 0).
    + rewrite iter_step_phase_neg by done. f_equal. lia.
    + rewrite iter_step_phase_pos by done. f_equal. lia.
  - rewrite fire_calls_length by (done || lia). lia.
  - by rewrite fire_n_gpios.
Qed.

(** X7.  A burst delivers its delta: after an update with a delta [d] other
    than 0 and [INT32_MIN], once the stepper has fired [|d|] times or more
    the phase has moved by [d] modulo 4 from where it was, the counter is 0,
    exactly [2 * |d|] pin writes have been made, and the pins are the same. *)
Theorem X7_burst_displacement scale q d n :
  axis_ok q -> Int32.min_signed < d <= Int32.max_signed -> d <> 0 ->
  Z.abs d <= Z.of_nat n ->
  let q1 := (process_update scale q d).1 in
  phase (fire_n n q1) = (phase q + d) mod 4 /\
  value (fire_n n q1) = 0 /\
  Z.of_nat (length (fire_calls n q1)) = 2 * Z.abs d /\
  gpios (fire_n n q1) = gpios q.
Proof. apply burst_displacement. Qed.

Lemma X7_burst_displacement_witness :
  let q1 := (process_update F32.one_bits zero_quadrature (-3)).1 in
  phase (fire_n 5 q1) = (phase zero_quadrature + -3) mod 4 /\
  value (fire_n 5 q1) = 0 /\
  Z.of_nat (length (fire_calls 5 q1)) = 2 * Z.abs (-3) /\
  gpios (fire_n 5 q1) = gpios zero_quadrature.
Proof.
  apply (X7_burst_displacement F32.one_bits zero_quadrature (-3) 5).
  - split; cbn; unfold Int32.in_range, Int32.min_signed, Int32.max_signed; lia.
  - unfold Int32.min_signed, Int32.max_signed. lia.
  - lia.
  - lia.
Defined.

(** X8.  The sequence is a Gray code: a firing with steps left changes
    exactly one of the two levels last written for the phase, and which one
    tells the direction (going positive the new pair is [(1 - b, a)], going
    negative it is [(b, 1 - a)]). *)
Theorem X8_gray_code q :
  axis_ok q -> 0 < value q ->
  exists a b a' b',
    phase_levels (phase q) = Some (a, b) /\
    (process_quadrature q).1.2 =
      [gpio_set_level (gpio_a (gpios q)) a'; gpio_set_level (gpio_b (gpios q)) b'] /\
    ((a' <> a /\ b' = b) \/ (a' = a /\ b' <> b)) /\
    (dir q = PHASE_DIRECTION_POS -> (a', b') = (1 - b, a)) /\
    (dir q = PHASE_DIRECTION_NEG -> (a', b') = (b, 1 - a)).
Proof.
  intros Hq Hv. destruct (process_quadrature_step q Hv Hq) as (a' & b' & Hlv & ->).
  destruct Hq as [_ Hp]. cbn [fst snd].
  assert (phase q = 0 \/ phase q = 1 \/ phase q = 2 \/ phase q = 3)
    as [Hph | [Hph | [Hph | Hph]]] by lia;
    rewrite Hph in *; destruct (dir q); cbn in Hlv; injection Hlv as <- <-;
    eexists _, _, _, _; (split; [reflexivity |]); (split; [reflexivity |]);
    (split; [lia |]); split; intros Hdir; (discriminate || reflexivity).
Qed.

Lemma X8_gray_code_witness :
  let q := mk_quadrature 0 PHASE_DIRECTION_NEG 5 2 0 0 (mk_gpios 13 14) in
  exists a b a' b',
    phase_levels (phase q) = Some (a, b) /\
    (process_quadrature q).1.2 =
      [gpio_set_level (gpio_a (gpios q)) a'; gpio_set_level (gpio_b (gpios q)) b'] /\
    ((a' <> a /\ b' = b) \/ (a' = a /\ b' <> b)) /\
    (dir q = PHASE_DIRECTION_POS -> (a', b') = (1 - b, a)) /\
    (dir q = PHASE_DIRECTION_NEG -> (a', b') = (b, 1 - a)).
Proof.
  apply (X8_gray_code (mk_quadrature 0 PHASE_DIRECTION_NEG 5 2 0 0 (mk_gpios 13 14))).
  - split; cbn; unfold Int32.in_range, Int32.min_signed, Int32.max_signed; lia.
  - cbn. lia.
Defined.

(** X9.  Two opposite bursts cancel: a burst of [d] stepped to its end and
    then a burst of [- d] stepped to its end leave the phase, and so the
    levels of the pins, where they were, whatever the scale factors. *)
Theorem X9_opposite_bursts_cancel scale scale' q d :
  axis_ok q -> Int32.min_signed < d <= Int32.max_signed -> d <> 0 ->
  let n := Z.to_nat (Z.abs d) in
  let q1 := fire_n n (process_update scale q d).1 in
  let q2 := fire_n n (process_update scale' q1 (- d)).1 in
  phase q2 = phase q /\ value q2 = 0 /\
  phase_levels (phase q2) = phase_levels (phase q).
Proof.
  intros Hq Hd Hne n q1 q2.
  assert (Int32.in_range d) as Hr by (revert Hd; unfold Int32.in_range; lia).
  assert (axis_ok q1) as Hq1 by (by apply fire_n_ok, process_update_ok).
  destruct (burst_displacement scale q d n Hq Hd Hne ltac:(lia)) as (Hp1 & _).
  destruct (burst_displacement scale' q1 (- d) n Hq1
              ltac:(revert Hd; unfold Int32.min_signed, Int32.max_signed; lia)
              ltac:(lia) ltac:(lia)) as (Hp2 & Hv2 & _).
  fold q1 in Hp1. fold q2 in Hp2, Hv2.
  assert (phase q2 = phase q) as Heq.
  { rewrite Hp2, Hp1, Zplus_mod_idemp_l.
    replace (phase q + d + - d) with (phase q) by lia.
    apply Z.mod_small. destruct Hq as [_ ?]. lia. }
  by rewrite Heq.
Qed.

Lemma X9_opposite_bursts_cancel_witness :
  let n := Z.to_nat (Z.abs 3) in
  let q1 := fire_n n (process_update F32.one_bits zero_quadrature 3).1 in
  let q2 := fire_n n (process_update 0x40000000 q1 (- 3)).1 in
  phase q2 = phase zero_quadrature /\ value q2 = 0 /\
  phase_levels (phase q2) = phase_levels (phase zero_quadrature).
Proof.
  apply (X9_opposite_bursts_cancel F32.one_bits 0x40000000 zero_quadrature 3).
  - split; cbn; unfold Int32.in_range, Int32.min_signed, Int32.max_signed; lia.
  - unfold Int32.min_signed, Int32.max_signed. lia.
  - lia.
Defined.

Lemma phase_levels_bits p a b :
  phase_levels p = Some (a, b) -> (a = 0 \/ a = 1) /\ (b = 0 \/ b = 1).
Proof.
  destruct p as [| [[| |] | [| |] |] |]; cbn; intros [= <- <-]; lia.
Qed.

(** The driver calls and the log of a firing that has steps left, for any
    phase. *)
Lemma process_quadrature_calls q :
  0 < value q ->
  exists a b,
    (process_quadrature q).1.2 =
      [gpio_set_level (gpio_a (gpios q)) a; gpio_set_level (gpio_b (gpios q)) b] /\
    (a = 0 \/ a = 1) /\ (b = 0 \/ b = 1) /\
    (phase_levels (phase (process_quadrature q).1.1) = None -> a = 0 /\ b = 0).
Proof.
  intros Hv. unfold process_quadrature. destruct (Z.leb_spec (value q) 0); [lia |].
  cbn [set_value set_phase phase dir value gpios].
  destruct (phase_levels (step_phase (dir q) (phase q))) as [[a b] |] eqn:Hlv; cbn.
  - exists a, b. destruct (phase_levels_bits _ _ _ Hlv). by rewrite Hlv.
  - exists 0, 0. rewrite Hlv. repeat split; auto.
Qed.

Lemma timer_task_step_footprint p enc st :
  let st' := timer_task_step p enc st in
  (forall p' enc', (p', enc') <> (p, enc) -> get_q st' p' enc' = get_q st p' enc') /\
  timer_started st' = timer_started st /\
  s_scale_factor st' = s_scale_factor st /\
  nvs st' = nvs st /\
  (periph st' = periph st \/
   exists q a b,
     get_q st p enc = Some q /\ 0 < value q /\
     periph st' = periph st ++ [gpio_set_level (gpio_a (gpios q)) a;
                                gpio_set_level (gpio_b (gpios q)) b] /\
     (a = 0 \/ a = 1) /\ (b = 0 \/ b = 1)).
Proof.
  intros st'. subst st'. unfold timer_task_step.
  destruct (get_q st p enc) as [q |] eqn:Hq; [| by repeat split; auto].
  destruct (put_q_frame p enc (process_quadrature q).1.1 st) as (Ht & Hs & Hn & Hp & _).
  destruct (Z.le_gt_cases (value q) 0) as [Hv | Hv].
  - rewrite process_quadrature_idle by done. rewrite put_q_same by done.
    repeat split; auto. left. cbn. apply app_nil_r.
  - destruct (process_quadrature_calls q Hv) as (a & b & Hc & Ha & Hb & _).
    destruct (process_quadrature q) as [[q' cs] ls]. cbn in *. subst cs.
    split; [| repeat split; try done].
    + intros p' enc' Hne. unfold get_q at 1. cbn.
      fold (get_q (put_q p enc q' st) p' enc'). apply get_put_ne. congruence.
    + right. exists q, a, b. by rewrite Hp.
Qed.

(** X10.  A wake-up of the timer task of one axis leaves every other axis,
    the running flags, the scale and the store as they were, and makes
    either no driver call or exactly two [gpio_set_level] calls, on the two
    pins of its own axis and with levels 0 or 1; it never calls a timer. *)
Theorem X10_stepper_footprint p enc st :
  let st' := timer_task_step p enc st in
  (forall p' enc', (p', enc') <> (p, enc) -> get_q st' p' enc' = get_q st p' enc') /\
  timer_started st' = timer_started st /\
  s_scale_factor st' = s_scale_factor st /\
  nvs st' = nvs st /\
  (periph st' = periph st \/
   exists q a b,
     get_q st p enc = Some q /\ 0 < value q /\
     periph st' = periph st ++ [gpio_set_level (gpio_a (gpios q)) a;
                                gpio_set_level (gpio_b (gpios q)) b] /\
     (a = 0 \/ a = 1) /\ (b = 0 \/ b = 1)).
Proof. apply timer_task_step_footprint. Qed.

Lemma update_footprint PORT_MAX port_idx dx dy st :
  let st' := uni_mouse_quadrature_update PORT_MAX port_idx dx dy st in
  (forall p' enc', p' <> Z.to_nat port_idx -> get_q st' p' enc' = get_q st p' enc') /\
  timer_started st' = timer_started st /\
  s_scale_factor st' = s_scale_factor st /\
  nvs st' = nvs st /\
  exists cs, periph st' = periph st ++ cs /\
             forallb is_set_counter cs = true /\ (length cs <= 2)%nat.
Proof.
  intros st'. subst st'. unfold uni_mouse_quadrature_update.
  destruct (invalid_port _ _).
  { repeat split; try done. exists []. rewrite app_nil_r.
    repeat split; cbn; (done || lia). }
  set (p := Z.to_nat port_idx).
  assert (forall enc delta s0,
            (forall p' enc', p' <> p ->
               get_q (update_axis p enc delta s0) p' enc' = get_q s0 p' enc') /\
            timer_started (update_axis p enc delta s0) = timer_started s0 /\
            s_scale_factor (update_axis p enc delta s0) = s_scale_factor s0 /\
            nvs (update_axis p enc delta s0) = nvs s0 /\
            exists cs, periph (update_axis p enc delta s0) = periph s0 ++ cs /\
                       forallb is_set_counter cs = true /\ (length cs <= 1)%nat) as Hax.
  { intros enc delta s0. destruct (get_q s0 p enc) as [q |] eqn:Hq.
    - destruct (update_axis_spec p enc delta s0 q Hq) as (_ & Ho & Hp & Ht & Hs & Hn & _).
      repeat split; try done.
      + intros p' enc' Hne. apply Ho. congruence.
      + eexists. split; [exact Hp |]. split; [done | cbn; lia].
    - unfold update_axis. rewrite Hq. repeat split; try done.
      exists []. rewrite app_nil_r. repeat split; cbn; (done || lia). }
  destruct (Hax UNI_MOUSE_QUADRATURE_ENCODER_H dx st) as (Ho1 & Ht1 & Hs1 & Hn1 & cs1 & Hp1 & Hc1 & Hl1).
  destruct (Hax UNI_MOUSE_QUADRATURE_ENCODER_V (Int32.neg dy)
              (update_axis p UNI_MOUSE_QUADRATURE_ENCODER_H dx st))
    as (Ho2 & Ht2 & Hs2 & Hn2 & cs2 & Hp2 & Hc2 & Hl2).
  split; [| split; [congruence | split; [congruence | split; [congruence |]]]].
  - intros p' enc' Hne. by rewrite Ho2, Ho1.
  - exists (cs1 ++ cs2). rewrite Hp2, Hp1, <- app_assoc, forallb_app, Hc1, Hc2, length_app.
    repeat split; (done || lia).
Qed.

(** X11.  A report for one port, valid or not, leaves the axes of every
    other port, the running flags, the scale and the store as they were,
    and calls the driver at most twice, with [timer_set_counter_value]
    only: an update never writes a pin and never starts or pauses a timer. *)
Theorem X11_update_footprint PORT_MAX port_idx dx dy st :
  let st' := uni_mouse_quadrature_update PORT_MAX port_idx dx dy st in
  (forall p' enc', p' <> Z.to_nat port_idx -> get_q st' p' enc' = get_q st p' enc') /\
  timer_started st' = timer_started st /\
  s_scale_factor st' = s_scale_factor st /\
  nvs st' = nvs st /\
  exists cs, periph st' = periph st ++ cs /\
             forallb is_set_counter cs = true /\ (length cs <= 2)%nat.
Proof. apply update_footprint. Qed.

Lemma ltb_one_negative m e :
  F32.ltb (S754_finite true m e) (F32.of_int TICKS_PER_80US) = true.
Proof.
  rewrite of_int_one. unfold F32.ltb, F32.compare, F32.cmp_finite. cbn [cond_Zopp].
  assert (- Z.pos m * 2 ^ (e - Z.min e (-23)) < 8388608 * 2 ^ (-23 - Z.min e (-23))) as H.
  { pose proof (Z.pow_pos_nonneg 2 (e - Z.min e (-23)) ltac:(lia) ltac:(lia)).
    pose proof (Z.pow_pos_nonneg 2 (-23 - Z.min e (-23)) ltac:(lia) ltac:(lia)).
    nia. }
  apply Z.compare_lt_iff in H. by rewrite H.
Qed.

(** Whatever the product, the clamp leaves at least one tick. *)
Lemma units_of_at_least_one x u : units_of x = Some u -> 1 <= u.
Proof.
  destruct (F32.sign_clear x) eqn:Hsc.
  - rewrite units_of_clamp_round by done. intros Hu.
    apply fmap_Some in Hu as (r & _ & ->). lia.
  - destruct x as [[] | [] | | [] m e]; try done; unfold units_of.
    + change (F32.ltb (S754_zero true) (F32.of_int TICKS_PER_80US)) with true.
      cbv iota. rewrite of_int_one. by intros [= <-].
    + change (F32.ltb (S754_infinity true) (F32.of_int TICKS_PER_80US)) with true.
      cbv iota. rewrite of_int_one. by intros [= <-].
    + rewrite ltb_one_negative, of_int_one. by intros [= <-].
Qed.

(** A product with the sign bit set is clamped to one tick. *)
Lemma units_of_sign_set x : F32.sign_clear x = false -> units_of x = Some 1.
Proof.
  destruct x as [[] | [] | | [] m e]; try done. intros _. unfold units_of.
  rewrite ltb_one_negative, of_int_one. reflexivity.
Qed.

(** The products the conversion is not defined for. *)
Lemma units_of_undefined x : units_of x = None <-> out_of_counter x.
Proof.
  destruct (F32.sign_clear x) eqn:Hsc.
  - rewrite units_of_clamp_round by done.
    destruct x as [[] | [] | | [] m e]; try done.
    cbn [out_of_counter]. rewrite to_u64_roundf_finite.
    destruct (Z.ltb_spec (F32.round_mag m e) (2 ^ 64)) as [Hlt | Hge].
    + split; [done | lia].
    + split; [done | done].
  - rewrite units_of_sign_set by done.
    destruct x as [[] | [] | | [] m e]; try done.
    cbn [out_of_counter]. split; [done | by intros [? ?]].
Qed.

(** X12.  [process_update] makes exactly one driver call,
    [timer_set_counter_value] on the timer of its axis.  Whatever the scale
    factor and the delta, the value it programs is at least one tick
    whenever the conversion of the rounded product to [uint64_t] is defined,
    and exactly one tick when the product [max_ticks / |d| * scale] has its
    sign bit set (a negative scale, -0, -infinity).  The conversion is
    undefined exactly when that product is a NaN, +infinity, or rounds to
    [2 ^ 64] or more, as for the scales +infinity and NaN; for these C fixes
    no value. *)
Theorem X12_counter_value_domain scale q delta :
  (process_update scale q delta).2 =
    [timer_set_counter_value (timer_group q) (timer_idx q) (interval scale delta)] /\
  (forall u, interval scale delta = Some u -> 1 <= u) /\
  (delta <> 0 ->
   let x := units_f (abs_delta delta) scale in
   (interval scale delta = None <-> out_of_counter x) /\
   (F32.sign_clear x = false -> interval scale delta = Some 1)) /\
  interval 0x7F800000 5 = None /\
  interval 0x7FC00000 5 = None /\
  interval 0xBF800000 5 = Some 1.
Proof.
  split; [apply process_update_call |]. split; [| split].
  - intros u Hu. unfold interval in Hu. destruct (delta =? 0).
    + injection Hu as <-. unfold ONE_SECOND. lia.
    + by eapply units_of_at_least_one.
  - intros Hne x. unfold interval. destruct (Z.eqb_spec delta 0); [done |].
    split; [apply units_of_undefined | apply units_of_sign_set].
  - repeat split; vm_compute; reflexivity.
Qed.

(** The operations that are not [set_scale_factor] leave the scale and the
    store alone. *)
Lemma run_op_keeps_scale PORT_MAX o st :
  (forall scale a b c, o <> OpSetScale scale a b c) ->
  s_scale_factor (run_op PORT_MAX o st) = s_scale_factor st /\
  nvs (run_op PORT_MAX o st) = nvs st.
Proof.
  intros Hno.
  destruct o as [port_idx h v | port_idx | port_idx | port_idx dx dy
                | scale a b c | p enc]; cbn [run_op].
  - unfold uni_mouse_quadrature_setup_port.
    repeat case_match; split;
      rewrite ?(proj1 (proj2 (put_q_frame _ _ _ _))),
              ?(proj1 (proj2 (proj2 (put_q_frame _ _ _ _)))); done.
  - unfold uni_mouse_quadrature_start. by repeat case_match.
  - unfold uni_mouse_quadrature_pause. by repeat case_match.
  - by destruct (update_footprint PORT_MAX port_idx dx dy st) as (_ & _ & -> & -> & _).
  - by destruct (Hno scale a b c).
  - by destruct (timer_task_step_footprint p enc st) as (_ & _ & -> & -> & _).
Qed.

Lemma run_ops_keeps_scale PORT_MAX ops st :
  Forall not_set_scale ops ->
  s_scale_factor (run_ops PORT_MAX ops st) = s_scale_factor st /\
  nvs (run_ops PORT_MAX ops st) = nvs st.
Proof.
  intros Hall. revert st. induction Hall as [| o ops Ho _ IH]; intros st; [done |].
  change (run_ops PORT_MAX (o :: ops) st)
    with (run_ops PORT_MAX ops (run_op PORT_MAX o st)).
  destruct (IH (run_op PORT_MAX o st)) as [-> ->].
  apply run_op_keeps_scale. intros scale a b c ->. exact Ho.
Qed.

(** X13.  A scale factor that the store accepted survives: after
    [set_scale_factor v] with a working store and any operations that are
    not another [set_scale_factor], the scale in memory is still [v], and a
    new initialisation reads [v] back from the store; if the store then
    cannot be opened or read, initialisation falls back to the default
    1.0. *)
Theorem X13_scale_survives_restart PORT_MAX v ops st :
  Forall not_set_scale ops ->
  let st1 := run_ops PORT_MAX ops
               (uni_mouse_quadrature_set_scale_factor v true true true st) in
  s_scale_factor st1 = v /\
  s_scale_factor (uni_mouse_quadrature_init PORT_MAX true true st1) = v /\
  (forall get_ok,
     s_scale_factor (uni_mouse_quadrature_init PORT_MAX false get_ok st1)
       = DETAULT_SCALE_FACTOR) /\
  s_scale_factor (uni_mouse_quadrature_init PORT_MAX true false st1)
    = DETAULT_SCALE_FACTOR.
Proof.
  intros Hall st1.
  destruct (run_ops_keeps_scale PORT_MAX ops
              (uni_mouse_quadrature_set_scale_factor v true true true st) Hall)
    as [Hs Hn].
  fold st1 in Hs, Hn. cbn in Hs, Hn.
  split; [done |]. split; [| done].
  unfold uni_mouse_quadrature_init, uni_mouse_quadrature_get_scale_factor. cbn.
  by rewrite Hn, lookup_insert_eq.
Qed.

Lemma X13_scale_survives_restart_witness :
  let st1 := run_ops 2 [OpUpdate 0 1 1; OpStart 0]
               (uni_mouse_quadrature_set_scale_factor 0x40000000 true true true
                  sample_boot) in
  s_scale_factor st1 = 0x40000000 /\
  s_scale_factor (uni_mouse_quadrature_init 2 true true st1) = 0x40000000 /\
  (forall get_ok,
     s_scale_factor (uni_mouse_quadrature_init 2 false get_ok st1)
       = DETAULT_SCALE_FACTOR) /\
  s_scale_factor (uni_mouse_quadrature_init 2 true false st1) = DETAULT_SCALE_FACTOR.
Proof.
  apply (X13_scale_survives_restart 2 0x40000000 [OpUpdate 0 1 1; OpStart 0] sample_boot).
  repeat constructor.
Defined.

(** With an empty store the scale is the default, whatever the store
    answers. *)
Lemma init_default_scale PORT_MAX open_ok get_ok st :
  nvs st !! NVS_KEY_SCALE_FACTOR = None ->
  s_scale_factor (uni_mouse_quadrature_init PORT_MAX open_ok get_ok st)
    = DETAULT_SCALE_FACTOR.
Proof.
  intros Hn. unfold uni_mouse_quadrature_init, uni_mouse_quadrature_get_scale_factor.
  cbn. rewrite Hn. by destruct open_ok, get_ok.
Qed.

(** X14.  In a reachable state a wake-up of a timer task adds debug lines
    only to the console: the "invalid phase value" error is never logged.
    For a phase that does leave the cycle (which no reachable state has) the
    stepper logs that error and writes both pins low. *)
Theorem X14_fallback_unreachable PORT_MAX ok st p enc :
  reachable PORT_MAX ok st ->
  (exists ls, console (timer_task_step p enc st) = console st ++ ls /\
              forallb is_logd ls = true) /\
  (forall q, 0 < value q -> ~ 0 <= step_phase (dir q) (phase q) <= 3 ->
     exists fmt args,
       (process_quadrature q).1.2 =
         [gpio_set_level (gpio_a (gpios q)) 0; gpio_set_level (gpio_b (gpios q)) 0] /\
       (process_quadrature q).2 = [loge "%s: invalid phase value: %d"
                                        [LogStr "process_quadrature";
                                         LogInt (step_phase (dir q) (phase q))];
                                   logd fmt args]).
Proof.
  intros Hreach. split.
  - unfold timer_task_step. destruct (get_q st p enc) as [q |] eqn:Hq;
      [| exists []; by rewrite app_nil_r].
    pose proof (reachable_axis_ok _ _ _ Hreach p enc q Hq) as Hok.
    destruct (put_q_frame p enc (process_quadrature q).1.1 st) as (_ & _ & _ & _ & Hc).
    destruct (Z.le_gt_cases (value q) 0) as [Hv | Hv].
    + rewrite process_quadrature_idle by done. exists []. cbn.
      by rewrite put_q_same.
    + destruct (process_quadrature_step q Hv Hok) as (a & b & _ & Heq).
      rewrite Heq in Hc |- *. cbn in Hc |- *. rewrite Hc. by eexists.
  - intros q Hv Hout. unfold process_quadrature.
    destruct (Z.leb_spec (value q) 0); [lia |].
    cbn [set_value set_phase phase dir value gpios].
    destruct (phase_levels (step_phase (dir q) (phase q))) as [[a b] |] eqn:Hlv.
    + exfalso. apply Hout. revert Hlv.
      destruct (step_phase (dir q) (phase q)) as [| [[| |] | [| |] |] |]; cbn; (done || lia).
    + cbn. by eexists _, _.
Qed.

Lemma X14_fallback_unreachable_witness :
  exists ls, console (timer_task_step 0 0 sample_state) = console sample_state ++ ls /\
             forallb is_logd ls = true.
Proof.
  apply (X14_fallback_unreachable 2 (fun _ => True) sample_state 0 0).
  by apply sample_state_reachable.
Defined.

(** ** Timers and tasks *)

Lemma lor_shifted x j :
  0 <= j < 2 ^ 16 -> Z.lor (x * 2 ^ 16) j = x * 2 ^ 16 + j.
Proof.
  intros Hj.
  assert (Z.land (x * 2 ^ 16) j = 0) as Hland.
  { apply Z.bits_inj'. intros n Hn. rewrite Z.land_spec, Z.bits_0.
    destruct (Z.lt_ge_cases n 16) as [Hlt | Hge].
    - by rewrite Z.mul_pow2_bits_low by lia.
    - destruct (Z.eq_dec j 0) as [-> | Hne]; [by rewrite Z.bits_0, andb_false_r |].
      rewrite (Z.bits_above_log2 j n), andb_false_r; [done | lia |].
      apply Z.log2_lt_pow2; [lia |].
      eapply Z.lt_le_trans; [apply Hj | apply Z.pow_le_mono_r; lia]. }
  rewrite <- Z.lxor_lor by done. symmetry. by apply Z.add_nocarry_lxor.
Qed.

Lemma timer_arg_value i j :
  0 <= i < 2 ^ 16 -> 0 <= j < 2 ^ 16 -> timer_arg i j = i * 2 ^ 16 + j.
Proof.
  intros Hi Hj. unfold timer_arg. rewrite Z.shiftl_mul_pow2 by lia.
  unfold Int32.wrap.
  assert (exists k, (i * 2 ^ 16 + 2 ^ 31) mod 2 ^ 32 - 2 ^ 31 = (i - k * 2 ^ 16) * 2 ^ 16)
    as [k ->].
  { exists ((i * 2 ^ 16 + 2 ^ 31) / 2 ^ 32).
    pose proof (Z.div_mod (i * 2 ^ 16 + 2 ^ 31) (2 ^ 32) ltac:(lia)). lia. }
  rewrite lor_shifted by done.
  replace ((i - k * 2 ^ 16) * 2 ^ 16 + j) with (i * 2 ^ 16 + j + (- k) * 2 ^ 32) by lia.
  rewrite Z.mod_add by lia. apply Z.mod_small. lia.
Qed.

(** The argument of a timer task names its axis. *)
Lemma timer_arg_round_trip i j st :
  0 <= i < 2 ^ 16 -> 0 <= j < 2 ^ 16 ->
  port_of_arg (timer_arg i j) = i /\
  encoder_of_arg (timer_arg i j) = j /\
  0 <= timer_arg i j < 2 ^ 32 /\
  timer_task_body (timer_arg i j) st = timer_task_step (Z.to_nat i) (Z.to_nat j) st /\
  (forall i' j', 0 <= i' < 2 ^ 16 -> 0 <= j' < 2 ^ 16 ->
     timer_arg i' j' = timer_arg i j -> i' = i /\ j' = j).
Proof.
  intros Hi Hj. rewrite timer_arg_value by done.
  assert (port_of_arg (i * 2 ^ 16 + j) = i) as Hp.
  { unfold port_of_arg. rewrite Z.shiftr_div_pow2 by lia.
    rewrite Z.div_add_l, (Z.div_small j) by lia. rewrite Z.add_0_r. apply Z.mod_small. lia. }
  assert (encoder_of_arg (i * 2 ^ 16 + j) = j) as He.
  { unfold encoder_of_arg. change 0xffff with (Z.ones 16).
    rewrite Z.land_ones by lia. rewrite Z.mod_mod by lia.
    rewrite Z.add_comm, Z.mod_add by lia. apply Z.mod_small. lia. }
  split; [done |]. split; [done |]. split; [lia |]. split.
  - unfold timer_task_body. by rewrite Hp, He.
  - intros i' j' Hi' Hj'. rewrite timer_arg_value by done. lia.
Qed.

(** X15. The argument [(i << 16) | j] that [init_from_cpu_task] hands to the
    interrupt handler and to the timer task of an axis is decoded by
    [timer_handler] and [timer_task] to the same [i] and [j], as long as the
    shift does not overflow and [j] fits in 16 bits: the task steps the axis
    it was created for, the argument fits in 32 bits, and two axes never
    share an argument. *)
Theorem X15_timer_arg_round_trip i j st :
  0 <= i < 2 ^ 15 -> 0 <= j < 2 ^ 16 ->
  port_of_arg (timer_arg i j) = i /\
  encoder_of_arg (timer_arg i j) = j /\
  0 <= timer_arg i j < 2 ^ 32 /\
  timer_task_body (timer_arg i j) st = timer_task_step (Z.to_nat i) (Z.to_nat j) st /\
  (forall i' j', 0 <= i' < 2 ^ 15 -> 0 <= j' < 2 ^ 16 ->
     timer_arg i' j' = timer_arg i j -> i' = i /\ j' = j).
Proof.
  intros Hi Hj.
  destruct (timer_arg_round_trip i j st ltac:(lia) Hj) as (Hp & He & Hr & Hb & Hinj).
  repeat (split; [done |]). intros i' j' Hi' Hj'. apply Hinj; lia.
Qed.

Lemma X15_timer_arg_round_trip_witness :
  port_of_arg (timer_arg 1 1) = 1 /\
  encoder_of_arg (timer_arg 1 1) = 1 /\
  0 <= timer_arg 1 1 < 2 ^ 32 /\
  timer_task_body (timer_arg 1 1) sample_state =
    timer_task_step (Z.to_nat 1) (Z.to_nat 1) sample_state /\
  (forall i' j', 0 <= i' < 2 ^ 15 -> 0 <= j' < 2 ^ 16 ->
     timer_arg i' j' = timer_arg 1 1 -> i' = 1 /\ j' = 1).
Proof. apply (X15_timer_arg_round_trip 1 1 sample_state); lia. Defined.

Lemma get_put_task_eq ts i j h :
  (exists row, ts !! i = Some row /\ (j < length row)%nat) ->
  mjoin (put_task i j h ts !! i ≫= (.!! j)) = h.
Proof.
  intros (row & Hrow & Hj). unfold put_task. rewrite Hrow.
  rewrite list_lookup_insert_eq by (by eapply lookup_lt_Some). cbn.
  by rewrite list_lookup_insert_eq.
Qed.

Lemma get_put_task_ne ts i j i' j' h :
  (i, j) <> (i', j') ->
  put_task i j h ts !! i' ≫= (.!! j') = ts !! i' ≫= (.!! j').
Proof.
  intros Hne. unfold put_task. destruct (ts !! i) as [row |] eqn:Hrow; [| done].
  destruct (decide (i = i')) as [<- | Hi].
  - rewrite list_lookup_insert_eq by (by eapply lookup_lt_Some).
    rewrite Hrow. cbn. rewrite list_lookup_insert_ne; [done | congruence].
  - by rewrite list_lookup_insert_ne.
Qed.

Lemma put_task_sized PORT_MAX i j h ts :
  length ts = PORT_MAX /\
  Forall (fun row => length row = UNI_MOUSE_QUADRATURE_ENCODER_MAX) ts ->
  length (put_task i j h ts) = PORT_MAX /\
  Forall (fun row => length row = UNI_MOUSE_QUADRATURE_ENCODER_MAX) (put_task i j h ts).
Proof.
  intros [Hl Hr]. unfold put_task. destruct (ts !! i) as [row |] eqn:Hrow; [| done].
  split; [by rewrite length_insert |].
  apply Forall_insert; [done |]. rewrite length_insert.
  by eapply (Forall_lookup_1 _ _ _ _ Hr).
Qed.

Lemma axes_spec PORT_MAX i j :
  (i, j) ∈ axes PORT_MAX <->
  (i < PORT_MAX)%nat /\ (j < UNI_MOUSE_QUADRATURE_ENCODER_MAX)%nat.
Proof.
  unfold axes. rewrite list_elem_of_bind. split.
  - intros (i0 & Hin & Hi0). apply elem_of_seq in Hi0.
    apply list_elem_of_bind in Hin as (j0 & Hin & Hj0). apply elem_of_seq in Hj0.
    apply list_elem_of_singleton in Hin as [= -> ->]. lia.
  - intros [Hi Hj]. exists i. split; [| apply elem_of_seq; lia].
    apply list_elem_of_bind. exists j. split; [by apply list_elem_of_singleton |].
    apply elem_of_seq. lia.
Qed.

Lemma axes_NoDup PORT_MAX : NoDup (axes PORT_MAX).
Proof.
  unfold axes. apply NoDup_bind.
  - intros i1 i2 ij _ _ H1 H2.
    apply list_elem_of_bind in H1 as (j1 & H1 & _).
    apply list_elem_of_bind in H2 as (j2 & H2 & _).
    apply list_elem_of_singleton in H1, H2. congruence.
  - intros i _. apply NoDup_bind.
    + intros j1 j2 ij _ _ H1 H2. apply list_elem_of_singleton in H1, H2. congruence.
    + intros j _. apply NoDup_singleton.
    + apply NoDup_seq.
  - apply NoDup_seq.
Qed.

Section TaskFacts.

Variable new_handle : nat -> Z.
Variable timer_init_ok : Z -> Z -> bool.
Variable task_create_ok : nat -> bool.
Hypothesis new_handle_inj : forall n m, new_handle n = new_handle m -> n = m.
Hypothesis timer_init_always : forall g i, timer_init_ok g i = true.
Hypothesis task_create_always : forall n, task_create_ok n = true.

Lemma init_axes_spec PORT_MAX core l :
  NoDup l -> (forall ij, ij ∈ l -> ij ∈ axes PORT_MAX) ->
  forall r,
    arrays_sized PORT_MAX (mem r) -> tasks_sized PORT_MAX r -> handles_old new_handle r ->
    exists r',
      foldl (fun acc ij => acc ≫= fun r => init_axis new_handle timer_init_ok task_create_ok core r ij)
            (Some r) l = Some r' /\
      mem r' = mem r /\ notified r' = notified r /\
      tasks_sized PORT_MAX r' /\ handles_old new_handle r' /\
      (forall i j, (i, j) ∈ l ->
         exists t, get_task r' i j = Some t /\
                   tasks r' !! t = Some (timer_arg (Z.of_nat i) (Z.of_nat j))) /\
      (forall i j, (i, j) ∉ l -> get_task r' i j = get_task r i j) /\
      (forall t a, tasks r !! t = Some a -> tasks r' !! t = Some a) /\
      (length (sys r') = length (sys r) + 4 * length l)%nat /\
      exists rest,
        sys r' = sys r ++ rest /\
        forall n i j q, l !! n = Some (i, j) -> get_q (mem r) i j = Some q ->
          let h := new_handle (created r + n) in
          let arg := timer_arg (Z.of_nat i) (Z.of_nat j) in
          get_task r' i j = Some h /\
          take 4 (drop (4 * n) rest) =
            [sys_timer_init (timer_group q) (timer_idx q) config;
             sys_periph (timer_set_counter_value (timer_group q) (timer_idx q)
                                                 (Some (ONE_SECOND * 60)));
             sys_timer_isr_callback_add (timer_group q) (timer_idx q) arg;
             sys_task_create (task_name i j) TASK_TIMER_STACK_SIZE arg
                             TASK_TIMER_PRIO (Some h) core].
Proof.
  induction 1 as [| [i j] l Hnin Hnd IH]; intros Hax r Hs Hts Hold.
  { exists r. cbn [foldl length]. split; [done |]. split; [done |]. split; [done |].
    split; [done |]. split; [done |].
    split; [| split; [done | split; [done | split; [lia |]]]].
    - intros i j Hin. by apply elem_of_nil in Hin.
    - exists []. split; [by rewrite app_nil_r | done]. }
  assert ((i, j) ∈ axes PORT_MAX) as Hij by (apply Hax; left).
  apply axes_spec in Hij as [Hi Hj].
  destruct (sized_get_q PORT_MAX (mem r) i j Hs Hi Hj) as [[q Hq] _].
  cbn [foldl]. cbn [mbind option_bind]. unfold init_axis at 2.
  rewrite Hq, timer_init_always, task_create_always. cbn [negb].
  set (h := new_handle (created r)).
  set (r1 := mk_rtos _ _ _ _ _ _).
  assert (tasks r !! h = None) as Hfresh.
  { destruct (tasks r !! h) as [a |] eqn:Ha; [| done].
    destruct (Hold h a Ha) as (n & Hn & Heq). apply new_handle_inj in Heq. lia. }
  destruct (IH ltac:(intros ij Hin; apply Hax; by right) r1) as
    (r' & Hfold & Hmem & Hnot & Hts' & Hold' & Hin' & Hout' & Hkeep & Hlen
        & rest1 & Hsys & Hpt).
  - done.
  - by apply put_task_sized.
  - intros t a Ht. cbn in Ht |- *.
    destruct (decide (t = h)) as [-> | Hne].
    + exists (created r). split; [lia | done].
    + rewrite lookup_insert_ne in Ht by done.
      destruct (Hold t a Ht) as (n & Hn & ->). exists n. split; [lia | done].
  - exists r'. split; [exact Hfold |]. split; [done |]. split; [done |].
    split; [done |]. split; [done |].
    assert (get_task r1 i j = Some h) as Hget1.
    { unfold get_task. cbn. apply get_put_task_eq.
      destruct Hts as [Hl Hr].
      destruct (lookup_lt_is_Some_2 (s_timer_tasks r) i ltac:(lia)) as [row Hrow].
      exists row. split; [done |]. by rewrite (Forall_lookup_1 _ _ _ _ Hr Hrow). }
    split; [| split; [| split; [| split]]].
    + intros i' j' Hin. apply elem_of_cons in Hin as [[= -> ->] | Hin]; [| by apply Hin'].
      exists h. rewrite Hout' by done. split; [done |].
      apply Hkeep. cbn. apply lookup_insert_eq.
    + intros i' j' Hnin'. rewrite Hout' by (intros ?; apply Hnin'; by right).
      unfold get_task. cbn. f_equal. apply get_put_task_ne.
      intros [= -> ->]. apply Hnin'. by left.
    + intros t a Ht. apply Hkeep. cbn. rewrite lookup_insert_ne; [done |].
      intros <-. congruence.
    + rewrite Hlen. cbn. rewrite length_app. cbn. lia.
    + eexists. split; [rewrite Hsys; cbn [sys r1]; by rewrite <- app_assoc |].
      intros [| n] i' j' q' Hn Hq'.
      * injection Hn as <- <-. assert (q' = q) as -> by congruence.
        rewrite Nat.add_0_r. cbv zeta. split; [by rewrite Hout' |]. reflexivity.
      * cbn [lookup list_lookup] in Hn.
        destruct (Hpt n i' j' q' Hn Hq') as [Hg Hc]. cbv zeta in Hg, Hc |- *.
        cbn [created r1] in Hg, Hc.
        replace (created r + S n)%nat with (S (created r) + n)%nat by lia.
        split; [done |]. rewrite <- Hc.
        rewrite drop_app_ge by (cbn [length]; lia). do 2 f_equal. cbn [length]. lia.
Qed.

End TaskFacts.

(** The place of an axis in the order of the loops. *)
Lemma axes_length PORT_MAX :
  length (axes PORT_MAX) = (UNI_MOUSE_QUADRATURE_ENCODER_MAX * PORT_MAX)%nat.
Proof.
  unfold axes. induction PORT_MAX as [| n IH]; [done |].
  rewrite seq_S, bind_app, length_app, IH. cbn.
  unfold UNI_MOUSE_QUADRATURE_ENCODER_MAX. lia.
Qed.

Lemma axes_lookup PORT_MAX i j :
  (i < PORT_MAX)%nat -> (j < UNI_MOUSE_QUADRATURE_ENCODER_MAX)%nat ->
  axes PORT_MAX !! (UNI_MOUSE_QUADRATURE_ENCODER_MAX * i + j)%nat = Some (i, j).
Proof.
  intros Hi Hj. induction PORT_MAX as [| n IH]; [lia |].
  pose proof (axes_length n) as Hlen.
  unfold axes in *. rewrite seq_S, bind_app. cbn [Nat.add].
  unfold UNI_MOUSE_QUADRATURE_ENCODER_MAX in *.
  destruct (decide (i < n)%nat) as [Hlt | Hge].
  - rewrite lookup_app_l by lia. by apply IH.
  - assert (i = n) as -> by lia. rewrite lookup_app_r by lia.
    replace (2 * n + j - length (seq 0 n ≫= (fun i => seq 0 2 ≫= fun j => [(i, j)])))%nat
      with j by lia.
    by destruct j as [| [| j]]; [| | lia].
Qed.

Lemma boot_rtos_sized PORT_MAX st : tasks_sized PORT_MAX (boot_rtos PORT_MAX st).
Proof.
  split; cbn.
  - by rewrite length_replicate.
  - by apply Forall_replicate.
Qed.

Lemma foldl_bind_None {A B} (f : A -> B -> option A) l :
  foldl (fun acc x => acc ≫= fun a => f a x) None l = None.
Proof. by induction l. Qed.

Lemma init_axis_mem new_handle timer_init_ok task_create_ok core r ij r' :
  init_axis new_handle timer_init_ok task_create_ok core r ij = Some r' ->
  mem r' = mem r.
Proof.
  destruct ij as [i j]. unfold init_axis. intros H.
  repeat case_match; simplify_eq; done.
Qed.

Lemma init_axes_abort new_handle timer_init_ok task_create_ok core l i j :
  (i, j) ∈ l ->
  forall r q,
    get_q (mem r) i j = Some q ->
    timer_init_ok (timer_group q) (timer_idx q) = false ->
    foldl (fun acc ij => acc ≫= fun r => init_axis new_handle timer_init_ok task_create_ok core r ij)
          (Some r) l = None.
Proof.
  induction l as [| ij l IH]; intros Hin r q Hq Hfail.
  { by apply elem_of_nil in Hin. }
  cbn [foldl]. cbn [mbind option_bind].
  apply elem_of_cons in Hin as [<- | Hin].
  - unfold init_axis at 2. rewrite Hq, Hfail. cbn [negb]. apply foldl_bind_None.
  - destruct (init_axis _ _ _ core r ij) as [r1 |] eqn:H1; [| apply foldl_bind_None].
    apply (IH Hin r1 q); [| done]. by rewrite (init_axis_mem _ _ _ _ _ _ _ H1).
Qed.

(** X16. When every [timer_init] and every task creation succeeds and the
    system never gives the same handle twice, [init_from_cpu_task] started
    with no task returns: it leaves the axes, the flags and the scale as
    they are, stores for every axis of every port the handle of a live task
    whose argument names that axis, leaves no notification pending, makes
    four calls for each axis and ends with [vTaskDelete(NULL)].  The axes
    are served in the order of the loops, so the axis [(i, j)] is the
    [k]-th with [k = ENCODER_MAX * i + j]: its handle is the one of the
    [k]-th task created, and calls [4 k] to [4 k + 3] are [timer_init] with
    the configuration of the function, [timer_set_counter_value] with one
    minute, [timer_isr_callback_add] and [xTaskCreatePinnedToCore], all on
    the timer and with the argument and the name of that axis. *)
Theorem X16_init_binds_tasks (new_handle : nat -> Z) (timer_init_ok : Z -> Z -> bool)
    (task_create_ok : nat -> bool) PORT_MAX core st :
  (forall n m, new_handle n = new_handle m -> n = m) ->
  (forall g i, timer_init_ok g i = true) ->
  (forall n, task_create_ok n = true) ->
  arrays_sized PORT_MAX st ->
  exists r,
    init_from_cpu_task new_handle timer_init_ok task_create_ok PORT_MAX core
                       (boot_rtos PORT_MAX st) = Some r /\
    mem r = st /\ tasks_bound PORT_MAX r /\ notified r = ∅ /\
    length (sys r) = (4 * (UNI_MOUSE_QUADRATURE_ENCODER_MAX * PORT_MAX) + 1)%nat /\
    last (sys r) = Some (sys_task_delete None) /\
    forall i j q,
      (i < PORT_MAX)%nat -> (j < UNI_MOUSE_QUADRATURE_ENCODER_MAX)%nat ->
      get_q st i j = Some q ->
      let k := (UNI_MOUSE_QUADRATURE_ENCODER_MAX * i + j)%nat in
      let arg := timer_arg (Z.of_nat i) (Z.of_nat j) in
      get_task r i j = Some (new_handle k) /\
      tasks r !! new_handle k = Some arg /\
      take 4 (drop (4 * k) (sys r)) =
        [sys_timer_init (timer_group q) (timer_idx q) config;
         sys_periph (timer_set_counter_value (timer_group q) (timer_idx q)
                                             (Some (ONE_SECOND * 60)));
         sys_timer_isr_callback_add (timer_group q) (timer_idx q) arg;
         sys_task_create (task_name i j) TASK_TIMER_STACK_SIZE arg
                         TASK_TIMER_PRIO (Some (new_handle k)) core].
Proof.
  intros Hinj Hinit Hcreate Hs.
  destruct (init_axes_spec new_handle timer_init_ok task_create_ok Hinj Hinit Hcreate
              PORT_MAX core (axes PORT_MAX) (axes_NoDup PORT_MAX) ltac:(done)
              (boot_rtos PORT_MAX st) Hs (boot_rtos_sized PORT_MAX st))
    as (r' & Hfold & Hmem & Hnot & Hts & Hold & Hin & _ & _ & Hlen & rest & Hsys & Hpt).
  { intros t a Ht. cbn in Ht. by rewrite lookup_empty in Ht. }
  eexists. unfold init_from_cpu_task. rewrite Hfold. cbn [mbind option_bind].
  split; [done |]. cbn [mem notified sys tasks].
  split; [done |]. split.
  - intros i j Hi Hj. destruct (Hin i j) as (t & Ht & Ha); [by apply axes_spec |].
    exists t. split; done.
  - split; [done |]. split; [| split].
    + rewrite length_app, Hlen, axes_length. cbn [length sys boot_rtos]. lia.
    + by rewrite last_snoc.
    + intros i j q Hi Hj Hq. cbv zeta.
      set (k := (UNI_MOUSE_QUADRATURE_ENCODER_MAX * i + j)%nat).
      destruct (Hpt k i j q (axes_lookup PORT_MAX i j Hi Hj) Hq) as [Hg Hc].
      cbv zeta in Hg, Hc. cbn [created boot_rtos Nat.add] in Hg, Hc.
      split; [exact Hg |]. split.
      * destruct (Hin i j) as (t & Ht & Ha); [by apply axes_spec |]. congruence.
      * rewrite <- Hc. cbn [sys boot_rtos app] in Hsys. rewrite Hsys.
        assert (4 * k + 4 <= length rest)%nat as Hk.
        { cbn [sys boot_rtos length] in Hlen. rewrite Hsys in Hlen.
          rewrite Hlen, axes_length. subst k.
          unfold UNI_MOUSE_QUADRATURE_ENCODER_MAX in *. lia. }
        rewrite drop_app_le by lia. apply take_app_le.
        rewrite length_drop. lia.
Qed.

Lemma X16_init_binds_tasks_witness :
  exists r,
    init_from_cpu_task Z.of_nat (fun _ _ => true) (fun _ => true) 2 0
                       (boot_rtos 2 sample_state) = Some r /\
    mem r = sample_state /\ tasks_bound 2 r /\ notified r = ∅ /\
    length (sys r) = (4 * (UNI_MOUSE_QUADRATURE_ENCODER_MAX * 2) + 1)%nat /\
    last (sys r) = Some (sys_task_delete None) /\
    forall i j q,
      (i < 2)%nat -> (j < UNI_MOUSE_QUADRATURE_ENCODER_MAX)%nat ->
      get_q sample_state i j = Some q ->
      let k := (UNI_MOUSE_QUADRATURE_ENCODER_MAX * i + j)%nat in
      let arg := timer_arg (Z.of_nat i) (Z.of_nat j) in
      get_task r i j = Some (Z.of_nat k) /\
      tasks r !! Z.of_nat k = Some arg /\
      take 4 (drop (4 * k) (sys r)) =
        [sys_timer_init (timer_group q) (timer_idx q) config;
         sys_periph (timer_set_counter_value (timer_group q) (timer_idx q)
                                             (Some (ONE_SECOND * 60)));
         sys_timer_isr_callback_add (timer_group q) (timer_idx q) arg;
         sys_task_create (task_name i j) TASK_TIMER_STACK_SIZE arg
                         TASK_TIMER_PRIO (Some (Z.of_nat k)) 0].
Proof.
  apply (X16_init_binds_tasks Z.of_nat (fun _ _ => true) (fun _ => true) 2 0 sample_state).
  - intros n m. lia.
  - done.
  - done.
  - apply (reachable_sized 2 (fun _ => True)). by apply sample_state_reachable.
Defined.

(** X17. When [timer_init] fails for one axis, [ESP_ERROR_CHECK] aborts
    [init_from_cpu_task]: whatever the other calls do, the function does not
    return and its closing [vTaskDelete(NULL)] is not reached. *)
Theorem X17_init_aborts (new_handle : nat -> Z) (timer_init_ok : Z -> Z -> bool)
    (task_create_ok : nat -> bool) PORT_MAX core r i j q :
  (i < PORT_MAX)%nat -> (j < UNI_MOUSE_QUADRATURE_ENCODER_MAX)%nat ->
  get_q (mem r) i j = Some q ->
  timer_init_ok (timer_group q) (timer_idx q) = false ->
  init_from_cpu_task new_handle timer_init_ok task_create_ok PORT_MAX core r = None.
Proof.
  intros Hi Hj Hq Hfail. unfold init_from_cpu_task.
  rewrite (init_axes_abort new_handle timer_init_ok task_create_ok core (axes PORT_MAX) i j
             ltac:(by apply axes_spec) r q Hq Hfail).
  done.
Qed.

Lemma X17_init_aborts_witness :
  init_from_cpu_task Z.of_nat (fun _ _ => false) (fun _ => true) 2 0
                     (boot_rtos 2 sample_boot) = None.
Proof.
  eapply (X17_init_aborts Z.of_nat (fun _ _ => false) (fun _ => true) 2 0
            (boot_rtos 2 sample_boot) 0 0).
  - lia.
  - cbv. lia.
  - reflexivity.
  - reflexivity.
Defined.

Lemma alarms_spec n i j t r :
  0 <= i < 2 ^ 16 -> 0 <= j < 2 ^ 16 ->
  get_task r (Z.to_nat i) (Z.to_nat j) = Some t ->
  alarms n (timer_arg i j) r =
    match n with
    | O => Some r
    | S _ => Some (mk_rtos (mem r) (s_timer_tasks r) (tasks r) (created r)
                     (<[t := (n + default O (notified r !! t))%nat]> (notified r))
                     (sys r))
    end.
Proof.
  intros Hi Hj Ht.
  destruct (timer_arg_round_trip i j (mem r) Hi Hj) as (Hp & He & _).
  induction n as [| n IH]; [done |].
  unfold alarms in *. rewrite Nat.iter_succ, IH. cbn [mbind option_bind].
  unfold timer_handler. rewrite Hp, He.
  destruct n as [| n]; cbn [mbind option_bind].
  - by rewrite Ht.
  - match goal with
    | |- context [get_task ?r1 _ _] => change (get_task r1 (Z.to_nat i) (Z.to_nat j))
        with (get_task r (Z.to_nat i) (Z.to_nat j))
    end.
    rewrite Ht. cbn [mem s_timer_tasks tasks created notified sys].
    rewrite lookup_insert_eq. cbn [default]. rewrite insert_insert_eq. done.
Qed.

Lemma timer_task_pending t r arg k :
  tasks r !! t = Some arg -> notified r !! t = Some (S k) ->
  timer_task t r =
    mk_rtos (timer_task_body arg (mem r)) (s_timer_tasks r) (tasks r) (created r)
            (<[t := O]> (notified r)) (sys r).
Proof. intros Ha Hn. unfold timer_task. by rewrite Ha, Hn. Qed.

Lemma timer_task_idle t r :
  default O (notified r !! t) = O -> timer_task t r = r.
Proof. intros Hn. unfold timer_task. rewrite Hn. by destruct (tasks r !! t). Qed.

(** X18. Alarms are not counted: after any positive number of calls of
    [timer_handler] for an axis with a live task, one pass of [timer_task]
    steps that axis exactly once and clears what is pending, and a second
    pass finds nothing to do. *)
Theorem X18_alarms_coalesce n i j t r :
  0 <= i < 2 ^ 15 -> 0 <= j < 2 ^ 16 ->
  get_task r (Z.to_nat i) (Z.to_nat j) = Some t ->
  tasks r !! t = Some (timer_arg i j) ->
  (0 < n)%nat ->
  exists r1,
    alarms n (timer_arg i j) r = Some r1 /\
    mem r1 = mem r /\
    mem (timer_task t r1) = timer_task_step (Z.to_nat i) (Z.to_nat j) (mem r) /\
    notified (timer_task t r1) !! t = Some O /\
    timer_task t (timer_task t r1) = timer_task t r1.
Proof.
  intros Hi Hj Ht Ha Hn.
  destruct (timer_arg_round_trip i j (mem r) ltac:(lia) Hj) as (_ & _ & _ & Hbody & _).
  rewrite (alarms_spec n i j t r ltac:(lia) Hj Ht). destruct n as [| n]; [lia |].
  eexists. split; [done |]. split; [done |].
  erewrite timer_task_pending; [| exact Ha | apply lookup_insert_eq].
  cbn [mem notified]. split; [done |]. split; [apply lookup_insert_eq |].
  apply timer_task_idle. cbn [notified]. by rewrite lookup_insert_eq.
Qed.

Lemma X18_alarms_coalesce_witness :
  exists r1,
    alarms 3 (timer_arg 1 0) sample_rtos = Some r1 /\
    mem r1 = mem sample_rtos /\
    mem (timer_task 12 r1) = timer_task_step (Z.to_nat 1) (Z.to_nat 0) (mem sample_rtos) /\
    notified (timer_task 12 r1) !! 12 = Some O /\
    timer_task 12 (timer_task 12 r1) = timer_task 12 r1.
Proof.
  apply (X18_alarms_coalesce 3 1 0 12 sample_rtos).
  - lia.
  - lia.
  - reflexivity.
  - by vm_compute.
  - lia.
Defined.

Lemma deinit_axes_dead l r : foldl deinit_axis (r, false) l = (r, false).
Proof. induction l as [| [i j] l IH]; [done |]. cbn. apply IH. Qed.

Lemma deinit_axes_spec PORT_MAX l :
  NoDup l -> (forall ij, ij ∈ l -> ij ∈ axes PORT_MAX) ->
  forall r,
    arrays_sized PORT_MAX (mem r) -> tasks_sized PORT_MAX r ->
    (forall i j, (i, j) ∈ l -> is_Some (get_task r i j)) ->
    exists r',
      foldl deinit_axis (r, true) l = (r', true) /\
      mem r' = mem r /\ created r' = created r /\
      tasks_sized PORT_MAX r' /\
      (forall i j, (i, j) ∈ l -> get_task r' i j = None) /\
      (forall i j, (i, j) ∉ l -> get_task r' i j = get_task r i j) /\
      (forall i j t, (i, j) ∈ l -> get_task r i j = Some t -> tasks r' !! t = None) /\
      (forall t, tasks r !! t = None -> tasks r' !! t = None) /\
      (length (sys r') = length (sys r) + 2 * length l)%nat /\
      exists rest,
        sys r' = sys r ++ rest /\
        forall n i j q, l !! n = Some (i, j) -> get_q (mem r) i j = Some q ->
          take 2 (drop (2 * n) rest) =
            [sys_timer_deinit (timer_group q) (timer_idx q);
             sys_task_delete (get_task r i j)].
Proof.
  induction 1 as [| [i j] l Hnin Hnd IH]; intros Hax r Hs Hts Hsome.
  { exists r. cbn [foldl length]. split; [done |]. split; [done |]. split; [done |].
    split; [done |]. split.
    - intros i j Hin. by apply elem_of_nil in Hin.
    - split; [done |]. split; [| split; [done | split; [lia |]]].
      + intros i j t Hin. by apply elem_of_nil in Hin.
      + exists []. split; [by rewrite app_nil_r | done]. }
  assert ((i, j) ∈ axes PORT_MAX) as Hij by (apply Hax; left).
  apply axes_spec in Hij as [Hi Hj].
  destruct (sized_get_q PORT_MAX (mem r) i j Hs Hi Hj) as [[q Hq] _].
  destruct (Hsome i j ltac:(left)) as [t Ht].
  cbn [foldl]. unfold deinit_axis at 2. cbn [negb]. rewrite Hq, Ht.
  set (r1 := mk_rtos _ _ _ _ _ _).
  assert (forall i' j', (i, j) <> (i', j') -> get_task r1 i' j' = get_task r i' j') as Hother.
  { intros i' j' Hne. unfold get_task. cbn. f_equal. by apply get_put_task_ne. }
  assert (get_task r1 i j = None) as Hget1.
  { unfold get_task. cbn. apply get_put_task_eq.
    destruct Hts as [Hl Hr].
    destruct (lookup_lt_is_Some_2 (s_timer_tasks r) i ltac:(lia)) as [row Hrow].
    exists row. split; [done |]. by rewrite (Forall_lookup_1 _ _ _ _ Hr Hrow). }
  destruct (IH ltac:(intros ij Hin; apply Hax; by right) r1) as
    (r' & Hfold & Hmem & Hcr & Hts' & Hin' & Hout' & Hdel & Hkeep & Hlen
        & rest1 & Hsys & Hpt).
  - done.
  - by apply put_task_sized.
  - intros i' j' Hin. rewrite Hother; [apply Hsome; by right |].
    intros [= <- <-]. done.
  - exists r'. split; [exact Hfold |]. split; [done |]. split; [done |].
    split; [done |]. split; [| split; [| split; [| split; [| split]]]].
    + intros i' j' Hin. apply elem_of_cons in Hin as [[= -> ->] | Hin]; [| by apply Hin'].
      by rewrite Hout'.
    + intros i' j' Hnin'. rewrite Hout' by (intros ?; apply Hnin'; by right).
      apply Hother. intros [= -> ->]. apply Hnin'. by left.
    + intros i' j' t' Hin Ht'. apply elem_of_cons in Hin as [[= -> ->] | Hin].
      * apply Hkeep. cbn. assert (t' = t) as -> by congruence. apply lookup_delete_eq.
      * apply (Hdel i' j'); [done |]. rewrite Hother; [done |].
        intros [= <- <-]. done.
    + intros t' Hnone. apply Hkeep. cbn. destruct (decide (t' = t)) as [-> | Hne].
      * apply lookup_delete_eq.
      * by rewrite lookup_delete_ne.
    + rewrite Hlen. cbn. rewrite length_app. cbn. lia.
    + eexists. split; [rewrite Hsys; cbn [sys r1]; by rewrite <- app_assoc |].
      intros [| n] i' j' q' Hn Hq'.
      * injection Hn as <- <-. assert (q' = q) as -> by congruence.
        rewrite Ht. reflexivity.
      * cbn [lookup list_lookup] in Hn.
        rewrite drop_app_ge by (cbn [length]; lia).
        replace (2 * S n - length [sys_timer_deinit (timer_group q) (timer_idx q);
                                   sys_task_delete (Some t)])%nat
          with (2 * n)%nat by (cbn [length]; lia).
        rewrite (Hpt n i' j' q' Hn Hq'). rewrite Hother; [done |].
        intros [= <- <-]. apply Hnin. by eapply list_elem_of_lookup_2.
Qed.

Lemma deinit_axes_null PORT_MAX l i j :
  NoDup l -> (forall ij, ij ∈ l -> ij ∈ axes PORT_MAX) -> (i, j) ∈ l ->
  forall r,
    arrays_sized PORT_MAX (mem r) ->
    get_task r i j = None ->
    (foldl deinit_axis (r, true) l).2 = false.
Proof.
  induction 1 as [| [i0 j0] l Hnin Hnd IH]; intros Hax Hin r Hs Hnull.
  { by apply elem_of_nil in Hin. }
  assert ((i0, j0) ∈ axes PORT_MAX) as Hij by (apply Hax; left).
  apply axes_spec in Hij as [Hi Hj].
  destruct (sized_get_q PORT_MAX (mem r) i0 j0 Hs Hi Hj) as [[q Hq] _].
  cbn [foldl]. unfold deinit_axis at 2. cbn [negb]. rewrite Hq.
  destruct (get_task r i0 j0) as [t |] eqn:Ht.
  - apply elem_of_cons in Hin as [[= -> ->] | Hin]; [congruence |].
    apply IH; [intros ij Hin'; apply Hax; by right | done | done |].
    unfold get_task. cbn. rewrite get_put_task_ne; [exact Hnull |].
    intros [= -> ->]. done.
  - by rewrite deinit_axes_dead.
Qed.

(** X19. With a handle stored for every axis,
    [uni_mouse_quadrature_deinit] returns to its caller: every handle of the
    array is [NULL] afterwards, the tasks the handles named are deleted, two
    calls are made for each axis, and the axes, the running flags and the
    scale are left as they were.  The axes are served in the order of the
    loops: for the axis [(i, j)], the [k]-th with [k = ENCODER_MAX * i + j],
    the calls [2 k] and [2 k + 1] after those made before are
    [timer_deinit] on the timer of the axis and [vTaskDelete] of the handle
    that was stored for it.  A second [uni_mouse_quadrature_deinit] then
    deletes the task that calls it. *)
Theorem X19_deinit_deletes_tasks PORT_MAX r :
  arrays_sized PORT_MAX (mem r) -> tasks_sized PORT_MAX r ->
  (forall i j, (i < PORT_MAX)%nat -> (j < UNI_MOUSE_QUADRATURE_ENCODER_MAX)%nat ->
     is_Some (get_task r i j)) ->
  exists r',
    uni_mouse_quadrature_deinit PORT_MAX r = (r', true) /\
    mem r' = mem r /\
    (forall i j, get_task r' i j = None) /\
    (forall i j t, get_task r i j = Some t -> tasks r' !! t = None) /\
    length (sys r') = (length (sys r) + 2 * (UNI_MOUSE_QUADRATURE_ENCODER_MAX * PORT_MAX))%nat /\
    ((0 < PORT_MAX)%nat -> (uni_mouse_quadrature_deinit PORT_MAX r').2 = false) /\
    take (length (sys r)) (sys r') = sys r /\
    forall i j q,
      (i < PORT_MAX)%nat -> (j < UNI_MOUSE_QUADRATURE_ENCODER_MAX)%nat ->
      get_q (mem r) i j = Some q ->
      let k := (UNI_MOUSE_QUADRATURE_ENCODER_MAX * i + j)%nat in
      take 2 (drop (length (sys r) + 2 * k) (sys r')) =
        [sys_timer_deinit (timer_group q) (timer_idx q);
         sys_task_delete (get_task r i j)].
Proof.
  intros Hs Hts Hsome.
  destruct (deinit_axes_spec PORT_MAX (axes PORT_MAX) (axes_NoDup PORT_MAX) ltac:(done)
              r Hs Hts)
    as (r' & Hfold & Hmem & _ & Hts' & Hin & Hout & Hdel & _ & Hlen & rest & Hsys & Hpt).
  { intros i j Hin. apply axes_spec in Hin as [Hi Hj]. by apply Hsome. }
  exists r'. split; [exact Hfold |]. split; [done |].
  assert (forall i j, get_task r i j <> None ->
            (i < PORT_MAX)%nat /\ (j < UNI_MOUSE_QUADRATURE_ENCODER_MAX)%nat) as Hrange.
  { intros i j Hne. destruct Hts as [Hl Hr]. unfold get_task in Hne.
    destruct (s_timer_tasks r !! i) as [row |] eqn:Hrow; [| done].
    pose proof (lookup_lt_Some _ _ _ Hrow) as Hi. cbn in Hne.
    destruct (row !! j) as [h |] eqn:Hh; [| done].
    pose proof (lookup_lt_Some _ _ _ Hh) as Hj.
    rewrite (Forall_lookup_1 _ _ _ _ Hr Hrow) in Hj. lia. }
  split; [| split; [| split; [| split; [| split]]]].
  - intros i j. destruct (decide ((i, j) ∈ axes PORT_MAX)) as [Hi | Hni]; [by apply Hin |].
    rewrite Hout by done. destruct (get_task r i j) as [t |] eqn:Ht; [| done].
    exfalso. apply Hni, axes_spec, Hrange. by rewrite Ht.
  - intros i j t Ht. apply (Hdel i j); [| done]. apply axes_spec, Hrange. by rewrite Ht.
  - by rewrite Hlen, axes_length.
  - intros Hpos.
    apply (deinit_axes_null PORT_MAX (axes PORT_MAX) 0 0 (axes_NoDup PORT_MAX));
      [done | apply axes_spec; cbv; lia | by rewrite Hmem |].
    apply Hin, axes_spec. cbv. lia.
  - rewrite Hsys. by rewrite take_app_length.
  - intros i j q Hi Hj Hq. cbv zeta. rewrite Hsys.
    rewrite drop_app_ge by lia.
    replace (length (sys r) + 2 * (UNI_MOUSE_QUADRATURE_ENCODER_MAX * i + j) - length (sys r))%nat
      with (2 * (UNI_MOUSE_QUADRATURE_ENCODER_MAX * i + j))%nat by lia.
    by apply Hpt; [apply axes_lookup |].
Qed.

Lemma X19_deinit_deletes_tasks_witness :
  exists r',
    uni_mouse_quadrature_deinit 2 sample_rtos = (r', true) /\
    mem r' = mem sample_rtos /\
    (forall i j, get_task r' i j = None) /\
    (forall i j t, get_task sample_rtos i j = Some t -> tasks r' !! t = None) /\
    length (sys r') =
      (length (sys sample_rtos) + 2 * (UNI_MOUSE_QUADRATURE_ENCODER_MAX * 2))%nat /\
    ((0 < 2)%nat -> (uni_mouse_quadrature_deinit 2 r').2 = false) /\
    take (length (sys sample_rtos)) (sys r') = sys sample_rtos /\
    forall i j q,
      (i < 2)%nat -> (j < UNI_MOUSE_QUADRATURE_ENCODER_MAX)%nat ->
      get_q (mem sample_rtos) i j = Some q ->
      let k := (UNI_MOUSE_QUADRATURE_ENCODER_MAX * i + j)%nat in
      take 2 (drop (length (sys sample_rtos) + 2 * k) (sys r')) =
        [sys_timer_deinit (timer_group q) (timer_idx q);
         sys_task_delete (get_task sample_rtos i j)].
Proof.
  apply (X19_deinit_deletes_tasks 2 sample_rtos).
  - apply init_sized.
  - split; [reflexivity | by repeat constructor].
  - intros i j Hi Hj. unfold UNI_MOUSE_QUADRATURE_ENCODER_MAX in Hj.
    destruct i as [| [| i]]; [| | lia]; (destruct j as [| [| j]]; [| | lia]);
      by eexists.
Defined.

(** X20. With a [NULL] handle stored for some axis,
    [uni_mouse_quadrature_deinit] calls [vTaskDelete(NULL)] and so deletes
    the task that called it, as when no timer task has been created. *)
Theorem X20_deinit_null_handle PORT_MAX r i j :
  arrays_sized PORT_MAX (mem r) ->
  (i < PORT_MAX)%nat -> (j < UNI_MOUSE_QUADRATURE_ENCODER_MAX)%nat ->
  get_task r i j = None ->
  (uni_mouse_quadrature_deinit PORT_MAX r).2 = false.
Proof.
  intros Hs Hi Hj Hnull.
  apply (deinit_axes_null PORT_MAX (axes PORT_MAX) i j (axes_NoDup PORT_MAX));
    [done | by apply axes_spec | done | done].
Qed.

Lemma X20_deinit_null_handle_witness :
  (uni_mouse_quadrature_deinit 2 (boot_rtos 2 sample_boot)).2 = false.
Proof.
  apply (X20_deinit_null_handle 2 (boot_rtos 2 sample_boot) 0 0).
  - apply init_sized.
  - lia.
  - cbv. lia.
  - reflexivity.
Defined.
